(** * casm_sky: the visibility engine of [static/js/skyrfi.js]

    A shallow embedding of the horizon model, the timed cache, the three
    feed fetchers and the classification loops of [updateMathLoop], with
    the properties claimed for them by the specification.

    Conventions of the embedding.
    - A JavaScript number is a [num]: [NaN], the two infinities, or an
      exact rational.  Rounding to binary64, overflow and the sign of zero
      are not modelled.
    - Millisecond clock readings ([Date.now()]) are integers ([Z]).
    - A string is the sequence of the bytes of its UTF-8 encoding.  The
      separators, signs, digits and name fragments the program looks for
      are ASCII, so splitting, searching and testing for equality read
      the same on these bytes as on UTF-16 code units; white space is
      recognised in its encoded form.  A text with an unpaired surrogate
      has no such encoding and is not covered.
    - A JavaScript value that arrives from JSON is a [jsval]; property
      access, truthiness and the [||] operator follow ECMAScript.
    - An exception is the [Throw] outcome of a [result]; [try]/[catch] is
      a [match] on it.
    - Library code that is not part of the repository (satellite.js, the
      JSON codec, the storage quota) is a [Variable] of the section. *)

From Stdlib Require Import ZArith QArith Qcanon Qround Lqa Lia.
From Stdlib Require Import String Ascii List Sorting.Sorted Sorting.Permutation.
From stdpp Require Import gmap strings list fin_maps.

Local Open Scope string_scope.
Local Open Scope list_scope.
Local Open Scope Z_scope.

(** ** JavaScript numbers *)

Inductive num : Type :=
| NaN
| Inf (neg : bool)
| Fin (q : Qc).

Definition Qc_of (z : Z) : Qc := Q2Qc (inject_Z z).

Definition Qc_ltb (x y : Qc) : bool :=
  match (x ?= y)%Qc with Lt => true | _ => false end.

Definition Qc_eqb (x y : Qc) : bool :=
  match (x ?= y)%Qc with Eq => true | _ => false end.

(** Truncation toward zero, as in the definition of the [%] operator. *)
Definition Qtrunc (q : Q) : Z :=
  if Qle_bool 0 q then Qfloor q else Qceiling q.

(** [x % d] for finite operands and [d <> 0]: the result has the sign of
    the dividend [x]. *)
Definition Qc_rem (x d : Qc) : Qc :=
  (x - d * Qc_of (Qtrunc (x / d)%Qc))%Qc.

Definition num_neg (a : num) : num :=
  match a with
  | NaN => NaN
  | Inf s => Inf (negb s)
  | Fin q => Fin (- q)%Qc
  end.

Definition num_add (a b : num) : num :=
  match a, b with
  | NaN, _ | _, NaN => NaN
  | Inf s, Inf t => if Bool.eqb s t then Inf s else NaN
  | Inf s, Fin _ | Fin _, Inf s => Inf s
  | Fin x, Fin y => Fin (x + y)%Qc
  end.

Definition num_sub (a b : num) : num := num_add a (num_neg b).

Definition num_mul (a b : num) : num :=
  match a, b with
  | NaN, _ | _, NaN => NaN
  | Inf s, Inf t => Inf (xorb s t)
  | Inf s, Fin y | Fin y, Inf s =>
      if Qc_eqb y 0 then NaN else Inf (xorb s (Qc_ltb y 0))
  | Fin x, Fin y => Fin (x * y)%Qc
  end.

Definition num_div (a b : num) : num :=
  match a, b with
  | NaN, _ | _, NaN => NaN
  | Inf _, Inf _ => NaN
  | Inf s, Fin y => Inf (xorb s (Qc_ltb y 0))
  | Fin _, Inf _ => Fin 0
  | Fin x, Fin y =>
      if Qc_eqb y 0
      then (if Qc_eqb x 0 then NaN else Inf (Qc_ltb x 0))
      else Fin (x / y)%Qc
  end.

Definition num_rem (a b : num) : num :=
  match a, b with
  | NaN, _ | _, NaN => NaN
  | Inf _, _ => NaN
  | Fin x, Inf _ => Fin x
  | Fin x, Fin d => if Qc_eqb d 0 then NaN else Fin (Qc_rem x d)
  end.

(** [a < b]; every comparison with [NaN] is false. *)
Definition num_lt (a b : num) : bool :=
  match a, b with
  | NaN, _ | _, NaN => false
  | Inf s, Inf t => s && negb t
  | Inf s, Fin _ => s
  | Fin _, Inf t => negb t
  | Fin x, Fin y => Qc_ltb x y
  end.

Definition num_gt (a b : num) : bool := num_lt b a.

(** [a === b] on numbers. *)
Definition num_eqb (a b : num) : bool :=
  match a, b with
  | Inf s, Inf t => Bool.eqb s t
  | Fin x, Fin y => Qc_eqb x y
  | _, _ => false
  end.

Definition num_of_Z (z : Z) : num := Fin (Qc_of z).

Definition is_NaN (a : num) : bool :=
  match a with NaN => true | _ => false end.

Definition is_Fin (a : num) : bool :=
  match a with Fin _ => true | _ => false end.

Declare Scope num_scope.
Delimit Scope num_scope with num.
Bind Scope num_scope with num.
Infix "+" := num_add : num_scope.
Infix "-" := num_sub : num_scope.
Infix "*" := num_mul : num_scope.
Infix "/" := num_div : num_scope.
Infix "%%" := num_rem (at level 40, left associativity) : num_scope.
Infix "<?" := num_lt : num_scope.
Infix ">?" := num_gt : num_scope.
Infix "=?" := num_eqb : num_scope.

(** ** Strings *)

Definition LF : ascii := "010"%char.

(** [s.split(sep)] for a one-character separator: never empty. *)
Fixpoint str_split (sep : ascii) (s : string) : list string :=
  match s with
  | EmptyString => [EmptyString]
  | String c s' =>
      if Ascii.eqb c sep then EmptyString :: str_split sep s'
      else match str_split sep s' with
           | [] => [String c EmptyString]
           | w :: ws => String c w :: ws
           end
  end.

(** The white space and line terminators of one byte: TAB, LF, VT, FF,
    CR and the space. *)
Definition is_ws (c : ascii) : bool :=
  let n := nat_of_ascii c in
  (Nat.leb 9 n && Nat.leb n 13) || Nat.eqb n 32.

(** The white space and line terminators beyond ASCII, by the bytes of
    their encodings: U+00A0 on two bytes; U+1680, U+2000 to U+200A,
    U+2028, U+2029, U+202F, U+205F, U+3000 and U+FEFF on three. *)
Definition is_ws2 (a b : ascii) : bool :=
  Nat.eqb (nat_of_ascii a) 194 && Nat.eqb (nat_of_ascii b) 160.

Definition is_ws3 (a b c : ascii) : bool :=
  let x := nat_of_ascii a in
  let y := nat_of_ascii b in
  let z := nat_of_ascii c in
  (Nat.eqb x 225 && Nat.eqb y 154 && Nat.eqb z 128)
  || (Nat.eqb x 226 && Nat.eqb y 128
      && ((Nat.leb 128 z && Nat.leb z 138)
          || Nat.eqb z 168 || Nat.eqb z 169 || Nat.eqb z 175))
  || (Nat.eqb x 226 && Nat.eqb y 129 && Nat.eqb z 159)
  || (Nat.eqb x 227 && Nat.eqb y 128 && Nat.eqb z 128)
  || (Nat.eqb x 239 && Nat.eqb y 187 && Nat.eqb z 191).

Definition is_empty (s : string) : bool :=
  match s with EmptyString => true | _ => false end.

(** What follows the white-space character [s] starts with, if it starts
    with one. *)
Definition ws_head (s : string) : option string :=
  match s with
  | String a r1 =>
      if is_ws a then Some r1
      else
        match r1 with
        | String b r2 =>
            if is_ws2 a b then Some r2
            else
              match r2 with
              | String c r3 => if is_ws3 a b c then Some r3 else None
              | EmptyString => None
              end
        | EmptyString => None
        end
  | EmptyString => None
  end.

(** [s.trimStart()]: the white-space characters at the front go. *)
Fixpoint trimStart (s : string) : string :=
  match s with
  | String a r1 =>
      if is_ws a then trimStart r1
      else
        match r1 with
        | String b r2 =>
            if is_ws2 a b then trimStart r2
            else
              match r2 with
              | String c r3 => if is_ws3 a b c then trimStart r3 else s
              | EmptyString => s
              end
        | EmptyString => s
        end
  | EmptyString => EmptyString
  end.

(** [s.trimEnd()]: the string is cut where nothing but white space
    follows. *)
Fixpoint trimEnd (s : string) : string :=
  match s with
  | EmptyString => EmptyString
  | String c s' =>
      if is_empty (trimStart s) then EmptyString else String c (trimEnd s')
  end.

(** [s.trim()] *)
Definition trim (s : string) : string := trimEnd (trimStart s).

(** [s.includes(sub)] *)
Fixpoint includes (sub s : string) : bool :=
  String.prefix sub s ||
  match s with
  | EmptyString => false
  | String _ s' => includes sub s'
  end.

Definition digit_of (c : ascii) : option Z :=
  let n := nat_of_ascii c in
  if Nat.leb 48 n && Nat.leb n 57 then Some (Z.of_nat n - 48) else None.

(** The longest run of decimal digits at the front of [s], and the rest. *)
Fixpoint take_digits (s : string) : list Z * string :=
  match s with
  | EmptyString => ([], EmptyString)
  | String c s' =>
      match digit_of c with
      | Some d => let '(ds, r) := take_digits s' in (d :: ds, r)
      | None => ([], s)
      end
  end.

Definition digits_value (ds : list Z) : Z :=
  fold_left (fun v d => 10 * v + d) ds 0.

Definition take_sign (s : string) : bool * string :=
  match s with
  | String "+" r => (false, r)
  | String "-" r => (true, r)
  | _ => (false, s)
  end.

(** The exponent part [e[+-]digits] at the front of [s], or 0 when the
    text there is not a complete exponent. *)
Definition take_exponent (s : string) : Z :=
  match s with
  | String c r =>
      if Ascii.eqb c "e" || Ascii.eqb c "E" then
        let '(eneg, r1) := take_sign r in
        match take_digits r1 with
        | ([], _) => 0
        | (ed, _) => if eneg then - digits_value ed else digits_value ed
        end
      else 0
  | EmptyString => 0
  end.

(** [parseFloat(s)]: leading white space is skipped and the longest
    prefix that is a decimal literal is converted; [NaN] when there is
    none. *)
Definition parseFloat (s : string) : num :=
  let '(neg, s2) := take_sign (trimStart s) in
  if String.prefix "Infinity" s2 then Inf neg
  else
    let '(ip, s3) := take_digits s2 in
    let '(fp, s4) :=
      match s3 with
      | String "." r => take_digits r
      | _ => ([], s3)
      end in
    match ip, fp with
    | [], [] => NaN
    | _, _ =>
        let m := inject_Z (digits_value (ip ++ fp)) in
        let e := take_exponent s4 - Z.of_nat (length fp) in
        let v := Q2Qc (m * Qpower (inject_Z 10) e) in
        Fin (if neg then - v else v)%Qc
    end.

(** ** JavaScript values and exceptions *)

#[local] Set Warnings "-register-all".

Inductive jsval : Type :=
| Undefined
| Null
| Bool (b : bool)
| Num (n : num)
| Str (s : string)
| Arr (xs : list jsval)
| Obj (fields : list (string * jsval)).

Inductive result (A : Type) : Type :=
| Ok (a : A)
| Throw.
Arguments Ok {A} a.
Arguments Throw {A}.

Definition bind {A B : Type} (r : result A) (k : A -> result B) : result B :=
  match r with
  | Ok a => k a
  | Throw => Throw
  end.

Notation "'let?' x ':=' r 'in' k" := (bind r (fun x => k))
  (at level 10, x name, r at level 100, k at level 200).

(** ToBoolean *)
Definition truthy (v : jsval) : bool :=
  match v with
  | Undefined | Null => false
  | Bool b => b
  | Num NaN => false
  | Num (Inf _) => true
  | Num (Fin q) => negb (Qc_eqb q 0)
  | Str s => negb (is_empty s)
  | Arr _ | Obj _ => true
  end.

Fixpoint assoc (k : string) (fs : list (string * jsval)) : option jsval :=
  match fs with
  | [] => None
  | (k', v) :: fs' => if String.eqb k k' then Some v else assoc k fs'
  end.

(** [v.name] for the property names the program reads ([ts], [data],
    [ac], [lat], [lon], [hex], [flight], [r], [alt_geom], [alt_baro]):
    a TypeError on [undefined] and [null], the own property of an object,
    and [undefined] on every other value, none of whose prototypes has a
    property of these names. *)
Definition getProp (v : jsval) (name : string) : result jsval :=
  match v with
  | Undefined | Null => Throw
  | Obj fs => Ok (default Undefined (assoc name fs))
  | _ => Ok Undefined
  end.

(** [a || b] *)
Definition js_or (a b : jsval) : jsval := if truthy a then a else b.

Inductive completion : Type :=
| Normal
| Abrupt.

(** [xs.forEach(f)] with a callback that updates a state [S] and may
    throw: the first exception ends the iteration, and the updates made
    before it stay. *)
Fixpoint forEach {S A : Type} (f : A -> S -> S * completion)
    (xs : list A) (s : S) : S * completion :=
  match xs with
  | [] => (s, Normal)
  | x :: xs' =>
      match f x s with
      | (s', Normal) => forEach f xs' s'
      | (s', Abrupt) => (s', Abrupt)
      end
  end.

(** [a[i]] on an array of numbers; an index out of range reads
    [undefined], which every use below coerces to [NaN]. *)
Definition idx (a : list num) (i : Z) : num :=
  if i <? 0 then NaN else nth (Z.to_nat i) a NaN.

(** [Array.prototype.sort(comparefn)] as a stable insertion sort.  A
    comparator result of [NaN] counts as [+0] (SortCompare).  ECMAScript
    fixes the result only for a consistent comparator; for the others
    this is one of the allowed orders. *)
Section Sort.
Context {A : Type} (comparefn : A -> A -> num).

Definition sort_after (x y : A) : bool := (comparefn x y >? num_of_Z 0)%num.

Fixpoint sort_insert (x : A) (l : list A) : list A :=
  match l with
  | [] => [x]
  | y :: l' => if sort_after x y then y :: sort_insert x l' else x :: l
  end.

Definition js_sort (l : list A) : list A := foldr sort_insert [] l.
End Sort.

(** ** The horizon model *)

Record Horizon : Type := mkHorizon {
  hz_az : list num;
  hz_alt : list num
}.

(** ToUint32 of a non-negative integer, and [x >>> 1]. *)
Definition ToUint32 (z : Z) : Z := z mod 2 ^ 32.
Definition ushr1 (z : Z) : Z := Z.shiftr (ToUint32 z) 1.

(** The [while (l <= r)] loop of [getHorizonLimit]; [None] when [fuel]
    iterations do not reach the exit. *)
Fixpoint bsearch (fuel : nat) (a : list num) (x : num) (l r : Z)
    : option (Z * Z) :=
  if l <=? r then
    match fuel with
    | O => None
    | S fuel' =>
        let m := ushr1 (l + r) in
        if (idx a m <? x)%num
        then bsearch fuel' a x (m + 1) r
        else bsearch fuel' a x l (m - 1)
    end
  else Some (l, r).

Definition normAz (azDeg : num) : num :=
  ((azDeg %% num_of_Z 360 + num_of_Z 360) %% num_of_Z 360)%num.

Definition getHorizonLimit (h : Horizon) (azDeg : num) : option num :=
  let n := Z.of_nat (length (hz_az h)) in
  if n =? 0 then Some (num_of_Z (-5))
  else
    let az := normAz azDeg in
    match bsearch (length (hz_az h)) (hz_az h) az 0 (n - 1) with
    | None => None
    | Some (l, r) =>
        let i1 := if r <? 0 then n - 1 else r in
        let i2 := if l >=? n then 0 else l in
        let az1 := idx (hz_az h) i1 in
        let alt1 := idx (hz_alt h) i1 in
        let az2 := idx (hz_az h) i2 in
        let alt2 := idx (hz_alt h) i2 in
        let run := ((az2 - az1 + num_of_Z 360) %% num_of_Z 360)%num in
        if (run =? num_of_Z 0)%num then Some alt1
        else Some (alt1 + ((alt2 - alt1) / run)
                          * ((az - az1 + num_of_Z 360) %% num_of_Z 360))%num
    end.

(** The row loop of [parseHorizonCsv], over the lines from index 1 on. *)
Fixpoint csv_rows (lines : list string) (az alt : list num)
    : list num * list num :=
  match lines with
  | [] => (az, alt)
  | line :: rest =>
      let p := str_split "," line in
      if (3 <=? length p)%nat
      then csv_rows rest (az ++ [parseFloat (nth 1 p "")])
                         (alt ++ [parseFloat (nth 2 p "")])
      else csv_rows rest az alt
  end.

Definition by_azimuth (a b : num * num) : num := (fst a - fst b)%num.

(** The profile [parseHorizonCsv] computes from the text. *)
Definition csv_profile (text : string) : Horizon :=
  let lines := str_split LF text in
  let '(az, alt) := csv_rows (skipn 1 lines) [] [] in
  let c := js_sort by_azimuth
             (imap (fun i a => (a, idx alt (Z.of_nat i))) az) in
  {| hz_az := map fst c; hz_alt := map snd c |}.

(** ** Configuration *)

Definition TLE_FETCH_MS : Z := 3 * 60 * 60 * 1000.
Definition PLANE_FETCH_MS : Z := 1000.
Definition TLE_URL : string :=
  "https://celestrak.org/NORAD/elements/gp.php?GROUP=active&FORMAT=tle".
Definition PLANES_URL : string :=
  "https://corsproxy.io/?https://api.airplanes.live/v2/point/37.2317/-118.2951/200".
Definition PLANES_KEY : string := "planes_37.2317_-118.2951_200".

(** [getGroup] *)
Definition getGroup (name : string) : string :=
  if includes "STARLINK" name then "STARLINK"
  else if includes "MUOS" name then "MUOS"
  else if includes "GPS" name then "GPS"
  else if includes "ONEWEB" name then "ONEWEB"
  else "OTHER".

(** A tracked aircraft, the value stored in [SK_STATE.planes]. *)
Record plane : Type := mkPlane {
  p_hex : jsval;
  p_callsign : jsval;
  p_lat : jsval;
  p_lon : jsval;
  p_alt_ft : jsval;
  p_last_update : Z
}.

(** An entry of the lists handed to the renderer. *)
Record VisibleObject : Type := mkVisible {
  vo_name : jsval;
  vo_az : num;
  vo_el : num;
  vo_dist : num;
  vo_group : string
}.

Section SkyRfi.

(** *** What the program takes from its environment *)

(** The record built by [satellite.twoline2satrec], which may throw. *)
Context {satrec_handle : Type}.
Variable twoline2satrec : string -> string -> result satrec_handle.

(** [satellite.propagate(s, now).position], [None] when it is falsy, and
    the look angles of lines 326-330 and 336-341 in degrees:
    (azimuth, elevation, range). *)
Context {position : Type}.
Variable propagate : satrec_handle -> Z -> option position.
Variable satLookAngles : position -> Z -> num * num * num.
Variable planeLookAngles : plane -> num * num * num.

(** [JSON.parse], which throws on malformed text, and [JSON.stringify]. *)
Variable JSON_parse : string -> result jsval.
Variable JSON_stringify : jsval -> string.

(** Whether [localStorage] accepts a content (the quota). *)
Variable storage_fits : gmap string string -> bool.

(** ToNumber and ToString on strings, arrays and objects (ToNumber), and
    on numbers, arrays and objects (ToString). *)
Variable ToNumber_other : jsval -> num.
Variable ToString_other : jsval -> string.

Definition ToNumber (v : jsval) : num :=
  match v with
  | Undefined => NaN
  | Null => Fin 0
  | Bool b => if b then Fin 1 else Fin 0
  | Num n => n
  | _ => ToNumber_other v
  end.

Definition ToPropertyKey (v : jsval) : string :=
  match v with
  | Str s => s
  | Undefined => "undefined"
  | Null => "null"
  | Bool true => "true"
  | Bool false => "false"
  | _ => ToString_other v
  end.

(** *** Shared state *)

Record satrec : Type := mkSatrec {
  rec_handle : satrec_handle;
  rec_name : string;
  rec_group : string
}.

Record SK_STATE : Type := mkState {
  satRecords : list satrec;
  planes : gmap string plane;
  horizon : Horizon
}.

(** [parseHorizonCsv]: the two arrays of [SK_STATE.horizon] are
    assigned, nothing else is. *)
Definition parseHorizonCsv (st : SK_STATE) (text : string) : SK_STATE :=
  {| satRecords := satRecords st;
     planes := planes st;
     horizon := csv_profile text |}.

(** *** The timed cache *)

(** [localStorage.getItem(key)], [None] for [null]; the store is taken
    to be readable. *)
Definition getItem (ls : gmap string string) (key : string) : option string :=
  ls !! key.

Definition setItem (ls : gmap string string) (key value : string)
    : result (gmap string string) :=
  let ls' := <[key := value]> ls in
  if storage_fits ls' then Ok ls' else Throw.

Definition envelope (now : Z) (data : jsval) : jsval :=
  Obj [("ts", Num (num_of_Z now)); ("data", data)].

(** The body of the [try] block at the head of [cachedFetchText] and
    [cachedFetchJson]: [Ok (Some d)] is [return obj.data]. *)
Definition cacheReadBody (ls : gmap string string) (key : string)
    (ttl now : Z) : result (option jsval) :=
  match getItem ls key with
  | Some raw =>
      if is_empty raw then Ok None
      else
        let? obj := JSON_parse raw in
        let? ts := getProp obj "ts" in
        if (num_of_Z now - ToNumber ts <? num_of_Z ttl)%num
        then (let? d := getProp obj "data" in Ok (Some d))
        else Ok None
  | None => Ok None
  end.

(** The [try] block with its empty [catch]. *)
Definition cacheRead (ls : gmap string string) (key : string)
    (ttl now : Z) : option jsval :=
  match cacheReadBody ls key ttl now with
  | Ok r => r
  | Throw => None
  end.

(** [try { localStorage.setItem(...) } catch (e) {}] *)
Definition cacheWrite (ls : gmap string string) (key : string)
    (data : jsval) (now : Z) : gmap string string :=
  match setItem ls key (JSON_stringify (envelope now data)) with
  | Ok ls' => ls'
  | Throw => ls
  end.

(** [net url] is the outcome of [await fetch(url)] followed by
    [await r.text()]. *)
Definition cachedFetchText (net : string -> result string)
    (ls : gmap string string) (url storageKey : string) (ttl now : Z)
    : result jsval * gmap string string :=
  match cacheRead ls storageKey ttl now with
  | Some d => (Ok d, ls)
  | None =>
      match net url with
      | Throw => (Throw, ls)
      | Ok text => (Ok (Str text), cacheWrite ls storageKey (Str text) now)
      end
  end.

(** [net url] is the outcome of [await fetch(url)] followed by
    [await r.json()]. *)
Definition cachedFetchJson (net : string -> result jsval)
    (ls : gmap string string) (url storageKey : string) (ttl now : Z)
    : result jsval * gmap string string :=
  match cacheRead ls storageKey ttl now with
  | Some d => (Ok d, ls)
  | None =>
      match net url with
      | Throw => (Throw, ls)
      | Ok data => (Ok data, cacheWrite ls storageKey data now)
      end
  end.

(** *** The orbital-catalog fetch *)

(** The [for (i = 0; i < lines.length; i += 3)] loop of [fetchTLEs] on
    the lines from index [i] on, pushing onto [recs].  Reading
    [lines[i+1]] or [lines[i+2]] past the end gives [undefined], whose
    [.trim()] is a TypeError. *)
Fixpoint tle_loop (lines : list string) (recs : list satrec)
    : list satrec * completion :=
  match lines with
  | [] => (recs, Normal)
  | l0 :: rest =>
      if is_empty l0 then
        match rest with
        | _ :: _ :: rest' => tle_loop rest' recs
        | _ => (recs, Normal)
        end
      else
        match rest with
        | l1 :: l2 :: rest' =>
            match twoline2satrec (trim l1) (trim l2) with
            | Ok h =>
                tle_loop rest'
                  (recs ++ [ {| rec_handle := h;
                                rec_name := trim l0;
                                rec_group := getGroup (trim l0) |} ])
            | Throw => (recs, Abrupt)
            end
        | _ => (recs, Abrupt)
        end
  end.

(** [fetchTLEs]: [SK_STATE.satRecords = []] comes before the loop, so
    whatever the loop has pushed when it stops is the catalog.  A cached
    payload that is not a string has no [split]: the TypeError comes
    before the catalog is touched. *)
Definition fetchTLEs (net : string -> result string) (st : SK_STATE)
    (ls : gmap string string) (now : Z) : SK_STATE * gmap string string :=
  let '(r, ls') := cachedFetchText net ls TLE_URL "tles_active" TLE_FETCH_MS now in
  match r with
  | Ok (Str text) =>
      let lines := str_split LF text in
      let '(recs, _) := tle_loop lines [] in
      ({| satRecords := recs; planes := planes st; horizon := horizon st |}, ls')
  | Ok _ => (st, ls')
  | Throw => (st, ls')
  end.

(** *** The aircraft fetch *)

(** [p.flight ? p.flight.trim() : (p.r || p.hex)]; only strings have
    [trim]. *)
Definition callsign_of (p : jsval) : result jsval :=
  let? flight := getProp p "flight" in
  if truthy flight then
    match flight with
    | Str s => Ok (Str (trim s))
    | _ => Throw
    end
  else
    let? r := getProp p "r" in
    let? hex := getProp p "hex" in
    Ok (js_or r hex).

(** [p.alt_geom || p.alt_baro || 0] *)
Definition alt_ft_of (p : jsval) : result jsval :=
  let? g := getProp p "alt_geom" in
  let? b := getProp p "alt_baro" in
  Ok (js_or (js_or g b) (Num (num_of_Z 0))).

(** [SK_STATE.planes[k] = e], on the own properties of the object.
    [SK_STATE.planes] is an ordinary object, so the name [__proto__]
    reaches the setter it inherits from [Object.prototype]: the
    assignment replaces the prototype of the object and creates no own
    property, unless the object has an own property of that name.  The
    program reads the object through [Object.keys], [Object.values] and
    its own keys only, so the prototype is not part of the state. *)
Definition assign_plane (k : string) (e : plane) (pl : gmap string plane)
    : gmap string plane :=
  match pl !! k with
  | Some _ => <[k := e]> pl
  | None => if String.eqb k "__proto__" then pl else <[k := e]> pl
  end.

(** The callback of [data.ac.forEach] on the pair
    ([SK_STATE.planes], [validHexes]). *)
Definition upsert (now : Z) (p : jsval)
    (s : gmap string plane * list jsval)
    : (gmap string plane * list jsval) * completion :=
  let '(pl, validHexes) := s in
  match getProp p "lat" with
  | Throw => (s, Abrupt)
  | Ok lat =>
      if negb (truthy lat) then (s, Normal)
      else
        match getProp p "lon" with
        | Throw => (s, Abrupt)
        | Ok lon =>
            if negb (truthy lon) then (s, Normal)
            else
              match getProp p "hex" with
              | Throw => (s, Abrupt)
              | Ok hex =>
                  let validHexes' := validHexes ++ [hex] in
                  match (let? c := callsign_of p in
                         let? a := alt_ft_of p in
                         Ok (c, a)) with
                  | Throw => ((pl, validHexes'), Abrupt)
                  | Ok (c, a) =>
                      ((assign_plane (ToPropertyKey hex)
                          {| p_hex := hex; p_callsign := c;
                             p_lat := lat; p_lon := lon;
                             p_alt_ft := a; p_last_update := now |} pl,
                        validHexes'),
                       Normal)
                  end
              end
        end
  end.

(** [validHexes.has(k)] for a string [k]: SameValueZero. *)
Definition has (validHexes : list jsval) (k : string) : bool :=
  existsb (fun v => match v with Str s => String.eqb s k | _ => false end)
          validHexes.

(** The callback of [Object.keys(SK_STATE.planes).forEach]. *)
Definition expire (now : Z) (validHexes : list jsval) (k : string)
    (pl : gmap string plane) : gmap string plane :=
  match pl !! k with
  | Some p =>
      if negb (has validHexes k) && (now - p_last_update p >? 15000)
      then delete k pl
      else pl
  | None => pl
  end.

(** [Object.keys(o)], the own property names; the order of the keys is
    not the one of JavaScript, and nothing below depends on it. *)
Definition keys (pl : gmap string plane) : list string :=
  (map_to_list pl).*1.

Definition cleanup (now : Z) (validHexes : list jsval)
    (pl : gmap string plane) : gmap string plane :=
  foldl (fun m k => expire now validHexes k m) pl (keys pl).

(** The body of the [try] of [fetchPlanes] after the [await], with
    [now] the clock reading taken there. *)
Definition refreshPlanes (now : Z) (data : jsval) (pl : gmap string plane)
    : gmap string plane :=
  match getProp data "ac" with
  | Throw => pl
  | Ok ac =>
      let '((pl1, validHexes), c) :=
        if truthy ac then
          match ac with
          | Arr recs => forEach (upsert now) recs (pl, [])
          | _ => ((pl, []), Abrupt)
          end
        else ((pl, []), Normal) in
      match c with
      | Normal => cleanup now validHexes pl1
      | Abrupt => pl1
      end
  end.

(** [fetchPlanes]; [t0] is the clock reading inside [cachedFetchJson]. *)
Definition fetchPlanes (net : string -> result jsval) (st : SK_STATE)
    (ls : gmap string string) (t0 now : Z) : SK_STATE * gmap string string :=
  let '(r, ls') := cachedFetchJson net ls PLANES_URL PLANES_KEY PLANE_FETCH_MS t0 in
  match r with
  | Ok data =>
      ({| satRecords := satRecords st;
          planes := refreshPlanes now data (planes st);
          horizon := horizon st |}, ls')
  | Throw => (st, ls')
  end.

(** *** The classification loops of [updateMathLoop] *)

(** The callback of [SK_STATE.satRecords.forEach] on the pair
    ([visSats], [blockSats]); [None] when [getHorizonLimit] does not
    return. *)
Definition classifySat (h : Horizon) (now : Z) (s : satrec)
    (acc : list VisibleObject * Z) : option (list VisibleObject * Z) :=
  let '(visSats, blockSats) := acc in
  match propagate (rec_handle s) now with
  | None => Some acc
  | Some pos =>
      let '(az, el, dist) := satLookAngles pos now in
      lim ← getHorizonLimit h az;
      if (el >? lim)%num then
        Some (visSats ++ [ {| vo_name := Str (rec_name s); vo_az := az;
                              vo_el := el; vo_dist := dist;
                              vo_group := rec_group s |} ], blockSats)
      else if (el >? num_of_Z (-10))%num then Some (visSats, blockSats + 1)
      else Some acc
  end.

(** The callback of [Object.values(SK_STATE.planes).forEach] on the pair
    ([visPlanes], [blockPlanes]). *)
Definition classifyPlane (h : Horizon) (p : plane)
    (acc : list VisibleObject * Z) : option (list VisibleObject * Z) :=
  let '(visPlanes, blockPlanes) := acc in
  let '(az, el, dist) := planeLookAngles p in
  lim ← getHorizonLimit h az;
  if (el >? lim - Fin (Q2Qc 0.5))%num then
    Some (visPlanes ++ [ {| vo_name := p_callsign p; vo_az := az;
                            vo_el := el; vo_dist := dist;
                            vo_group := "Aircraft" |} ], blockPlanes)
  else Some (visPlanes, blockPlanes + 1).

Fixpoint loop {A S : Type} (f : A -> S -> option S) (xs : list A) (s : S)
    : option S :=
  match xs with
  | [] => Some s
  | x :: xs' => s' ← f x s; loop f xs' s'
  end.

(** [Object.values(o)], in the order of [keys]. *)
Definition values (pl : gmap string plane) : list plane :=
  (map_to_list pl).*2.

(** The two loops of [updateMathLoop]:
    ([visSats], [blockSats], [visPlanes], [blockPlanes]). *)
Definition updateMathLoop (st : SK_STATE) (now : Z)
    : option (list VisibleObject * Z * list VisibleObject * Z) :=
  '(visSats, blockSats) ← loop (classifySat (horizon st) now) (satRecords st) ([], 0);
  '(visPlanes, blockPlanes) ← loop (classifyPlane (horizon st)) (values (planes st)) ([], 0);
  Some (visSats, blockSats, visPlanes, blockPlanes).

(** *** The catalog as the specification words it *)

(** The three-line groups of a catalog; the last one may be short. *)
Fixpoint triplets (lines : list string)
    : list (string * option string * option string) :=
  match lines with
  | [] => []
  | [l0] => [(l0, None, None)]
  | [l0; l1] => [(l0, Some l1, None)]
  | l0 :: l1 :: l2 :: rest => (l0, Some l1, Some l2) :: triplets rest
  end.

(** The record of a group with a name and both element lines, when
    [twoline2satrec] returns one. *)
Definition triplet_record (t : string * option string * option string)
    : option satrec :=
  match t with
  | (l0, Some l1, Some l2) =>
      if is_empty l0 then None
      else match twoline2satrec (trim l1) (trim l2) with
           | Ok h => Some {| rec_handle := h; rec_name := trim l0;
                             rec_group := getGroup (trim l0) |}
           | Throw => None
           end
  | _ => None
  end.

(** A group the loop gets past: its name line is empty, or it has both
    element lines and [twoline2satrec] returns on them. *)
Definition readable (t : string * option string * option string) : Prop :=
  is_empty (fst (fst t)) = true \/
  exists l1 l2 h, snd (fst t) = Some l1 /\ snd t = Some l2 /\
                  twoline2satrec (trim l1) (trim l2) = Ok h.

(** *** The classification as the specification words it *)

(** The value of [getHorizonLimit(az)]. *)
Definition occlusion (h : Horizon) (az : num) : num :=
  default NaN (getHorizonLimit h az).

(** The look angles of a catalog entry, when it propagates. *)
Definition sat_look (now : Z) (s : satrec) : option (num * num * num) :=
  pos ← propagate (rec_handle s) now; Some (satLookAngles pos now).

(** The entry of the visible list for [s]: there is one when [s]
    propagates and its elevation exceeds the occlusion elevation. *)
Definition sat_entry (h : Horizon) (now : Z) (s : satrec)
    : option VisibleObject :=
  '(az, el, dist) ← sat_look now s;
  if (el >? occlusion h az)%num
  then Some {| vo_name := Str (rec_name s); vo_az := az; vo_el := el;
               vo_dist := dist; vo_group := rec_group s |}
  else None.

(** [s] counts as blocked: it propagates, is not visible, and its
    elevation exceeds -10. *)
Definition sat_blocked (h : Horizon) (now : Z) (s : satrec) : bool :=
  match sat_look now s with
  | Some (az, el, _) =>
      negb (el >? occlusion h az)%num && (el >? num_of_Z (-10))%num
  | None => false
  end.

(** An aircraft is visible: its elevation exceeds the occlusion
    elevation less half a degree. *)
Definition plane_visible (h : Horizon) (p : plane) : bool :=
  let '(az, el, _) := planeLookAngles p in
  (el >? occlusion h az - Fin (Q2Qc 0.5))%num.

Definition plane_entry (p : plane) : VisibleObject :=
  let '(az, el, dist) := planeLookAngles p in
  {| vo_name := p_callsign p; vo_az := az; vo_el := el; vo_dist := dist;
     vo_group := "Aircraft" |}.

(** *** Aircraft snapshots as the specification words them *)

(** The property [name] of the object with the own properties [fs]. *)
Definition field (fs : list (string * jsval)) (name : string) : jsval :=
  default Undefined (assoc name fs).

(** A record passes the coordinate guard of [fetchPlanes]. *)
Definition accepted (p : jsval) : bool :=
  match getProp p "lat", getProp p "lon" with
  | Ok lat, Ok lon => truthy lat && truthy lon
  | _, _ => false
  end.

(** The key of [SK_STATE.planes] a record is stored under. *)
Definition record_key (p : jsval) : string :=
  match getProp p "hex" with
  | Ok hex => ToPropertyKey hex
  | Throw => ""
  end.

(** The test of the cleanup on the entry [p] at key [k]. *)
Definition doomed (now : Z) (validHexes : list jsval) (k : string) (p : plane)
    : bool :=
  negb (has validHexes k) && (now - p_last_update p >? 15000).

(** No record of the snapshot is stored under [k]. *)
Definition absent_from (k : string) (recs : list jsval) : Prop :=
  Forall (fun r => accepted r = true -> record_key r <> k) recs.

(** *** The occlusion query as the specification words it *)

(** The mathematical [q mod 360], in [[0, 360)]. *)
Definition normalize360 (q : Qc) : Qc :=
  (q - Qc_of 360 * Qc_of (Qfloor (q / Qc_of 360)%Qc))%Qc.

(** The insertion point of [a] in a sorted array: the number of entries
    below [a]. *)
Definition insertion_point (azs : list Qc) (a : Qc) : nat :=
  length (List.filter (fun x => Qc_ltb x a) azs).

(** The bracketing pair: the sample before the insertion point and the
    sample at it, each wrapping to the other end of the array. *)
Definition lower_sample (samples : list (Qc * Qc)) (q : Qc) : Qc * Qc :=
  let k := insertion_point (map fst samples) (normalize360 q) in
  nth (if (k =? 0)%nat then length samples - 1 else k - 1)%nat samples (0, 0)%Qc.

Definition upper_sample (samples : list (Qc * Qc)) (q : Qc) : Qc * Qc :=
  let k := insertion_point (map fst samples) (normalize360 q) in
  nth (if (k =? length samples)%nat then 0 else k)%nat samples (0, 0)%Qc.

(** Linear interpolation over the circular run between the pair. *)
Definition occlusionElevation (samples : list (Qc * Qc)) (q : Qc) : Qc :=
  let '(az1, alt1) := lower_sample samples q in
  let '(az2, alt2) := upper_sample samples q in
  let run := Qc_rem (az2 - az1 + Qc_of 360)%Qc (Qc_of 360) in
  if Qc_eqb run 0 then alt1
  else (alt1 + (alt2 - alt1) / run
               * Qc_rem (normalize360 q - az1 + Qc_of 360) (Qc_of 360))%Qc.

(** [a <= b] on numbers. *)
Definition num_le (a b : num) : bool := num_lt a b || num_eqb a b.

(** The samples of the rows a terrain table keeps: the rows after the
    first that have three fields or more, with fields 2 and 3 through
    [parseFloat]. *)
Definition kept_samples (text : string) : list (num * num) :=
  flat_map
    (fun line =>
       let p := str_split "," line in
       if (3 <=? length p)%nat
       then [(parseFloat (nth 1 p ""), parseFloat (nth 2 p ""))]
       else [])
    (tl (str_split LF text)).

Fixpoint has_char (c : ascii) (s : string) : bool :=
  match s with
  | EmptyString => false
  | String c' s' => Ascii.eqb c' c || has_char c s'
  end.

(** The stored form of a profile of finite samples. *)
Definition profile (samples : list (Qc * Qc)) : Horizon :=
  {| hz_az := map (fun s => Fin (fst s)) samples;
     hz_alt := map (fun s => Fin (snd s)) samples |}.

(** The profile {(0,2), (90,2), (180,2), (270,2)}. *)
Definition flat_profile : list (Qc * Qc) :=
  [(Qc_of 0, Qc_of 2); (Qc_of 90, Qc_of 2);
   (Qc_of 180, Qc_of 2); (Qc_of 270, Qc_of 2)].

(** Ascending by azimuth. *)
Definition ascending (a b : num * num) : Prop := num_le (fst a) (fst b) = true.

(** A stored sample whose two numbers are finite. *)
Definition finite_sample (s : num * num) : option (Qc * Qc) :=
  match s with
  | (Fin a, Fin e) => Some (a, e)
  | _ => None
  end.

Definition stored_sample (s : Qc * Qc) : num * num := (Fin (fst s), Fin (snd s)).


(** *** The terrain fetch *)

Definition HORIZON_LOCAL : string := "/static/horizon_BTV9VXUH.csv".
Definition HORIZON_REMOTE : string :=
  "https://corsproxy.io/?https://www.heywhatsthat.com/api/horizon.csv?id=BTV9VXUH&resolution=.1".
Definition HORIZON_KEY : string := "horizon_BTV9VXUH".
Definition HORIZON_TTL : Z := 365 * 24 * 60 * 60 * 1000.

(** The call [parseHorizonCsv(text)] on what [cachedFetchText] returned:
    only a string has [split], on every other value [text.split('\n')]
    is a TypeError, thrown before the state is touched. *)
Definition parseHorizonCsv_value (st : SK_STATE) (text : jsval)
    : result SK_STATE :=
  match text with
  | Str s => Ok (parseHorizonCsv st s)
  | _ => Throw
  end.

(** [fetchHorizon]: the local copy first and, when that attempt throws,
    the remote service, both through the cache under the same key;
    [now1] and [now2] are the clock readings of the two
    [cachedFetchText]. *)
Definition fetchHorizon (net : string -> result string) (st : SK_STATE)
    (ls : gmap string string) (now1 now2 : Z) : SK_STATE * gmap string string :=
  let '(r1, ls1) :=
    cachedFetchText net ls HORIZON_LOCAL HORIZON_KEY HORIZON_TTL now1 in
  match (let? text := r1 in parseHorizonCsv_value st text) with
  | Ok st' => (st', ls1)
  | Throw =>
      let '(r2, ls2) :=
        cachedFetchText net ls1 HORIZON_REMOTE HORIZON_KEY HORIZON_TTL now2 in
      match (let? text := r2 in parseHorizonCsv_value st text) with
      | Ok st' => (st', ls2)
      | Throw => (st, ls2)
      end
  end.

(** What a fetcher does to the state: it replaces its own component or
    leaves the state alone. *)
Definition with_catalog (st : SK_STATE) (o : option (list satrec)) : SK_STATE :=
  match o with
  | Some recs => {| satRecords := recs; planes := planes st; horizon := horizon st |}
  | None => st
  end.

Definition with_horizon (st : SK_STATE) (o : option Horizon) : SK_STATE :=
  match o with
  | Some h => {| satRecords := satRecords st; planes := planes st; horizon := h |}
  | None => st
  end.


(** *** Names and groups as the specification words them *)

(** [sub] occurs in [s] as a contiguous fragment. *)
Definition occurs_in (sub s : string) : Prop :=
  exists a b : string, s = (a ++ sub ++ b)%string.

(** The name of a catalog entry is trimmed and its group is the group
    of its name. *)
Definition grouped_by_name (r : satrec) : Prop :=
  rec_group r = getGroup (rec_name r) /\ trim (rec_name r) = rec_name r.

(** *** The tracked aircraft as the specification words them *)

(** An entry stored under the key of its own [hex], with truthy
    coordinates. *)
Definition well_keyed (k : string) (e : plane) : Prop :=
  ToPropertyKey (p_hex e) = k /\
  truthy (p_lat e) = true /\ truthy (p_lon e) = true.

(** The refresh on [data] reaches its cleanup: [data.ac] can be read and
    is falsy, or is an array whose records are all processed without an
    exception. *)
Definition completes (now : Z) (data : jsval) (pl : gmap string plane) : bool :=
  match getProp data "ac" with
  | Throw => false
  | Ok ac =>
      if truthy ac then
        match ac with
        | Arr recs =>
            match snd (forEach (upsert now) recs (pl, [])) with
            | Normal => true
            | Abrupt => false
            end
        | _ => false
        end
      else true
  end.

(** *** The page and the plots *)

(** [Math.round] (to the nearest integer, halves upwards) and
    [Math.max]. *)
Definition Math_round (a : num) : num :=
  match a with
  | Fin q => Fin (Qc_of (Qfloor (q + Q2Qc 0.5)%Qc))
  | _ => a
  end.

Definition Math_max (a b : num) : num :=
  match a, b with
  | NaN, _ | _, NaN => NaN
  | _, _ => if (a <? b)%num then b else a
  end.

(** ToString of a value in a template literal or as the text of an
    element. *)
Definition ToString (v : jsval) : string := ToPropertyKey v.

(** [dist.toFixed(1)] *)
Variable toFixed1 : num -> string.

(** The three clock texts of lines 303 to 315, which come from the
    [Date] of the browser. *)
Variable clockTexts : Z -> string * string * string.

(** What the program sees of the page: the text of the elements that
    exist, by id; the [data] of the two plots, which [Plotly.newPlot] and
    [Plotly.react] set to the traces they are given; and the flag
    [SK_STATE.plotInitialized].  A trace is the object literal of the
    source.  The layouts, which [updatePlotTraces] hands back to
    [Plotly.react] as they are, are left out. *)
Record Page : Type := mkPage {
  dom : gmap string string;
  polar_data : list jsval;
  rect_data : list jsval;
  plotInitialized : bool
}.

(** [showBanner]: the banner is created when it is not there, and its
    text set; [document.body] is taken to exist. *)
Definition showBanner (msg : string) (d : gmap string string)
    : gmap string string :=
  <["skyrfi-banner" := msg]> d.

Definition CHECKED_IDS : list string :=
  ["polar"; "rect"; "clock-utc"; "clock-obs"; "clock-user"; "count-sat";
   "count-plane"].

(** The list [missing] of [runtimeCheck]; [has_Plotly] and
    [has_satellite] tell whether the two globals are defined. *)
Definition missing_items (has_Plotly has_satellite : bool)
    (d : gmap string string) : list string :=
  let missing0 := if has_Plotly then [] else ["Plotly"] in
  let missing1 := if has_satellite then missing0 else missing0 ++ ["satellite.js"] in
  foldl (fun missing id =>
           match d !! id with
           | Some _ => missing
           | None => missing ++ [("missing DOM #" ++ id)%string]
           end)
        missing1 CHECKED_IDS.

Definition runtimeCheck (has_Plotly has_satellite : bool) (pg : Page)
    : bool * Page :=
  let missing := missing_items has_Plotly has_satellite (dom pg) in
  if (0 <? length missing)%nat then
    (false,
     {| dom := showBanner ("Startup check failed: " ++ String.concat ", " missing)%string
                          (dom pg);
        polar_data := polar_data pg; rect_data := rect_data pg;
        plotInitialized := plotInitialized pg |})
  else (true, pg).

Definition nums (l : list num) : jsval := Arr (map Num l).
Definition strs (l : list string) : jsval := Arr (map Str l).

Definition BEAM_WIDTH_DEG : Z := 100.
Definition beamStart : num :=
  (num_of_Z 90 - num_of_Z BEAM_WIDTH_DEG / num_of_Z 2)%num.

Definition pBeam : jsval :=
  Obj [("type", Str "scatterpolar"); ("mode", Str "lines");
       ("r", nums (repeat beamStart 100));
       ("theta", nums (map (fun i => (num_of_Z (Z.of_nat i) * Fin (Q2Qc 3.6))%num)
                           (seq 0 100)));
       ("fill", Str "toself"); ("fillcolor", Str "rgba(0,255,0,0.1)");
       ("line", Obj [("width", Num (num_of_Z 0))]);
       ("name", Str "Beam"); ("hoverinfo", Str "skip")].

Definition rBeam : jsval :=
  Obj [("type", Str "scatter"); ("mode", Str "lines");
       ("x", nums [num_of_Z 0; num_of_Z 360; num_of_Z 360; num_of_Z 0]);
       ("y", nums [beamStart; beamStart; num_of_Z 90; num_of_Z 90]);
       ("fill", Str "toself"); ("fillcolor", Str "rgba(0,255,0,0.1)");
       ("line", Obj [("width", Num (num_of_Z 0))]);
       ("name", Str "Beam"); ("hoverinfo", Str "skip")].

Definition pTerrain (h : Horizon) : jsval :=
  let pAz := hz_az h ++ rev (hz_az h) in
  let pEl := hz_alt h ++ repeat (num_of_Z 0) (length (hz_az h)) in
  Obj [("type", Str "scatterpolar"); ("mode", Str "lines");
       ("r", nums pEl); ("theta", nums pAz);
       ("fill", Str "toself"); ("fillcolor", Str "rgba(128,128,128,0.3)");
       ("line", Obj [("color", Str "#888"); ("width", Num (num_of_Z 1))]);
       ("name", Str "Terrain"); ("hoverinfo", Str "skip")].

Definition rTerrain (h : Horizon) : jsval :=
  Obj [("type", Str "scatter"); ("mode", Str "lines");
       ("x", nums (hz_az h)); ("y", nums (hz_alt h));
       ("fill", Str "tozeroy"); ("fillcolor", Str "rgba(128,128,128,0.3)");
       ("line", Obj [("color", Str "#888"); ("width", Num (num_of_Z 1))]);
       ("name", Str "Terrain"); ("hoverinfo", Str "skip")].

(** [initPlots], which [init] calls once [runtimeCheck] has found the
    two plot elements. *)
Definition initPlots (st : SK_STATE) (pg : Page) : Page :=
  let h := horizon st in
  let data := if (0 <? length (hz_az h))%nat then [pBeam; pTerrain h] else [pBeam] in
  let dataR := if (0 <? length (hz_az h))%nat then [rBeam; rTerrain h] else [rBeam] in
  {| dom := dom pg; polar_data := data; rect_data := dataR;
     plotInitialized := true |}.

Definition PRIORITY_GROUPS : list string := ["Aircraft"; "STARLINK"; "MUOS"].

Definition COLORS : list (string * jsval) :=
  [("Aircraft", Str "#ff0000"); ("STARLINK", Str "#00ffff");
   ("MUOS", Str "#ff00ff"); ("GPS", Str "#ffff00");
   ("ONEWEB", Str "#00ff00"); ("OTHER", Str "#888888")].

(** An entry of [groups]: the object [{az: [], el: [], txt: []}]. *)
Record points : Type := mkPoints {
  g_az : list num;
  g_el : list num;
  g_txt : list string
}.

Definition no_points : points := {| g_az := []; g_el := []; g_txt := [] |}.

(** [groups[g]] on the object [groups], kept as the list of its
    properties in the order of their creation.  The groups the program
    hands over are the five names of [getGroup] and [Aircraft]; a group
    name that is a property of [Object.prototype] ([constructor],
    [__proto__]) or an array index, which JavaScript would treat
    otherwise, is not modelled. *)
Fixpoint group_of (g : string) (groups : list (string * points))
    : option points :=
  match groups with
  | [] => None
  | (k, d) :: rest => if String.eqb g k then Some d else group_of g rest
  end.

(** The three [push] on [groups[g]]. *)
Fixpoint push_point (g : string) (az el : num) (txt : string)
    (groups : list (string * points)) : list (string * points) :=
  match groups with
  | [] => []
  | (k, d) :: rest =>
      if String.eqb g k
      then (k, {| g_az := g_az d ++ [az]; g_el := g_el d ++ [el];
                  g_txt := g_txt d ++ [txt] |}) :: rest
      else (k, d) :: push_point g az el txt rest
  end.

Definition makeLabel (name : jsval) (dist : num) : string :=
  (ToString name ++ " (" ++ toFixed1 dist ++ " km)")%string.

(** The callback of [[...ac, ...sats].forEach]. *)
Definition collect (obj : VisibleObject) (groups : list (string * points))
    : list (string * points) :=
  let g := if is_empty (vo_group obj) then "Aircraft" else vo_group obj in
  let groups1 :=
    match group_of g groups with
    | Some _ => groups
    | None => groups ++ [(g, no_points)]
    end in
  push_point g (vo_az obj) (vo_el obj) (makeLabel (vo_name obj) (vo_dist obj))
             groups1.

(** The comparison of [sort()] without an argument, on strings: by code
    unit, which on the ASCII names of the groups is the order of the
    character codes that [String.ltb] follows. *)
Definition default_compare (a b : string) : num :=
  if String.ltb a b then num_of_Z (-1)
  else if String.ltb b a then num_of_Z 1
  else num_of_Z 0.

Definition allKeys (groups : list (string * points)) : list string :=
  PRIORITY_GROUPS
  ++ js_sort default_compare
       (List.filter (fun k => negb (existsb (String.eqb k) PRIORITY_GROUPS))
                    (map fst groups)).

Definition marker (color : jsval) (symbol : string) (size opacity : num)
    : jsval :=
  Obj [("color", color); ("symbol", Str symbol); ("size", Num size);
       ("opacity", Num opacity)].

(** The callback of [allKeys.forEach] on the pair ([pTraces],
    [rTraces]). *)
Definition group_traces (groups : list (string * points)) (g : string)
    (tr : list jsval * list jsval) : list jsval * list jsval :=
  let '(pTraces, rTraces) := tr in
  match group_of g groups with
  | None => tr
  | Some d =>
      if (length (g_az d) =? 0)%nat then tr
      else
        let color := js_or (field COLORS g) (field COLORS "OTHER") in
        let baseSize :=
          if String.eqb g "Aircraft" then num_of_Z 18
          else if String.eqb g "MUOS" then num_of_Z 10 else num_of_Z 6 in
        let size :=
          if String.eqb g "Aircraft" then baseSize
          else Math_max (num_of_Z 2) (Math_round (baseSize * Fin (Q2Qc 0.75))) in
        if String.eqb g "Aircraft" then
          let planeChars := map (fun _ => "✈") (g_az d) in
          let textfont := Obj [("size", Num size); ("color", color)] in
          let legendMarkerSize :=
            Math_max (num_of_Z 8) (Math_round (size / num_of_Z 2)) in
          (pTraces
           ++ [Obj [("type", Str "scatterpolar"); ("mode", Str "text");
                    ("name", Str g); ("showlegend", Bool false);
                    ("r", nums (g_el d)); ("theta", nums (g_az d));
                    ("text", strs planeChars); ("textfont", textfont);
                    ("hovertext", strs (g_txt d)); ("hoverinfo", Str "text")];
               Obj [("type", Str "scatterpolar"); ("mode", Str "markers");
                    ("name", Str g); ("showlegend", Bool true);
                    ("visible", Str "legendonly");
                    ("r", nums [num_of_Z 90]); ("theta", nums [num_of_Z 0]);
                    ("marker", marker color "circle" legendMarkerSize
                                      (Fin (Q2Qc 0.9)));
                    ("hoverinfo", Str "skip")]],
           rTraces
           ++ [Obj [("type", Str "scatter"); ("mode", Str "text");
                    ("name", Str g); ("showlegend", Bool false);
                    ("x", nums (g_az d)); ("y", nums (g_el d));
                    ("text", strs planeChars); ("textfont", textfont);
                    ("hovertext", strs (g_txt d)); ("hoverinfo", Str "text")];
               Obj [("type", Str "scatter"); ("mode", Str "markers");
                    ("name", Str g); ("showlegend", Bool true);
                    ("visible", Str "legendonly");
                    ("x", nums [num_of_Z 0]); ("y", nums [num_of_Z 0]);
                    ("marker", marker color "circle" legendMarkerSize
                                      (Fin (Q2Qc 0.9)));
                    ("hoverinfo", Str "skip")]])
        else
          let markerSymbol := if String.eqb g "STARLINK" then "star" else "circle" in
          let markerOpacity := Fin (Q2Qc 0.75) in
          let def := [("mode", Str "markers"); ("name", Str g);
                      ("text", strs (g_txt d));
                      ("marker", marker color markerSymbol size markerOpacity)] in
          (pTraces
           ++ [Obj (def ++ [("type", Str "scatterpolar");
                            ("r", nums (g_el d)); ("theta", nums (g_az d))])],
           rTraces
           ++ [Obj (def ++ [("type", Str "scatter");
                            ("x", nums (g_az d)); ("y", nums (g_el d))])])
  end.

(** The object [groups] of [updatePlotTraces] after the first loop. *)
Definition groups_of (sats ac : list VisibleObject) : list (string * points) :=
  foldl (fun groups obj => collect obj groups)
        (map (fun k => (k, no_points)) PRIORITY_GROUPS)
        (ac ++ sats).

(** The arrays [pTraces] and [rTraces] after the second loop. *)
Definition plot_traces (sats ac : list VisibleObject) : list jsval * list jsval :=
  foldl (fun tr g => group_traces (groups_of sats ac) g tr) ([], [])
        (allKeys (groups_of sats ac)).

Definition staticCnt (st : SK_STATE) : nat :=
  if (0 <? length (hz_az (horizon st)))%nat then 2 else 1.

(** [updatePlotTraces(sats, ac)].  The elements [polar] and [rect] are
    taken to exist, as they do whenever [plotInitialized] is set:
    [runtimeCheck] has found them before [init] goes on to [initPlots],
    and the program removes no element. *)
Definition updatePlotTraces (st : SK_STATE) (pg : Page)
    (sats ac : list VisibleObject) : Page :=
  if negb (plotInitialized pg) then pg
  else
    let '(pTraces, rTraces) := plot_traces sats ac in
    {| dom := dom pg;
       polar_data := firstn (staticCnt st) (polar_data pg) ++ pTraces;
       rect_data := firstn (staticCnt st) (rect_data pg) ++ rTraces;
       plotInitialized := plotInitialized pg |}.

(** [document.getElementById(id).innerText = text]: a TypeError when
    there is no such element.  Once an exception is under way nothing
    more is written. *)
Definition setText (id text : string) (s : Page * completion)
    : Page * completion :=
  match s with
  | (pg, Normal) =>
      match dom pg !! id with
      | Some _ =>
          ({| dom := <[id := text]> (dom pg); polar_data := polar_data pg;
              rect_data := rect_data pg;
              plotInitialized := plotInitialized pg |}, Normal)
      | None => (pg, Abrupt)
      end
  | (_, Abrupt) => s
  end.

(** The whole of [updateMathLoop], one tick of the display: the clocks,
    the two loops (the function [updateMathLoop] above), the four
    counts and the plots.  An exception leaves the page as the
    statements before it have made it; what the [error] listener of the
    window does with it afterwards ([showBanner], lines 30-32) is not
    part of this function. *)
Definition updateMathLoop_tick (st : SK_STATE) (pg : Page) (now : Z)
    : option (Page * completion) :=
  let '(utcStr, obsText, userText) := clockTexts now in
  let s1 := setText "clock-user" userText
              (setText "clock-obs" obsText
                 (setText "clock-utc" utcStr (pg, Normal))) in
  match s1 with
  | (_, Abrupt) => Some s1
  | (_, Normal) =>
      '(visSats, blockSats, visPlanes, blockPlanes) ← updateMathLoop st now;
      let s2 :=
        setText "blocked-plane"
                ("(" ++ ToString (Num (num_of_Z blockPlanes)) ++ " hidden)")%string
          (setText "count-plane"
                   (ToString (Num (num_of_Z (Z.of_nat (length visPlanes)))))
             (setText "blocked-sat"
                      ("(" ++ ToString (Num (num_of_Z blockSats)) ++ " hidden)")%string
                (setText "count-sat"
                         (ToString (Num (num_of_Z (Z.of_nat (length visSats)))))
                         s1))) in
      match s2 with
      | (_, Abrupt) => Some s2
      | (pg2, Normal) => Some (updatePlotTraces st pg2 visSats visPlanes, Normal)
      end
  end.

(** [init], as far as the state, the cache and the page go: nothing
    after a failed [runtimeCheck]; otherwise the catalog and the terrain
    fetch, which are started together and are taken here one after the
    other, then [initPlots], and the aircraft fetch, which is started
    before [initPlots] and not awaited.  The three timers are the later
    calls of [updateMathLoop_tick], [fetchPlanes] and [fetchTLEs]. *)
Definition init (has_Plotly has_satellite : bool)
    (net : string -> result string) (netJson : string -> result jsval)
    (st : SK_STATE) (ls : gmap string string) (pg : Page)
    (t_tle t_h1 t_h2 t_p0 t_p : Z)
    : SK_STATE * gmap string string * Page :=
  let '(ok, pg1) := runtimeCheck has_Plotly has_satellite pg in
  if negb ok then (st, ls, pg1)
  else
    let '(st1, ls1) := fetchTLEs net st ls t_tle in
    let '(st2, ls2) := fetchHorizon net st1 ls1 t_h1 t_h2 in
    let pg2 := initPlots st2 pg1 in
    let '(st3, ls3) := fetchPlanes netJson st2 ls2 t_p0 t_p in
    (st3, ls3, pg2).

(** *** The plots as the specification words them *)

(** The group an object is drawn in. *)
Definition drawn_group (obj : VisibleObject) : string :=
  if is_empty (vo_group obj) then "Aircraft" else vo_group obj.

(** The objects of a group, in the order they are handed over. *)
Definition members (g : string) (objs : list VisibleObject) : list VisibleObject :=
  List.filter (fun obj => String.eqb (drawn_group obj) g) objs.

Definition numbers (v : jsval) : list num :=
  match v with
  | Arr xs => omap (fun x => match x with Num n => Some n | _ => None end) xs
  | _ => []
  end.

(** The points a trace puts on the plot: none when it is shown in the
    legend only. *)
Definition drawn_points (a b : string) (trace : jsval) : list (num * num) :=
  match trace with
  | Obj fs =>
      match assoc "visible" fs with
      | Some (Str "legendonly") => []
      | _ => combine (numbers (field fs a)) (numbers (field fs b))
      end
  | _ => []
  end.

Definition trace_name (trace : jsval) : jsval :=
  match trace with Obj fs => field fs "name" | _ => Undefined end.

(** The entry of [groups] for a group with the members [objs]. *)
Definition points_of (objs : list VisibleObject) : points :=
  {| g_az := map vo_az objs;
     g_el := map vo_el objs;
     g_txt := map (fun obj => makeLabel (vo_name obj) (vo_dist obj)) objs |}.

(** The traces of a group with the members [objs], for the polar plot
    and for the rectangular one: none when there is no member. *)
Definition traces_of (g : string) (objs : list VisibleObject)
    : list jsval * list jsval :=
  group_traces [(g, points_of objs)] g ([], []).

(** [trace] has the name [g]. *)
Definition named (g : string) (trace : jsval) : bool :=
  match trace_name trace with
  | Str s => String.eqb s g
  | _ => false
  end.

Definition coordinates (obj : VisibleObject) : num * num :=
  (vo_az obj, vo_el obj).

(** What [groups] holds once the objects [seen] have been collected: an
    entry has the points of the members of its group, and a group
    without entry has no member. *)
Definition collected (seen : list VisibleObject)
    (groups : list (string * points)) : Prop :=
  List.NoDup (map fst groups) /\
  forall g, match group_of g groups with
            | Some d => d = points_of (members g seen)
            | None => members g seen = []
            end.


(** The groups [getGroup] gives besides the priority groups. *)
Definition OTHER_GROUPS : list string := ["GPS"; "ONEWEB"; "OTHER"].

(** The seven elements a tick writes, in the order it writes them. *)
Definition TICK_IDS : list string :=
  ["clock-utc"; "clock-obs"; "clock-user"; "count-sat"; "blocked-sat";
   "count-plane"; "blocked-plane"].

(** The texts a tick writes, given the outcome of its two loops. *)
Definition tick_texts (now : Z) (visSats : list VisibleObject) (blockSats : Z)
    (visPlanes : list VisibleObject) (blockPlanes : Z) : list (string * string) :=
  let '(utcStr, obsText, userText) := clockTexts now in
  [("clock-utc", utcStr); ("clock-obs", obsText); ("clock-user", userText);
   ("count-sat", ToString (Num (num_of_Z (Z.of_nat (length visSats)))));
   ("blocked-sat", ("(" ++ ToString (Num (num_of_Z blockSats)) ++ " hidden)")%string);
   ("count-plane", ToString (Num (num_of_Z (Z.of_nat (length visPlanes)))));
   ("blocked-plane",
    ("(" ++ ToString (Num (num_of_Z blockPlanes)) ++ " hidden)")%string)].

(** Writing texts one after the other. *)
Definition write_all (ws : list (string * string)) (s : Page * completion)
    : Page * completion :=
  foldl (fun s w => setText (fst w) (snd w) s) s ws.

(** *** Line endings *)

Definition CR : ascii := "013"%char.

(** The text of [lines] joined by line feeds, and by carriage return
    and line feed. *)
Definition unix_text (lines : list string) : string :=
  String.concat (String LF "") lines.
Definition dos_text (lines : list string) : string :=
  String.concat (String CR (String LF "")) lines.

(** The lines a split on line feeds finds in the second text: each line
    but the last keeps its carriage return. *)
Fixpoint with_CR (lines : list string) : list string :=
  match lines with
  | [] => []
  | [l] => [l]
  | l :: rest => (l ++ String CR "")%string :: with_CR rest
  end.

(** * Properties *)

(** ** Arithmetic of the remainder *)

Lemma Qc_ltb_lt (x y : Qc) : Qc_ltb x y = true <-> (x < y)%Qc.
Proof.
  unfold Qc_ltb. rewrite Qclt_alt. destruct (x ?= y)%Qc; intuition congruence.
Qed.

Lemma Qc_eqb_eq (x y : Qc) : Qc_eqb x y = true <-> x = y.
Proof.
  unfold Qc_eqb. rewrite Qceq_alt. destruct (x ?= y)%Qc; intuition congruence.
Qed.

Lemma Qc_ltb_ge (x y : Qc) : Qc_ltb x y = false <-> (y <= x)%Qc.
Proof.
  split; intros H.
  - destruct (Qclt_le_dec x y) as [L|L]; [|exact L].
    apply Qc_ltb_lt in L. congruence.
  - destruct (Qc_ltb x y) eqn:E; [|reflexivity].
    apply Qc_ltb_lt in E. exfalso. exact (Qcle_not_lt _ _ H E).
Qed.

Lemma Qtrunc_nonneg (q : Q) :
  (0 <= q)%Q -> (inject_Z (Qtrunc q) <= q)%Q /\ (q < inject_Z (Qtrunc q) + 1)%Q.
Proof.
  intros H. unfold Qtrunc. destruct (Qle_bool 0 q) eqn:E.
  - split; [apply Qfloor_le|].
    pose proof (Qlt_floor q) as L. now rewrite inject_Z_plus in L.
  - apply Qle_bool_iff in H. congruence.
Qed.

Lemma Qtrunc_neg (q : Q) :
  (q < 0)%Q -> (inject_Z (Qtrunc q) - 1 < q)%Q /\ (q <= inject_Z (Qtrunc q))%Q.
Proof.
  intros H. unfold Qtrunc. destruct (Qle_bool 0 q) eqn:E.
  - apply Qle_bool_iff in E. exfalso; lra.
  - split; [|apply Qle_ceiling].
    pose proof (Qceiling_lt q) as L. unfold Z.sub in L.
    rewrite inject_Z_plus in L.
    change (inject_Z (- (1))) with (- (1))%Q in L. lra.
Qed.

Ltac qc2q :=
  unfold Qcle, Qclt, Qcminus, Qcdiv; unfold Qcplus, Qcmult, Qcopp, Qcinv;
  unfold Qc_of, Q2Qc;
  cbn [this]; rewrite ?Qred_correct.

Lemma Qc_inj (x y : Qc) : (this x == this y)%Q -> x = y.
Proof. apply Qc_is_canon. Qed.

(** The quotient by 360 as a rational, with the equation lra can use. *)
Lemma quot360 (x : Qc) :
  (this (x / Qc_of 360)%Qc * 360 == this x)%Q.
Proof. qc2q. change (inject_Z 360) with 360%Q. field. Qed.

(** [x % 360] differs from [x] by a multiple of 360, has the sign of [x]
    and is smaller than 360 in magnitude. *)
Lemma Qc_rem_360 (x : Qc) :
  let r := Qc_rem x (Qc_of 360) in
  (exists k : Z, (this r == this x - 360 * inject_Z k)%Q) /\
  ((0 <= this x)%Q -> (0 <= this r)%Q /\ (this r < 360)%Q) /\
  ((this x <= 0)%Q -> (- (360) < this r)%Q /\ (this r <= 0)%Q).
Proof.
  intros r. pose proof (quot360 x) as Hq.
  set (q := this (x / Qc_of 360)%Qc) in *.
  assert (Hr : (this r == this x - 360 * inject_Z (Qtrunc q))%Q).
  { subst r. unfold Qc_rem. fold q. qc2q.
    change (inject_Z 360) with 360%Q. reflexivity. }
  split; [eexists; exact Hr|]. split; intros Hx.
  - destruct (Qtrunc_nonneg q) as [A B]; [lra|]. split; lra.
  - destruct (Qlt_le_dec q 0) as [L|L].
    + destruct (Qtrunc_neg q L) as [A B]. split; lra.
    + assert (Z0 : Qtrunc q = 0).
      { unfold Qtrunc. destruct (Qle_bool 0 q) eqn:E.
        - rewrite (Qfloor_comp q 0) by lra. reflexivity.
        - apply Qle_bool_iff in L. congruence. }
      rewrite Z0 in Hr. change (inject_Z 0) with 0%Q in Hr. split; lra.
Qed.

Lemma normalize360_range (q : Qc) :
  (0 <= this (normalize360 q))%Q /\ (this (normalize360 q) < 360)%Q.
Proof.
  pose proof (quot360 q) as Hq. unfold normalize360.
  set (d := this (q / Qc_of 360)%Qc) in *.
  pose proof (Qfloor_le d) as A. pose proof (Qlt_floor d) as B.
  rewrite inject_Z_plus in B. change (inject_Z 1) with 1%Q in B.
  qc2q. fold d. change (inject_Z 360) with 360%Q. split; lra.
Qed.

Lemma inject_Z_small (j : Z) :
  (- (1) < inject_Z j)%Q -> (inject_Z j < 1)%Q -> j = 0.
Proof.
  intros A B.
  change (- (1))%Q with (inject_Z (-1)) in A. change 1%Q with (inject_Z 1) in B.
  rewrite <- Zlt_Qlt in A, B. lia.
Qed.

(** [(x % 360 + 360) % 360] is [x mod 360]. *)
Lemma double_rem_normalize (x : Qc) :
  Qc_rem (Qc_rem x (Qc_of 360) + Qc_of 360)%Qc (Qc_of 360) = normalize360 x.
Proof.
  destruct (Qc_rem_360 x) as ([k1 E1] & P1 & N1).
  set (r1 := Qc_rem x (Qc_of 360)) in *.
  destruct (Qc_rem_360 (r1 + Qc_of 360)%Qc) as ([k2 E2] & P2 & _).
  set (r2 := Qc_rem (r1 + Qc_of 360)%Qc (Qc_of 360)) in *.
  assert (Hy : (this (r1 + Qc_of 360)%Qc == this r1 + 360)%Q).
  { qc2q. reflexivity. }
  assert (R1 : (- (360) < this r1)%Q).
  { destruct (Qlt_le_dec (this x) 0) as [L|L].
    - apply N1. lra.
    - destruct (P1 L). lra. }
  destruct P2 as [A2 B2]; [lra|].
  destruct (normalize360_range x) as [A3 B3].
  set (f := Qfloor (this (x / Qc_of 360)%Qc)).
  assert (E3 : (this (normalize360 x) == this x - 360 * inject_Z f)%Q).
  { unfold normalize360. fold f. qc2q. reflexivity. }
  apply Qc_inj.
  assert (I : (inject_Z (f - k1 - k2 + 1)
               == inject_Z f - inject_Z k1 - inject_Z k2 + 1)%Q).
  { unfold Z.sub. rewrite !inject_Z_plus, !inject_Z_opp.
    change (inject_Z 1) with 1%Q. ring. }
  assert (J : f - k1 - k2 + 1 = 0) by (apply inject_Z_small; lra).
  rewrite J in I. change (inject_Z 0) with 0%Q in I.
  lra.
Qed.

(** On an operand above -360, [(y + 360) % 360] is [y mod 360]: the
    remainder of a circular difference is the circular distance. *)
Lemma Qc_rem_shift (y : Qc) :
  (- (360) < this y)%Q ->
  Qc_rem (y + Qc_of 360)%Qc (Qc_of 360) = normalize360 y.
Proof.
  intros Hy.
  destruct (Qc_rem_360 (y + Qc_of 360)%Qc) as ([k E] & P & _).
  set (r := Qc_rem (y + Qc_of 360)%Qc (Qc_of 360)) in *.
  assert (Hs : (this (y + Qc_of 360)%Qc == this y + 360)%Q).
  { qc2q. reflexivity. }
  destruct P as [A B]; [lra|].
  destruct (normalize360_range y) as [A3 B3].
  set (f := Qfloor (this (y / Qc_of 360)%Qc)).
  assert (E3 : (this (normalize360 y) == this y - 360 * inject_Z f)%Q).
  { unfold normalize360. fold f. qc2q. reflexivity. }
  apply Qc_inj.
  assert (I : (inject_Z (f - k + 1) == inject_Z f - inject_Z k + 1)%Q).
  { unfold Z.sub. rewrite !inject_Z_plus, !inject_Z_opp.
    change (inject_Z 1) with 1%Q. ring. }
  assert (J : f - k + 1 = 0) by (apply inject_Z_small; lra).
  rewrite J in I. change (inject_Z 0) with 0%Q in I.
  lra.
Qed.

(** ** The binary search *)

Lemma idx_Fin (l : list Qc) (i : Z) :
  0 <= i < Z.of_nat (length l) ->
  idx (map Fin l) i = Fin (nth (Z.to_nat i) l 0%Qc).
Proof.
  intros [H0 H1]. unfold idx.
  destruct (i <? 0) eqn:E; [lia|].
  rewrite (nth_indep _ NaN (Fin 0%Qc)) by (rewrite length_map; lia).
  apply (map_nth Fin).
Qed.

Lemma ushr1_half (z : Z) : 0 <= z < 2 ^ 32 -> ushr1 z = z / 2.
Proof.
  intros H. unfold ushr1, ToUint32.
  rewrite Z.mod_small by lia. now rewrite Z.shiftr_div_pow2 by lia.
Qed.

Lemma sorted_nth (l : list Qc) :
  Sorted Qcle l ->
  forall i j, (i <= j < length l)%nat -> (nth i l 0 <= nth j l 0)%Qc.
Proof.
  intros HS. apply Sorted_StronglySorted in HS; [|exact Qcle_trans].
  induction HS as [|y l HS IH Hy]; intros i j Hij; simpl in *; [lia|].
  destruct i, j; try lia.
  - apply Qcle_refl.
  - rewrite List.Forall_forall in Hy. apply Hy, nth_In. lia.
  - apply IH. lia.
Qed.

Section BinarySearch.
Variable azs : list Qc.
Variable q : Qc.
Hypothesis Hsorted : Sorted Qcle azs.
Hypothesis Hlen : Z.of_nat (length azs) <= 2 ^ 31.

Let n := Z.of_nat (length azs).
Let at_ (i : Z) : Qc := nth (Z.to_nat i) azs 0%Qc.

(** What holds of the bounds at each test of [l <= r]. *)
Definition bounds_ok (l r : Z) : Prop :=
  0 <= l /\ r < n /\ l <= r + 1 /\
  (forall i, 0 <= i < l -> (at_ i < q)%Qc) /\
  (forall i, r < i < n -> (q <= at_ i)%Qc).

Lemma bsearch_exit (fuel : nat) :
  forall l r, bounds_ok l r -> r - l + 1 <= Z.of_nat fuel ->
  exists k, bsearch fuel (map Fin azs) (Fin q) l r = Some (k, k - 1)
            /\ bounds_ok k (k - 1).
Proof.
  induction fuel as [|fuel IH]; intros l r (H0 & Hr & Hlr & Hlo & Hhi) Hf;
    cbn [bsearch]; destruct (l <=? r) eqn:E;
    try (apply Z.leb_le in E); try (apply Z.leb_gt in E); try lia.
  - exists l. replace r with (l - 1) by lia. split; [reflexivity|].
    repeat split; try lia; auto.
    intros i Hi. apply Hhi. lia.
  - rewrite ushr1_half by (unfold n in *; lia).
    set (m := (l + r) / 2).
    assert (Hm : l <= m <= r).
    { subst m. split; [apply Z.div_le_lower_bound|apply Z.div_le_upper_bound]; lia. }
    rewrite idx_Fin by (fold n; lia). fold (at_ m). cbn [num_lt].
    destruct (Qc_ltb (at_ m) q) eqn:C.
    + apply Qc_ltb_lt in C. apply IH; [|lia].
      repeat split; try lia; auto.
      intros i Hi. apply Qcle_lt_trans with (at_ m); [|exact C].
      apply sorted_nth; [exact Hsorted|]. unfold n in *. lia.
    + apply Qc_ltb_ge in C. apply IH; [|lia].
      repeat split; try lia; auto.
      intros i Hi. apply Qcle_trans with (at_ m); [exact C|].
      apply sorted_nth; [exact Hsorted|]. unfold n in *. lia.
  - exists l. replace r with (l - 1) by lia. split; [reflexivity|].
    repeat split; try lia; auto.
    intros i Hi. apply Hhi. lia.
Qed.
End BinarySearch.

(** A split point of a list is its insertion point. *)
Lemma split_point_insertion (q : Qc) (l : list Qc) :
  forall k : nat,
  (k <= length l)%nat ->
  (forall i, (i < k)%nat -> (nth i l 0 < q)%Qc) ->
  (forall i, (k <= i < length l)%nat -> (q <= nth i l 0)%Qc) ->
  insertion_point l q = k.
Proof.
  unfold insertion_point.
  induction l as [|y l IH]; intros k Hk Hlo Hhi; simpl in *; [lia|].
  destruct k as [|k].
  - assert (C : Qc_ltb y q = false) by (apply Qc_ltb_ge, (Hhi 0%nat); lia).
    rewrite C. apply (IH 0%nat); [lia|intros; lia|].
    intros i Hi. apply (Hhi (S i)). lia.
  - assert (C : Qc_ltb y q = true) by (apply Qc_ltb_lt, (Hlo 0%nat); lia).
    rewrite C. simpl. f_equal. apply IH; [lia| |].
    + intros i Hi. apply (Hlo (S i)). lia.
    + intros i Hi. apply (Hhi (S i)). lia.
Qed.

(** On a sorted array of at most 2^31 entries the loop ends, at the
    insertion point. *)
Lemma bsearch_insertion_point (azs : list Qc) (q : Qc) :
  Sorted Qcle azs -> Z.of_nat (length azs) <= 2 ^ 31 ->
  let k := Z.of_nat (insertion_point azs q) in
  bsearch (length azs) (map Fin azs) (Fin q) 0 (Z.of_nat (length azs) - 1)
  = Some (k, k - 1).
Proof.
  intros HS HL k.
  destruct (bsearch_exit azs q HS HL (length azs) 0 (Z.of_nat (length azs) - 1))
    as (k' & E & H0 & Hr & _ & Hlo & Hhi).
  { repeat split; try lia; intros; lia. }
  { lia. }
  rewrite E. replace k with k'; [reflexivity|]. subst k.
  rewrite (split_point_insertion q azs (Z.to_nat k')); try lia.
  - intros i Hi. specialize (Hlo (Z.of_nat i)). rewrite Nat2Z.id in Hlo.
    apply Hlo. lia.
  - intros i Hi. specialize (Hhi (Z.of_nat i)). rewrite Nat2Z.id in Hhi.
    apply Hhi. lia.
Qed.

(** ** The occlusion query *)

Lemma insertion_point_le (azs : list Qc) (a : Qc) :
  (insertion_point azs a <= length azs)%nat.
Proof.
  unfold insertion_point. induction azs as [|y l IH]; simpl; [lia|].
  destruct (Qc_ltb y a); simpl; lia.
Qed.

Ltac num_simp :=
  repeat (progress
    (cbn [num_rem num_add num_sub num_neg num_div num_mul num_eqb num_lt num_gt];
     change (Qc_eqb (Qc_of 360) 0) with false; cbn iota)).

Lemma normAz_Fin (q : Qc) : normAz (Fin q) = Fin (normalize360 q).
Proof.
  unfold normAz, num_of_Z. num_simp.
  now rewrite double_rem_normalize.
Qed.

Lemma normalize360_bounds (q : Qc) :
  (0 <= normalize360 q)%Qc /\ (normalize360 q < Qc_of 360)%Qc.
Proof. exact (normalize360_range q). Qed.

Lemma profile_az (samples : list (Qc * Qc)) :
  hz_az (profile samples) = map Fin (map fst samples).
Proof. unfold profile. cbn [hz_az]. now rewrite map_map. Qed.

Lemma profile_alt (samples : list (Qc * Qc)) :
  hz_alt (profile samples) = map Fin (map snd samples).
Proof. unfold profile. cbn [hz_alt]. now rewrite map_map. Qed.

Lemma nth_fst (samples : list (Qc * Qc)) (i : nat) :
  nth i (map fst samples) 0%Qc = fst (nth i samples (0, 0)%Qc).
Proof. apply (map_nth fst samples (0, 0)%Qc). Qed.

Lemma nth_snd (samples : list (Qc * Qc)) (i : nat) :
  nth i (map snd samples) 0%Qc = snd (nth i samples (0, 0)%Qc).
Proof. apply (map_nth snd samples (0, 0)%Qc). Qed.

(** The code computes the interpolation of the specification. *)
Lemma getHorizonLimit_refines (samples : list (Qc * Qc)) (q : Qc) :
  samples <> [] ->
  Z.of_nat (length samples) <= 2 ^ 31 ->
  Sorted Qcle (map fst samples) ->
  getHorizonLimit (profile samples) (Fin q)
  = Some (Fin (occlusionElevation samples q)).
Proof.
  intros Hne Hlen Hsorted.
  assert (Hn : (0 < length samples)%nat) by (destruct samples; simpl; [congruence|lia]).
  unfold getHorizonLimit. rewrite profile_az, profile_alt, normAz_Fin.
  rewrite !length_map.
  destruct (Z.of_nat (length samples) =? 0) eqn:E0; [apply Z.eqb_eq in E0; lia|].
  pose proof (bsearch_insertion_point (map fst samples) (normalize360 q) Hsorted) as B.
  rewrite length_map in B. cbv zeta in B. rewrite (B Hlen). clear B.
  pose proof (insertion_point_le (map fst samples) (normalize360 q)) as Hk.
  rewrite length_map in Hk.
  unfold occlusionElevation, lower_sample, upper_sample.
  set (k := insertion_point (map fst samples) (normalize360 q)) in *.
  set (n := length samples) in *.
  set (i1 := (if (k =? 0)%nat then n - 1 else k - 1)%nat).
  set (i2 := (if (k =? n)%nat then 0 else k)%nat).
  assert (E1 : (if Z.of_nat k - 1 <? 0 then Z.of_nat n - 1 else Z.of_nat k - 1)
               = Z.of_nat i1).
  { subst i1. destruct (Nat.eqb_spec k 0) as [->|Hk0].
    - simpl. lia.
    - destruct (Z.of_nat k - 1 <? 0) eqn:C; [apply Z.ltb_lt in C|]; lia. }
  assert (E2 : (if Z.of_nat k >=? Z.of_nat n then 0 else Z.of_nat k) = Z.of_nat i2).
  { subst i2. destruct (Nat.eqb_spec k n) as [->|Hkn].
    - rewrite Z.geb_leb, Z.leb_refl. reflexivity.
    - rewrite Z.geb_leb. destruct (Z.of_nat n <=? Z.of_nat k) eqn:C;
        [apply Z.leb_le in C; lia|reflexivity]. }
  rewrite E1, E2.
  assert (I1 : (i1 < n)%nat) by (subst i1; destruct (k =? 0)%nat; lia).
  assert (I2 : (i2 < n)%nat).
  { subst i2. destruct (Nat.eqb_spec k n); lia. }
  rewrite !idx_Fin by (rewrite length_map; fold n; lia).
  rewrite !Nat2Z.id, !nth_fst, !nth_snd.
  destruct (nth i1 samples (0, 0)%Qc) as [az1 alt1].
  destruct (nth i2 samples (0, 0)%Qc) as [az2 alt2]. cbn [fst snd].
  unfold num_of_Z, num_sub. num_simp.
  change (Qc_of 0) with 0%Qc. unfold Qcminus.
  destruct (Qc_eqb (Qc_rem (az2 + - az1 + Qc_of 360) (Qc_of 360)) 0) eqn:R;
    [reflexivity|].
  num_simp. reflexivity.
Qed.

Lemma bracket_in (samples : list (Qc * Qc)) (q : Qc) :
  samples <> [] ->
  In (lower_sample samples q) samples /\ In (upper_sample samples q) samples.
Proof.
  intros Hne.
  assert (Hn : (0 < length samples)%nat) by (destruct samples; simpl; [congruence|lia]).
  pose proof (insertion_point_le (map fst samples) (normalize360 q)) as Hk.
  rewrite length_map in Hk. unfold lower_sample, upper_sample.
  set (k := insertion_point (map fst samples) (normalize360 q)) in *.
  split; apply nth_In.
  - destruct (k =? 0)%nat; lia.
  - destruct (Nat.eqb_spec k (length samples)); lia.
Qed.

(** With azimuths in [[0, 360)], the run of the interpolation and the
    offset of the query are circular distances. *)
Lemma circular_run (samples : list (Qc * Qc)) (q : Qc) :
  samples <> [] ->
  Forall (fun s => (0 <= fst s)%Qc /\ (fst s < Qc_of 360)%Qc) samples ->
  let az1 := fst (lower_sample samples q) in
  let az2 := fst (upper_sample samples q) in
  Qc_rem (az2 - az1 + Qc_of 360)%Qc (Qc_of 360) = normalize360 (az2 - az1) /\
  Qc_rem (normalize360 q - az1 + Qc_of 360)%Qc (Qc_of 360)
  = normalize360 (normalize360 q - az1).
Proof.
  intros Hne HR az1 az2.
  destruct (bracket_in samples q Hne) as [H1 H2].
  rewrite List.Forall_forall in HR.
  destruct (HR _ H1) as [L1 U1]. destruct (HR _ H2) as [L2 U2].
  destruct (normalize360_bounds q) as [Lq Uq].
  fold az1 in L1, U1. fold az2 in L2, U2.
  split; apply Qc_rem_shift.
  - revert L1 U1 L2 U2. qc2q. change (inject_Z 360) with 360%Q. intros. lra.
  - revert L1 U1 Lq Uq. qc2q. change (inject_Z 360) with 360%Q. intros. lra.
Qed.

Lemma Qc_rem_360_360 (a : Qc) :
  Qc_rem (a - a + Qc_of 360) (Qc_of 360) = 0%Qc.
Proof.
  replace (a - a + Qc_of 360)%Qc with (Qc_of 360) by ring.
  apply Qc_inj. vm_compute. reflexivity.
Qed.

Lemma sorted_flat_profile : Sorted Qcle (map fst flat_profile).
Proof.
  repeat constructor; unfold Qcle, Qle; simpl; lia.
Qed.

(** ** The horizon loader *)

Lemma csv_rows_spec (lines : list string) :
  forall az alt,
  csv_rows lines az alt
  = (az ++ map fst (flat_map
       (fun line =>
          let p := str_split "," line in
          if (3 <=? length p)%nat
          then [(parseFloat (nth 1 p ""), parseFloat (nth 2 p ""))]
          else []) lines),
     alt ++ map snd (flat_map
       (fun line =>
          let p := str_split "," line in
          if (3 <=? length p)%nat
          then [(parseFloat (nth 1 p ""), parseFloat (nth 2 p ""))]
          else []) lines)).
Proof.
  induction lines as [|line rest IH]; intros az alt; cbn [csv_rows flat_map].
  - now rewrite !app_nil_r.
  - cbv zeta. destruct (3 <=? length (str_split "," line))%nat.
    + rewrite IH. cbn [app map fst snd]. now rewrite <- !app_assoc.
    + rewrite IH. reflexivity.
Qed.

(** Pairing an array with the entries of a second one of the same
    length, index by index. *)
Lemma imap_pair (K : list (num * num)) :
  forall pre : list num,
  imap (fun i a => (a, idx (pre ++ map snd K) (Z.of_nat (length pre + i))))
       (map fst K) = K.
Proof.
  induction K as [|[a e] K IH]; intros pre; [reflexivity|].
  cbn [map fst snd]. rewrite imap_cons. f_equal.
  - f_equal. unfold idx. rewrite Nat.add_0_r.
    destruct (Z.of_nat (length pre) <? 0) eqn:E; [apply Z.ltb_lt in E; lia|].
    rewrite Nat2Z.id. now rewrite nth_middle.
  - etransitivity; [|apply (IH (pre ++ [e]))].
    apply imap_ext. intros i x _. cbn.
    rewrite <- app_assoc, length_app. cbn [length app]. do 3 f_equal. lia.
Qed.

Lemma sort_insert_perm {A : Type} (cmp : A -> A -> num) (x : A) (l : list A) :
  Permutation (sort_insert cmp x l) (x :: l).
Proof.
  induction l as [|y l IH]; cbn [sort_insert]; [reflexivity|].
  destruct (sort_after cmp x y); [|reflexivity].
  rewrite IH. apply perm_swap.
Qed.

Lemma js_sort_perm {A : Type} (cmp : A -> A -> num) (l : list A) :
  Permutation (js_sort cmp l) l.
Proof.
  induction l as [|x l IH]; cbn; [reflexivity|].
  fold (js_sort cmp l). rewrite sort_insert_perm. now constructor.
Qed.

(** The comparator [a.a - b.a] orders every two numbers that are not
    [NaN]. *)
Lemma by_azimuth_total (a b : num * num) :
  is_NaN (fst a) = false -> is_NaN (fst b) = false ->
  if sort_after by_azimuth a b then ascending b a else ascending a b.
Proof.
  destruct a as [[|s|x] ea], b as [[|t|y] eb]; cbn [fst is_NaN]; try discriminate;
    intros _ _; unfold sort_after, by_azimuth, ascending, num_le, num_gt, num_sub;
    cbn [fst num_neg num_add num_lt num_eqb num_of_Z].
  - destruct s, t; reflexivity.
  - destruct s; reflexivity.
  - destruct t; reflexivity.
  - destruct (Qc_ltb (Qc_of 0) (x + - y)) eqn:C.
    + apply Qc_ltb_lt in C. change (Qc_of 0) with 0%Qc in C.
      apply Qclt_minus_iff in C. apply Qc_ltb_lt in C. now rewrite C.
    + apply Qc_ltb_ge in C. change (Qc_of 0) with 0%Qc in C.
      destruct (Qc_ltb x y) eqn:L; [reflexivity|]. cbn [orb].
      apply Qc_ltb_ge in L. apply Qc_eqb_eq. apply Qcle_antisym; [|exact L].
      revert C. qc2q. intros C. lra.
Qed.

Lemma sort_insert_sorted (x : num * num) (l : list (num * num)) :
  is_NaN (fst x) = false ->
  Forall (fun s => is_NaN (fst s) = false) l ->
  Sorted ascending l ->
  Sorted ascending (sort_insert by_azimuth x l).
Proof.
  intros Hx Hl HS. induction HS as [|y l HS IH Hy]; cbn [sort_insert].
  - repeat constructor.
  - apply Forall_cons in Hl as [Hy0 Hl].
    pose proof (by_azimuth_total x y Hx Hy0) as T.
    destruct (sort_after by_azimuth x y).
    + constructor; [now apply IH|].
      destruct l as [|z l]; cbn [sort_insert].
      * now constructor.
      * destruct (sort_after by_azimuth x z); constructor; [|exact T].
        now inversion Hy.
    + constructor; [now constructor|now constructor].
Qed.

Lemma js_sort_sorted (l : list (num * num)) :
  Forall (fun s => is_NaN (fst s) = false) l ->
  Sorted ascending (js_sort by_azimuth l).
Proof.
  induction 1 as [|x l Hx Hl IH]; cbn; [constructor|].
  fold (js_sort by_azimuth l). apply sort_insert_sorted; [exact Hx| |exact IH].
  eapply Permutation_Forall; [|exact Hl]. symmetry. apply js_sort_perm.
Qed.

Lemma combine_fst_snd {A B : Type} (l : list (A * B)) :
  combine (map fst l) (map snd l) = l.
Proof. induction l as [|[a b] l IH]; cbn; [reflexivity|now rewrite IH]. Qed.

(** The stored profile is the sorted list of the kept samples. *)
Lemma csv_profile_sorted_kept (text : string) :
  csv_profile text
  = {| hz_az := map fst (js_sort by_azimuth (kept_samples text));
       hz_alt := map snd (js_sort by_azimuth (kept_samples text)) |}.
Proof.
  unfold csv_profile, kept_samples.
  replace (skipn 1 (str_split LF text)) with (tl (str_split LF text))
    by (now destruct (str_split LF text)).
  rewrite csv_rows_spec. cbn [app].
  set (K := flat_map _ _).
  pose proof (imap_pair K []) as E. cbn [app length Nat.add] in E.
  now rewrite E.
Qed.

Lemma str_split_header (hdr body : string) :
  has_char LF hdr = false ->
  str_split LF (hdr ++ String LF body)%string = hdr :: str_split LF body.
Proof.
  induction hdr as [|c h IH]; intros H.
  - reflexivity.
  - cbn [has_char] in H. apply orb_false_iff in H as [Hc Hh].
    change (String c h ++ String LF body)%string
      with (String c (h ++ String LF body)%string).
    cbn [str_split]. rewrite Hc, (IH Hh). reflexivity.
Qed.

Lemma Sorted_map_fst (l : list (num * num)) :
  Sorted ascending l -> Sorted (fun a b => num_le a b = true) (map fst l).
Proof.
  induction 1 as [|x l HS IH Hx]; cbn [map]; constructor; [exact IH|].
  destruct Hx; cbn [map]; constructor. assumption.
Qed.

Lemma stored_finite (c : list (num * num)) :
  Forall (fun s => is_Some (finite_sample s)) c ->
  map stored_sample (omap finite_sample c) = c.
Proof.
  induction 1 as [|[a e] c [v Hv] _ IH]; [reflexivity|].
  change (omap finite_sample ((a, e) :: c))
    with (match finite_sample (a, e) with
          | Some y => y :: omap finite_sample c
          | None => omap finite_sample c
          end).
  rewrite Hv. cbn [map]. rewrite IH. f_equal.
  destruct a, e; try discriminate. now injection Hv as <-.
Qed.

Lemma num_le_Fin (a b : Qc) : num_le (Fin a) (Fin b) = true -> (a <= b)%Qc.
Proof.
  unfold num_le. cbn [num_lt num_eqb]. intros [H|H]%orb_true_iff.
  - apply Qclt_le_weak. now apply Qc_ltb_lt.
  - apply Qc_eqb_eq in H. subst. apply Qcle_refl.
Qed.

Lemma Sorted_stored (l : list (Qc * Qc)) :
  Sorted ascending (map stored_sample l) -> Sorted Qcle (map fst l).
Proof.
  induction l as [|a l IH]; cbn [map]; intros HS; [constructor|].
  apply Sorted_inv in HS as [HS Hd]. constructor; [now apply IH|].
  destruct l as [|b l]; cbn [map] in *; constructor.
  apply HdRel_inv in Hd. now apply num_le_Fin.
Qed.

(** A table all of whose kept samples are finite loads as a profile of
    finite samples, sorted by azimuth. *)
Lemma loaded_profile (text : string) :
  Forall (fun s => is_Some (finite_sample s)) (kept_samples text) ->
  exists loaded,
    csv_profile text = profile loaded /\
    map stored_sample loaded = js_sort by_azimuth (kept_samples text) /\
    Sorted Qcle (map fst loaded).
Proof.
  intros HF. set (c := js_sort by_azimuth (kept_samples text)).
  assert (HFc : Forall (fun s => is_Some (finite_sample s)) c).
  { eapply Permutation_Forall; [|exact HF]. symmetry. apply js_sort_perm. }
  pose proof (stored_finite c HFc) as E.
  exists (omap finite_sample c). split; [|split].
  - rewrite csv_profile_sorted_kept. fold c. unfold profile.
    rewrite <- E at 1 2. now rewrite !map_map.
  - exact E.
  - apply Sorted_stored. rewrite E. apply js_sort_sorted.
    eapply Forall_impl; [exact HF|]. intros [[| |a] e] [v Hv]; now try discriminate.
Qed.


(** C9, amended.  [parseHorizonCsv] assigns the horizon and nothing else,
    and the assigned profile does not depend on the state or on the
    content of the first row.  The rows it keeps are the later rows with
    three comma-separated fields or more, whether or not the fields parse
    as numbers: the stored samples are a permutation of [kept_samples],
    field 2 and field 3 of each kept row through [parseFloat], so a row
    with fewer than three fields leaves no sample.  When no kept azimuth
    is [NaN] the stored azimuths are ascending, whatever the order of the
    rows. *)
Theorem parseHorizonCsv_loads (st st' : SK_STATE) (text : string) :
  let h := horizon (parseHorizonCsv st text) in
  satRecords (parseHorizonCsv st text) = satRecords st /\
  planes (parseHorizonCsv st text) = planes st /\
  h = horizon (parseHorizonCsv st' text) /\
  (forall hdr hdr' body,
     has_char LF hdr = false -> has_char LF hdr' = false ->
     csv_profile (hdr ++ String LF body) = csv_profile (hdr' ++ String LF body)) /\
  length (hz_az h) = length (hz_alt h) /\
  Permutation (combine (hz_az h) (hz_alt h)) (kept_samples text) /\
  (Forall (fun s => is_NaN (fst s) = false) (kept_samples text) ->
   Sorted (fun a b => num_le a b = true) (hz_az h)).
Proof.
  cbn [parseHorizonCsv satRecords planes horizon]. cbv zeta.
  repeat (split; [reflexivity|]).
  split.
  { intros hdr hdr' body H H'. unfold csv_profile.
    now rewrite !str_split_header by assumption. }
  rewrite csv_profile_sorted_kept. cbn [hz_az hz_alt].
  split; [now rewrite !length_map|].
  split; [rewrite combine_fst_snd; apply js_sort_perm|].
  intros HN. now apply Sorted_map_fst, js_sort_sorted.
Qed.

(** ** The timed cache *)

Lemma age_lt (now t ttl : Z) :
  (num_of_Z now - num_of_Z t <? num_of_Z ttl)%num = (now - t <? ttl).
Proof.
  unfold num_of_Z, num_sub. cbn [num_neg num_add num_lt].
  destruct (now - t <? ttl) eqn:E.
  - apply Z.ltb_lt in E. apply Qc_ltb_lt. qc2q.
    rewrite <- inject_Z_opp, <- inject_Z_plus, <- Zlt_Qlt. lia.
  - apply Z.ltb_ge in E. apply Qc_ltb_ge. qc2q.
    rewrite <- inject_Z_opp, <- inject_Z_plus, <- Zle_Qle. lia.
Qed.

(** Reading an entry whose text parses to an object with a numeric
    [ts]: fresh entries give their [data], the others nothing. *)
Lemma cacheRead_entry (ls : gmap string string) (key raw : string)
    (obj : jsval) (t ttl now : Z) :
  ls !! key = Some raw -> is_empty raw = false ->
  JSON_parse raw = Ok obj ->
  getProp obj "ts" = Ok (Num (num_of_Z t)) ->
  cacheRead ls key ttl now
  = if now - t <? ttl
    then match getProp obj "data" with Ok d => Some d | Throw => None end
    else None.
Proof.
  intros Hl Hne Hp Hts. unfold cacheRead, cacheReadBody, getItem.
  rewrite Hl, Hne, Hp. cbn [bind]. rewrite Hts. cbn [bind ToNumber].
  rewrite age_lt. destruct (now - t <? ttl); [|reflexivity].
  now destruct (getProp obj "data").
Qed.

Lemma is_empty_false (s : string) : s <> "" -> is_empty s = false.
Proof. now destruct s. Qed.

(** C4, amended.  An entry is stamped with the clock reading [now]
    that the fetch took before its request, not with the time of the
    write.  A write of [v] under [key] that the store accepts, read back
    with the same [ttl > 0], gives [v] unchanged at the reading of the
    stamp and as long as the age [now' - now] stays below [ttl]; once
    the age has reached [ttl] the read gives nothing, and this is so of
    the entry a [cachedFetchJson] or a [cachedFetchText] has just
    written when the request took [ttl] or longer; a [cachedFetchText]
    that follows within [ttl] of the stamp returns the text from the
    cache, whatever the network would do.  Any parsed entry whose age
    has reached [ttl] reads as absent, as do a missing entry and an
    entry that [JSON.parse] rejects; the read never throws, and
    [cachedFetchText] and [cachedFetchJson] throw only when the network
    retrieval does. *)
Theorem cache_round_trip (ls : gmap string string) (key : string)
    (v : jsval) (ttl now : Z) :
  0 < ttl ->
  storage_fits (<[key := JSON_stringify (envelope now v)]> ls) = true ->
  JSON_stringify (envelope now v) <> "" ->
  JSON_parse (JSON_stringify (envelope now v)) = Ok (envelope now v) ->
  cacheRead (cacheWrite ls key v now) key ttl now = Some v /\
  (forall now', now' - now < ttl ->
     cacheRead (cacheWrite ls key v now) key ttl now' = Some v) /\
  (forall now', ttl <= now' - now ->
     cacheRead (cacheWrite ls key v now) key ttl now' = None) /\
  (forall ls0 k0 raw obj t ttl0 now0,
     ls0 !! k0 = Some raw -> JSON_parse raw = Ok obj ->
     getProp obj "ts" = Ok (Num (num_of_Z t)) ->
     ttl0 <= now0 - t ->
     cacheRead ls0 k0 ttl0 now0 = None) /\
  (forall ls0 k0 ttl0 now0,
     ls0 !! k0 = None -> cacheRead ls0 k0 ttl0 now0 = None) /\
  (forall ls0 k0 raw ttl0 now0,
     ls0 !! k0 = Some raw -> JSON_parse raw = Throw ->
     cacheRead ls0 k0 ttl0 now0 = None) /\
  (forall ls0 k0 ttl0 now0,
     cacheReadBody ls0 k0 ttl0 now0 = Throw ->
     cacheRead ls0 k0 ttl0 now0 = None) /\
  (forall net ls0 url k0 ttl0 now0,
     fst (cachedFetchText net ls0 url k0 ttl0 now0) = Throw -> net url = Throw) /\
  (forall net ls0 url k0 ttl0 now0,
     fst (cachedFetchJson net ls0 url k0 ttl0 now0) = Throw -> net url = Throw) /\
  (forall net net' url text now',
     v = Str text -> cacheRead ls key ttl now = None -> net url = Ok text ->
     now' - now < ttl ->
     let ls' := snd (cachedFetchText net ls url key ttl now) in
     cachedFetchText net' ls' url key ttl now' = (Ok (Str text), ls')) /\
  (forall net url now',
     cacheRead ls key ttl now = None -> net url = Ok v ->
     let ls' := snd (cachedFetchJson net ls url key ttl now) in
     (now' - now < ttl -> cacheRead ls' key ttl now' = Some v) /\
     (ttl <= now' - now -> cacheRead ls' key ttl now' = None)) /\
  (forall net url text now',
     v = Str text -> cacheRead ls key ttl now = None -> net url = Ok text ->
     let ls' := snd (cachedFetchText net ls url key ttl now) in
     (now' - now < ttl -> cacheRead ls' key ttl now' = Some v) /\
     (ttl <= now' - now -> cacheRead ls' key ttl now' = None)).
Proof.
  intros Httl Hfits Hne Hrt.
  assert (W : cacheWrite ls key v now
              = <[key := JSON_stringify (envelope now v)]> ls).
  { unfold cacheWrite, setItem. now rewrite Hfits. }
  assert (R : forall now',
            cacheRead (cacheWrite ls key v now) key ttl now'
            = if now' - now <? ttl then Some v else None).
  { intros now'. rewrite W.
    rewrite (cacheRead_entry _ key (JSON_stringify (envelope now v))
               (envelope now v) now ttl now').
    - reflexivity.
    - apply lookup_insert_eq.
    - now apply is_empty_false.
    - exact Hrt.
    - reflexivity. }
  split.
  { rewrite R. destruct (now - now <? ttl) eqn:E; [reflexivity|].
    apply Z.ltb_ge in E. lia. }
  split.
  { intros now' H. rewrite R. destruct (now' - now <? ttl) eqn:E; [reflexivity|].
    apply Z.ltb_ge in E. lia. }
  split.
  { intros now' H. rewrite R. destruct (now' - now <? ttl) eqn:E; [|reflexivity].
    apply Z.ltb_lt in E. lia. }
  split.
  { intros ls0 k0 raw obj t ttl0 now0 Hl Hp Hts Hage.
    destruct (is_empty raw) eqn:Hraw.
    - unfold cacheRead, cacheReadBody, getItem. now rewrite Hl, Hraw.
    - rewrite (cacheRead_entry ls0 k0 raw obj t ttl0 now0) by assumption.
      destruct (now0 - t <? ttl0) eqn:E; [|reflexivity].
      apply Z.ltb_lt in E. lia. }
  split.
  { intros ls0 k0 ttl0 now0 Hl. unfold cacheRead, cacheReadBody, getItem.
    now rewrite Hl. }
  split.
  { intros ls0 k0 raw ttl0 now0 Hl Hp. unfold cacheRead, cacheReadBody, getItem.
    rewrite Hl, Hp. now destruct (is_empty raw). }
  split.
  { intros ls0 k0 ttl0 now0 Hb. unfold cacheRead. now rewrite Hb. }
  split.
  { intros net ls0 url k0 ttl0 now0. unfold cachedFetchText.
    destruct (cacheRead ls0 k0 ttl0 now0); [discriminate|].
    now destruct (net url). }
  split.
  { intros net ls0 url k0 ttl0 now0. unfold cachedFetchJson.
    destruct (cacheRead ls0 k0 ttl0 now0); [discriminate|].
    now destruct (net url). }
  split.
  { intros net net' url text now' -> Hmiss Hnet Hage ls'.
    assert (E : ls' = cacheWrite ls key (Str text) now).
    { subst ls'. unfold cachedFetchText. now rewrite Hmiss, Hnet. }
    rewrite E. unfold cachedFetchText at 1. rewrite R.
    destruct (now' - now <? ttl) eqn:C; [reflexivity|].
    apply Z.ltb_ge in C. lia. }
  split.
  - intros net url now' Hmiss Hnet ls'.
    assert (E : ls' = cacheWrite ls key v now).
    { subst ls'. unfold cachedFetchJson. now rewrite Hmiss, Hnet. }
    rewrite E, R. split; intros Hage.
    + destruct (now' - now <? ttl) eqn:C; [reflexivity|].
      apply Z.ltb_ge in C. lia.
    + destruct (now' - now <? ttl) eqn:C; [|reflexivity].
      apply Z.ltb_lt in C. lia.
  - intros net url text now' Hv Hmiss Hnet ls'.
    assert (E : ls' = cacheWrite ls key v now).
    { subst ls'. unfold cachedFetchText. now rewrite Hmiss, Hnet, Hv. }
    rewrite E, R. split; intros Hage.
    + destruct (now' - now <? ttl) eqn:C; [reflexivity|].
      apply Z.ltb_ge in C. lia.
    + destruct (now' - now <? ttl) eqn:C; [|reflexivity].
      apply Z.ltb_lt in C. lia.
Qed.

(** ** The aircraft fetch *)

Lemma has_app (vs ws : list jsval) (k : string) :
  has (vs ++ ws) k = has vs k || has ws k.
Proof. unfold has. apply existsb_app. Qed.

Lemma has_singleton_key (hex : jsval) (k : string) :
  ToPropertyKey hex <> k -> has [hex] k = false.
Proof.
  intros H. unfold has. cbn [existsb]. destruct hex; try reflexivity.
  cbn [ToPropertyKey] in H. rewrite orb_false_r.
  now apply String.eqb_neq.
Qed.

(** The assignment [SK_STATE.planes[k] = e] on the other keys, on the
    key itself, and on the key [__proto__]. *)
Lemma assign_plane_ne (k j : string) (e : plane) (pl : gmap string plane) :
  k <> j -> assign_plane k e pl !! j = pl !! j.
Proof.
  intros H. unfold assign_plane. destruct (pl !! k).
  - now rewrite lookup_insert_ne.
  - destruct (String.eqb k "__proto__"); [reflexivity|].
    now rewrite lookup_insert_ne.
Qed.

Lemma assign_plane_insert (k : string) (e : plane) (pl : gmap string plane) :
  k <> "__proto__" \/ is_Some (pl !! k) ->
  assign_plane k e pl = <[k := e]> pl.
Proof.
  intros H. unfold assign_plane. destruct (pl !! k) as [p|]; [reflexivity|].
  destruct H as [H|[p H]]; [|discriminate].
  apply String.eqb_neq in H. now rewrite H.
Qed.

Lemma assign_plane_eq (k : string) (e : plane) (pl : gmap string plane) :
  k <> "__proto__" \/ is_Some (pl !! k) ->
  assign_plane k e pl !! k = Some e.
Proof.
  intros H. rewrite assign_plane_insert by exact H. apply lookup_insert_eq.
Qed.

Lemma assign_plane_proto (e : plane) (pl : gmap string plane) :
  pl !! "__proto__" = None -> assign_plane "__proto__" e pl = pl.
Proof. intros H. unfold assign_plane. now rewrite H. Qed.

Lemma assign_plane_cases (k : string) (e : plane) (pl : gmap string plane) :
  assign_plane k e pl !! k = Some e \/
  (assign_plane k e pl = pl /\ pl !! k = None /\ k = "__proto__").
Proof.
  destruct (pl !! k) as [p|] eqn:E.
  - left. apply assign_plane_eq. right. now exists p.
  - destruct (String.eqb_spec k "__proto__") as [->|Hne].
    + right. now rewrite assign_plane_proto.
    + left. apply assign_plane_eq. now left.
Qed.

(** A record stored under another key leaves the entry at [k] and the
    membership of [k] in [validHexes] as they are. *)
Lemma upsert_frame (now : Z) (p : jsval) (k : string)
    (pl : gmap string plane) (valid : list jsval) :
  (accepted p = true -> record_key p <> k) ->
  (fst (upsert now p (pl, valid))).1 !! k = pl !! k /\
  has (fst (upsert now p (pl, valid))).2 k = has valid k.
Proof.
  unfold accepted, record_key, upsert. intros H.
  destruct (getProp p "lat") as [lat|]; [|now split].
  destruct (truthy lat); cbn [negb]; [|now split].
  destruct (getProp p "lon") as [lon|]; [|now split].
  destruct (truthy lon); cbn [negb]; [|now split].
  destruct (getProp p "hex") as [hex|]; [|now split].
  specialize (H eq_refl).
  destruct (callsign_of p) as [c|]; cbn [bind].
  - destruct (alt_ft_of p) as [a|]; cbn [bind fst snd].
    + rewrite assign_plane_ne by exact H.
      rewrite has_app, has_singleton_key by exact H. now rewrite orb_false_r.
    + rewrite has_app, has_singleton_key by exact H. now rewrite orb_false_r.
  - cbn [fst snd].
    rewrite has_app, has_singleton_key by exact H. now rewrite orb_false_r.
Qed.

Lemma forEach_upsert_frame (now : Z) (k : string) (recs : list jsval) :
  forall (pl : gmap string plane) (valid : list jsval),
  absent_from k recs ->
  (fst (forEach (upsert now) recs (pl, valid))).1 !! k = pl !! k /\
  has (fst (forEach (upsert now) recs (pl, valid))).2 k = has valid k.
Proof.
  induction recs as [|r recs IH]; intros pl valid HA; cbn [forEach]; [now split|].
  apply Forall_cons in HA as [Hr HA].
  destruct (upsert_frame now r k pl valid Hr) as [F1 F2].
  destruct (upsert now r (pl, valid)) as [[pl' valid'] c]. cbn [fst snd] in *.
  destruct c; cbn [fst snd].
  - destruct (IH pl' valid' HA) as [G1 G2]. now rewrite G1, G2.
  - now split.
Qed.

Lemma expire_lookup (now : Z) (valid : list jsval) (k j : string)
    (m : gmap string plane) :
  expire now valid k m !! j
  = match m !! j with
    | Some p => if bool_decide (j = k) && doomed now valid j p then None else Some p
    | None => None
    end.
Proof.
  unfold expire, doomed. destruct (decide (j = k)) as [->|Hne].
  - rewrite bool_decide_eq_true_2 by reflexivity. cbn [andb].
    destruct (m !! k) as [p|] eqn:E.
    + destruct (negb (has valid k) && (now - p_last_update p >? 15000)).
      * apply lookup_delete_eq.
      * exact E.
    + exact E.
  - rewrite bool_decide_eq_false_2 by exact Hne. cbn [andb].
    destruct (m !! k) as [p|] eqn:E.
    + destruct (negb (has valid k) && (now - p_last_update p >? 15000)).
      * rewrite lookup_delete_ne by congruence. now destruct (m !! j).
      * now destruct (m !! j).
    + now destruct (m !! j).
Qed.

Lemma foldl_expire_lookup (now : Z) (valid : list jsval) (ks : list string) :
  forall (m : gmap string plane) (j : string),
  foldl (fun m k => expire now valid k m) m ks !! j
  = match m !! j with
    | Some p => if bool_decide (j ∈ ks) && doomed now valid j p then None else Some p
    | None => None
    end.
Proof.
  induction ks as [|k ks IH]; intros m j; cbn [foldl].
  - destruct (m !! j); [|reflexivity].
    now rewrite bool_decide_eq_false_2 by apply not_elem_of_nil.
  - rewrite IH, expire_lookup. destruct (m !! j) as [p|]; [|reflexivity].
    destruct (decide (j = k)) as [->|Hne].
    + rewrite (bool_decide_eq_true_2 (k = k)) by reflexivity.
      rewrite (bool_decide_eq_true_2 (k ∈ k :: ks)) by constructor.
      cbn [andb]. destruct (doomed now valid k p) eqn:D; [reflexivity|].
      now rewrite D, andb_false_r.
    + rewrite (bool_decide_eq_false_2 (j = k)) by exact Hne. cbn [andb].
      destruct (decide (j ∈ ks)) as [Hin|Hin].
      * rewrite !bool_decide_eq_true_2; [reflexivity| |exact Hin].
        now apply list_elem_of_further.
      * rewrite !bool_decide_eq_false_2; [reflexivity| |exact Hin].
        intros [?|?]%elem_of_cons; contradiction.
Qed.

(** The cleanup deletes exactly the entries that are not in
    [validHexes] and whose age exceeds 15000 ms. *)
Lemma cleanup_lookup (now : Z) (valid : list jsval) (pl : gmap string plane)
    (j : string) :
  cleanup now valid pl !! j
  = match pl !! j with
    | Some p => if doomed now valid j p then None else Some p
    | None => None
    end.
Proof.
  unfold cleanup. rewrite foldl_expire_lookup.
  destruct (pl !! j) as [p|] eqn:E; [|reflexivity].
  rewrite bool_decide_eq_true_2; [reflexivity|].
  unfold keys. apply list_elem_of_fmap. exists (j, p). split; [reflexivity|].
  now apply elem_of_map_to_list.
Qed.

(** After a refresh that completes, what is left of an entry that no
    record of the snapshot is stored under. *)
Lemma refreshPlanes_absent (now : Z) (data ac : jsval) (recs : list jsval)
    (pl : gmap string plane) (k : string) (p : plane) :
  getProp data "ac" = Ok ac ->
  ac = Arr recs \/ (truthy ac = false /\ recs = []) ->
  snd (forEach (upsert now) recs (pl, [])) = Normal ->
  pl !! k = Some p ->
  absent_from k recs ->
  refreshPlanes now data pl !! k
  = if now - p_last_update p >? 15000 then None else Some p.
Proof.
  intros Hac Hrecs Hc Hk Habs. unfold refreshPlanes. rewrite Hac.
  destruct (forEach_upsert_frame now k recs pl [] Habs) as [F1 F2].
  assert (E : (if truthy ac
               then match ac with
                    | Arr recs0 => forEach (upsert now) recs0 (pl, [])
                    | _ => ((pl, []), Abrupt)
                    end
               else ((pl, []), Normal))
              = forEach (upsert now) recs (pl, [])).
  { destruct Hrecs as [->|[-> ->]]; reflexivity. }
  rewrite E. destruct (forEach (upsert now) recs (pl, [])) as [[pl1 valid] c].
  cbn [fst snd] in *. subst c.
  rewrite cleanup_lookup, F1, Hk. unfold doomed. now rewrite F2.
Qed.

Lemma fetchPlanes_refreshes (net : string -> result jsval) (st : SK_STATE)
    (ls : gmap string string) (t0 now : Z) :
  planes (fst (fetchPlanes net st ls t0 now))
  = match fst (cachedFetchJson net ls PLANES_URL PLANES_KEY PLANE_FETCH_MS t0) with
    | Ok data => refreshPlanes now data (planes st)
    | Throw => planes st
    end.
Proof.
  unfold fetchPlanes.
  destruct (cachedFetchJson net ls PLANES_URL PLANES_KEY PLANE_FETCH_MS t0)
    as [[data|] ls']; reflexivity.
Qed.

(** C5, amended.  After an aircraft fetch that completes on a snapshot
    (the list [data.ac], or no list at all), an aircraft that was tracked
    and that no record of the snapshot is stored under is still tracked,
    unchanged, when [now - last_update <= 15000], and is gone when
    [now - last_update > 15000]; at the boundary
    [now - last_update = 15000] it is still present. *)
Theorem fetchPlanes_grace_window (net : string -> result jsval)
    (st : SK_STATE) (ls : gmap string string) (t0 now : Z)
    (data ac : jsval) (recs : list jsval) (k : string) (p : plane) :
  fst (cachedFetchJson net ls PLANES_URL PLANES_KEY PLANE_FETCH_MS t0) = Ok data ->
  getProp data "ac" = Ok ac ->
  ac = Arr recs \/ (truthy ac = false /\ recs = []) ->
  snd (forEach (upsert now) recs (planes st, [])) = Normal ->
  planes st !! k = Some p ->
  absent_from k recs ->
  let after := planes (fst (fetchPlanes net st ls t0 now)) in
  (now - p_last_update p <= 15000 -> after !! k = Some p) /\
  (now - p_last_update p = 15000 -> after !! k = Some p) /\
  (now - p_last_update p > 15000 -> after !! k = None).
Proof.
  intros Hfetch Hac Hrecs Hc Hk Habs after.
  assert (R : after !! k = if now - p_last_update p >? 15000 then None else Some p).
  { subst after. rewrite fetchPlanes_refreshes, Hfetch.
    now apply (refreshPlanes_absent now data ac recs). }
  rewrite R. repeat split; intros H.
  - destruct (now - p_last_update p >? 15000) eqn:E; [|reflexivity].
    apply Z.gtb_lt in E. lia.
  - destruct (now - p_last_update p >? 15000) eqn:E; [|reflexivity].
    apply Z.gtb_lt in E. lia.
  - destruct (now - p_last_update p >? 15000) eqn:E; [reflexivity|].
    rewrite Z.gtb_ltb in E. apply Z.ltb_ge in E. lia.
Qed.

Lemma getProp_Obj (fs : list (string * jsval)) (name : string) :
  getProp (Obj fs) name = Ok (field fs name).
Proof. reflexivity. Qed.

(** A record that fails the coordinate guard changes nothing. *)
Lemma upsert_rejects (now : Z) (fs : list (string * jsval))
    (s : gmap string plane * list jsval) :
  truthy (field fs "lat") = false \/ truthy (field fs "lon") = false ->
  upsert now (Obj fs) s = (s, Normal).
Proof.
  intros H. unfold upsert. destruct s as [pl valid]. rewrite !getProp_Obj.
  destruct (truthy (field fs "lat")); cbn [negb]; [|reflexivity].
  destruct H as [H|H]; [discriminate|]. now rewrite H.
Qed.

Lemma forEach_skip {S A : Type} (f : A -> S -> S * completion) (x : A) :
  (forall s, f x s = (s, Normal)) ->
  forall xs ys s0, forEach f (xs ++ x :: ys) s0 = forEach f (xs ++ ys) s0.
Proof.
  intros Hx xs ys. induction xs as [|y xs IH]; intros s0; cbn [app forEach].
  - now rewrite Hx.
  - destruct (f y s0) as [s1 [|]]; [apply IH|reflexivity].
Qed.

(** A snapshot with a rejected record refreshes as the snapshot without
    it. *)
Lemma refreshPlanes_skip (now : Z) (fs : list (string * jsval))
    (data data' : jsval) (xs ys : list jsval) (pl : gmap string plane) :
  truthy (field fs "lat") = false \/ truthy (field fs "lon") = false ->
  getProp data "ac" = Ok (Arr (xs ++ Obj fs :: ys)) ->
  getProp data' "ac" = Ok (Arr (xs ++ ys)) ->
  refreshPlanes now data pl = refreshPlanes now data' pl.
Proof.
  intros H Hd Hd'. unfold refreshPlanes. rewrite Hd, Hd'. cbn [truthy].
  rewrite (forEach_skip (upsert now) (Obj fs)); [reflexivity|].
  intros s. now apply upsert_rejects.
Qed.

(** An entry written at this refresh stays one through the later
    records. *)
Lemma upsert_keeps_fresh (now : Z) (p : jsval) (k : string)
    (pl : gmap string plane) (valid : list jsval) :
  (exists e, pl !! k = Some e /\ p_last_update e = now) ->
  exists e, (fst (upsert now p (pl, valid))).1 !! k = Some e /\
            p_last_update e = now.
Proof.
  intros He. unfold upsert.
  destruct (getProp p "lat") as [lat|]; [|exact He].
  destruct (truthy lat); cbn [negb]; [|exact He].
  destruct (getProp p "lon") as [lon|]; [|exact He].
  destruct (truthy lon); cbn [negb]; [|exact He].
  destruct (getProp p "hex") as [hex|]; [|exact He].
  destruct (callsign_of p) as [c|]; cbn [bind]; [|exact He].
  destruct (alt_ft_of p) as [a|]; cbn [bind fst snd]; [|exact He].
  destruct (decide (ToPropertyKey hex = k)) as [<-|Hne].
  - rewrite assign_plane_eq; [now eexists|].
    right. destruct He as (e & He & _). now exists e.
  - now rewrite assign_plane_ne.
Qed.

(** A record that passes the guard and does not throw is tracked under
    its key, with the clock reading of this refresh, unless that key is
    [__proto__]. *)
Lemma upsert_tracks (now : Z) (p : jsval)
    (pl : gmap string plane) (valid : list jsval) :
  accepted p = true -> record_key p <> "__proto__" ->
  snd (upsert now p (pl, valid)) = Normal ->
  exists e, (fst (upsert now p (pl, valid))).1 !! record_key p = Some e /\
            p_last_update e = now.
Proof.
  unfold accepted, record_key, upsert. intros Ha Hk.
  destruct (getProp p "lat") as [lat|]; [|discriminate].
  destruct (getProp p "lon") as [lon|]; [|discriminate].
  apply andb_true_iff in Ha as [-> ->]. cbn [negb].
  destruct (getProp p "hex") as [hex|]; [|discriminate].
  destruct (callsign_of p) as [c|]; cbn [bind]; [|discriminate].
  destruct (alt_ft_of p) as [a|]; cbn [bind fst snd]; [|discriminate].
  intros _. rewrite assign_plane_eq by (left; exact Hk). now eexists.
Qed.

Lemma forEach_upsert_tracks (now : Z) (r : jsval) (recs : list jsval) :
  forall (pl : gmap string plane) (valid : list jsval),
  In r recs -> accepted r = true -> record_key r <> "__proto__" ->
  snd (forEach (upsert now) recs (pl, valid)) = Normal ->
  exists e, (fst (forEach (upsert now) recs (pl, valid))).1 !! record_key r = Some e /\
            p_last_update e = now.
Proof.
  assert (K : forall recs pl valid,
            (exists e, pl !! record_key r = Some e /\ p_last_update e = now) ->
            exists e, (fst (forEach (upsert now) recs (pl, valid))).1 !! record_key r
                      = Some e /\ p_last_update e = now).
  { clear recs. induction recs as [|x recs IH]; intros pl valid He; [exact He|].
    cbn [forEach].
    pose proof (upsert_keeps_fresh now x (record_key r) pl valid He) as Hx.
    destruct (upsert now x (pl, valid)) as [[pl' valid'] [|]]; cbn [fst snd] in *.
    - now apply IH.
    - exact Hx. }
  induction recs as [|x recs IH]; intros pl valid Hin Ha Hk Hc; [contradiction|].
  cbn [forEach] in *. destruct Hin as [->|Hin].
  - pose proof (upsert_tracks now r pl valid Ha Hk) as Hr.
    destruct (upsert now r (pl, valid)) as [[pl' valid'] [|]]; cbn [fst snd] in *.
    + apply K. now apply Hr.
    + discriminate.
  - destruct (upsert now x (pl, valid)) as [[pl' valid'] [|]]; cbn [fst snd] in *.
    + now apply IH.
    + discriminate.
Qed.

(** After a refresh that completes, every record that passed the guard
    is tracked under its key with the clock reading of the refresh,
    unless that key is [__proto__]. *)
Lemma refreshPlanes_tracks (now : Z) (data : jsval) (recs : list jsval)
    (pl : gmap string plane) (r : jsval) :
  getProp data "ac" = Ok (Arr recs) ->
  snd (forEach (upsert now) recs (pl, [])) = Normal ->
  In r recs -> accepted r = true -> record_key r <> "__proto__" ->
  exists e, refreshPlanes now data pl !! record_key r = Some e /\
            p_last_update e = now.
Proof.
  intros Hac Hc Hin Ha Hk. unfold refreshPlanes. rewrite Hac. cbn [truthy].
  destruct (forEach_upsert_tracks now r recs pl [] Hin Ha Hk Hc) as (e & He & Ht).
  destruct (forEach (upsert now) recs (pl, [])) as [[pl1 valid] c].
  cbn [fst snd] in *. subst c. exists e. split; [|exact Ht].
  rewrite cleanup_lookup, He. unfold doomed. rewrite Ht.
  replace (now - now >? 15000) with false; [now rewrite andb_false_r|].
  rewrite Z.sub_diag. reflexivity.
Qed.

(** C6, amended.  A record whose [lat] and [lon] are both truthy
    (present and not zero) and whose [hex] is not the property name
    [__proto__] is stored under the key of its [hex], with the clock
    reading as [last_update]; its callsign is the trimmed [flight] when
    that is a string with something other than white space in it, and
    [r], or [hex] when [r] is falsy, when [flight] is missing or empty;
    after a refresh that completes, every such record is tracked under
    its key with the clock reading of the refresh.  A record without
    [lat] changes neither the tracked aircraft nor [validHexes], and the
    snapshot refreshes as if the record were not in it. *)
Theorem upsert_tracks_record (now : Z) (fs : list (string * jsval))
    (pl : gmap string plane) (validHexes : list jsval) :
  (truthy (field fs "lat") = true -> truthy (field fs "lon") = true ->
   forall c,
     (exists s, field fs "flight" = Str s /\ trim s <> "" /\ c = Str (trim s)) \/
     (truthy (field fs "flight") = false /\
      c = js_or (field fs "r") (field fs "hex")) ->
     ToPropertyKey (field fs "hex") <> "__proto__" ->
     upsert now (Obj fs) (pl, validHexes)
     = ((<[ToPropertyKey (field fs "hex") :=
             {| p_hex := field fs "hex";
                p_callsign := c;
                p_lat := field fs "lat";
                p_lon := field fs "lon";
                p_alt_ft := js_or (js_or (field fs "alt_geom") (field fs "alt_baro"))
                                  (Num (num_of_Z 0));
                p_last_update := now |}]> pl,
         validHexes ++ [field fs "hex"]), Normal)) /\
  (forall data recs pl0,
     getProp data "ac" = Ok (Arr recs) ->
     snd (forEach (upsert now) recs (pl0, [])) = Normal ->
     In (Obj fs) recs ->
     truthy (field fs "lat") = true -> truthy (field fs "lon") = true ->
     ToPropertyKey (field fs "hex") <> "__proto__" ->
     exists e,
       refreshPlanes now data pl0 !! ToPropertyKey (field fs "hex") = Some e /\
       p_last_update e = now) /\
  (assoc "lat" fs = None ->
   upsert now (Obj fs) (pl, validHexes) = ((pl, validHexes), Normal) /\
   forall data data' xs ys pl0,
     getProp data "ac" = Ok (Arr (xs ++ Obj fs :: ys)) ->
     getProp data' "ac" = Ok (Arr (xs ++ ys)) ->
     refreshPlanes now data pl0 = refreshPlanes now data' pl0).
Proof.
  split; [|split].
  - intros Hlat Hlon c Hc Hk.
    assert (U : upsert now (Obj fs) (pl, validHexes)
                = ((assign_plane (ToPropertyKey (field fs "hex"))
                      {| p_hex := field fs "hex";
                         p_callsign := c;
                         p_lat := field fs "lat";
                         p_lon := field fs "lon";
                         p_alt_ft := js_or (js_or (field fs "alt_geom")
                                                  (field fs "alt_baro"))
                                           (Num (num_of_Z 0));
                         p_last_update := now |} pl,
                    validHexes ++ [field fs "hex"]), Normal)).
    { unfold upsert. rewrite !getProp_Obj, Hlat, Hlon.
      cbn [negb]. unfold callsign_of, alt_ft_of. rewrite !getProp_Obj.
      destruct Hc as [(s & Hf & Hs & ->)|[Hf ->]].
      - rewrite Hf. cbn [bind truthy].
        destruct s as [|a s]; [now contradiction Hs|]. reflexivity.
      - cbn [bind]. rewrite Hf. reflexivity. }
    rewrite U, assign_plane_insert by (left; exact Hk). reflexivity.
  - intros data recs pl0 Hac Hc Hin Hlat Hlon Hk.
    apply (refreshPlanes_tracks now data recs pl0 (Obj fs) Hac Hc Hin).
    + unfold accepted. rewrite !getProp_Obj. now rewrite Hlat, Hlon.
    + unfold record_key. rewrite getProp_Obj. exact Hk.
  - intros Hnone.
    assert (F : truthy (field fs "lat") = false \/ truthy (field fs "lon") = false).
    { left. unfold field. now rewrite Hnone. }
    split; [now apply upsert_rejects|].
    intros data data' xs ys pl0. now apply refreshPlanes_skip.
Qed.

(** C10. A record whose [lat] is 0 or whose [lon] is 0 changes neither
    the tracked aircraft nor [validHexes], whatever its other fields, and
    the snapshot refreshes as if the record were not in it. *)
Theorem zero_coordinates_dropped (now : Z) (fs : list (string * jsval)) :
  field fs "lat" = Num (num_of_Z 0) \/ field fs "lon" = Num (num_of_Z 0) ->
  (forall s, upsert now (Obj fs) s = (s, Normal)) /\
  (forall data data' xs ys pl,
     getProp data "ac" = Ok (Arr (xs ++ Obj fs :: ys)) ->
     getProp data' "ac" = Ok (Arr (xs ++ ys)) ->
     refreshPlanes now data pl = refreshPlanes now data' pl).
Proof.
  intros H.
  assert (F : truthy (field fs "lat") = false \/ truthy (field fs "lon") = false).
  { destruct H as [H|H]; rewrite H; [left|right]; reflexivity. }
  split.
  - intros s. now apply upsert_rejects.
  - intros data data' xs ys pl. now apply refreshPlanes_skip.
Qed.

(** ** The classification loops *)

(** The loop of [getHorizonLimit] ends on every array of at most 2^31
    entries, sorted or not. *)
Lemma bsearch_returns (a : list num) (x : num) (fuel : nat) :
  forall l r, 0 <= l -> r < 2 ^ 31 -> r - l + 1 <= Z.of_nat fuel ->
  is_Some (bsearch fuel a x l r).
Proof.
  induction fuel as [|fuel IH]; intros l r Hl Hr Hf; cbn [bsearch];
    destruct (l <=? r) eqn:E; try (now eexists);
    apply Z.leb_le in E; [lia|].
  rewrite ushr1_half by lia.
  assert (Hm : l <= (l + r) / 2 <= r).
  { split; [apply Z.div_le_lower_bound|apply Z.div_le_upper_bound]; lia. }
  destruct (idx a ((l + r) / 2) <? x)%num; apply IH; lia.
Qed.

Lemma getHorizonLimit_returns (h : Horizon) (az : num) :
  Z.of_nat (length (hz_az h)) <= 2 ^ 31 ->
  getHorizonLimit h az = Some (occlusion h az).
Proof.
  intros Hlen. unfold occlusion.
  assert (S : is_Some (getHorizonLimit h az)); [|now destruct S as [v ->]].
  unfold getHorizonLimit.
  destruct (Z.of_nat (length (hz_az h)) =? 0); [now eexists|].
  destruct (bsearch_returns (hz_az h) (normAz az) (length (hz_az h)) 0
              (Z.of_nat (length (hz_az h)) - 1)) as [[l r] ->]; try lia.
  destruct (_ =? _)%num; now eexists.
Qed.

Lemma classifySat_step (h : Horizon) (now : Z) (s : satrec)
    (visSats : list VisibleObject) (blockSats : Z) :
  Z.of_nat (length (hz_az h)) <= 2 ^ 31 ->
  classifySat h now s (visSats, blockSats)
  = Some (visSats ++ option_list (sat_entry h now s),
          blockSats + (if sat_blocked h now s then 1 else 0)).
Proof.
  intros Hlen. unfold classifySat, sat_entry, sat_blocked, sat_look.
  destruct (propagate (rec_handle s) now) as [pos|]; cbn -[num_gt num_of_Z].
  - destruct (satLookAngles pos now) as [[az el] dist].
    rewrite getHorizonLimit_returns by exact Hlen. cbn -[num_gt num_of_Z].
    destruct (el >? occlusion h az)%num; cbn -[num_gt num_of_Z].
    + now rewrite Z.add_0_r.
    + destruct (el >? num_of_Z (-10))%num; now rewrite app_nil_r, ?Z.add_0_r.
  - now rewrite app_nil_r, Z.add_0_r.
Qed.

Lemma sat_loop_spec (h : Horizon) (now : Z) (recs : list satrec) :
  Z.of_nat (length (hz_az h)) <= 2 ^ 31 ->
  forall visSats blockSats,
  loop (classifySat h now) recs (visSats, blockSats)
  = Some (visSats ++ omap (sat_entry h now) recs,
          blockSats + Z.of_nat (length (List.filter (sat_blocked h now) recs))).
Proof.
  intros Hlen. induction recs as [|s recs IH]; intros vis blk.
  - cbn. now rewrite app_nil_r, Z.add_0_r.
  - cbn [loop]. rewrite classifySat_step by exact Hlen. simpl. rewrite IH.
    destruct (sat_entry h now s), (sat_blocked h now s); simpl;
      rewrite <- ?app_assoc, ?app_nil_r; simpl; f_equal; f_equal; lia.
Qed.

Lemma classifyPlane_step (h : Horizon) (p : plane)
    (visPlanes : list VisibleObject) (blockPlanes : Z) :
  Z.of_nat (length (hz_az h)) <= 2 ^ 31 ->
  classifyPlane h p (visPlanes, blockPlanes)
  = Some (if plane_visible h p
          then (visPlanes ++ [plane_entry p], blockPlanes)
          else (visPlanes, blockPlanes + 1)).
Proof.
  intros Hlen. unfold classifyPlane, plane_visible, plane_entry.
  destruct (planeLookAngles p) as [[az el] dist].
  rewrite getHorizonLimit_returns by exact Hlen. simpl.
  now destruct (el >? occlusion h az - Fin (Q2Qc 0.5))%num.
Qed.

Lemma plane_loop_spec (h : Horizon) (ps : list plane) :
  Z.of_nat (length (hz_az h)) <= 2 ^ 31 ->
  forall visPlanes blockPlanes,
  loop (classifyPlane h) ps (visPlanes, blockPlanes)
  = Some (visPlanes ++ map plane_entry (List.filter (plane_visible h) ps),
          blockPlanes
          + Z.of_nat (length (List.filter (fun p => negb (plane_visible h p)) ps))).
Proof.
  intros Hlen. induction ps as [|p ps IH]; intros vis blk.
  - cbn. now rewrite app_nil_r, Z.add_0_r.
  - cbn [loop]. rewrite classifyPlane_step by exact Hlen. simpl.
    destruct (plane_visible h p); simpl; rewrite IH;
      rewrite <- ?app_assoc; simpl; f_equal; f_equal; lia.
Qed.

Lemma updateMathLoop_spec (st : SK_STATE) (now : Z) :
  Z.of_nat (length (hz_az (horizon st))) <= 2 ^ 31 ->
  updateMathLoop st now
  = Some (omap (sat_entry (horizon st) now) (satRecords st),
          Z.of_nat (length (List.filter (sat_blocked (horizon st) now) (satRecords st))),
          map plane_entry (List.filter (plane_visible (horizon st)) (values (planes st))),
          Z.of_nat (length (List.filter (fun p => negb (plane_visible (horizon st) p))
                                        (values (planes st))))).
Proof.
  intros Hlen. unfold updateMathLoop.
  rewrite sat_loop_spec by exact Hlen. simpl.
  rewrite plane_loop_spec by exact Hlen. reflexivity.
Qed.

Lemma filter_split_length {A : Type} (f : A -> bool) (l : list A) :
  (length (List.filter f l) + length (List.filter (fun x => negb (f x)) l)
   = length l)%nat.
Proof.
  induction l as [|x l IH]; cbn [List.filter]; [reflexivity|].
  destruct (f x); cbn [negb length]; lia.
Qed.

(** C7. On a horizon of at most 2^31 samples the loop over the catalog
    returns; the visible list holds, in catalog order, an entry for each
    object that propagates and whose elevation exceeds
    [getHorizonLimit(az)]; the blocked count is the number of objects
    that propagate, are not visible and whose elevation exceeds -10.  An
    object that propagates is in exactly one of the three classes
    visible, blocked, neither; an object without a position is in
    neither the list nor the count. *)
Theorem satellites_classified (st : SK_STATE) (now : Z) :
  Z.of_nat (length (hz_az (horizon st))) <= 2 ^ 31 ->
  exists visSats blockSats visPlanes blockPlanes,
    updateMathLoop st now = Some (visSats, blockSats, visPlanes, blockPlanes) /\
    visSats = omap (sat_entry (horizon st) now) (satRecords st) /\
    blockSats
    = Z.of_nat (length (List.filter (sat_blocked (horizon st) now) (satRecords st))) /\
    (forall s pos az el dist,
       propagate (rec_handle s) now = Some pos ->
       satLookAngles pos now = (az, el, dist) ->
       let entry := {| vo_name := Str (rec_name s); vo_az := az; vo_el := el;
                       vo_dist := dist; vo_group := rec_group s |} in
       let lim := occlusion (horizon st) az in
       getHorizonLimit (horizon st) az = Some lim /\
       (((el >? lim)%num = true /\
         sat_entry (horizon st) now s = Some entry /\
         sat_blocked (horizon st) now s = false) \/
        ((el >? lim)%num = false /\ (el >? num_of_Z (-10))%num = true /\
         sat_entry (horizon st) now s = None /\
         sat_blocked (horizon st) now s = true) \/
        ((el >? lim)%num = false /\ (el >? num_of_Z (-10))%num = false /\
         sat_entry (horizon st) now s = None /\
         sat_blocked (horizon st) now s = false))) /\
    (forall s,
       propagate (rec_handle s) now = None ->
       sat_entry (horizon st) now s = None /\
       sat_blocked (horizon st) now s = false /\
       forall acc, classifySat (horizon st) now s acc = Some acc).
Proof.
  intros Hlen. do 4 eexists.
  split; [now apply updateMathLoop_spec|].
  split; [reflexivity|]. split; [reflexivity|]. split.
  - intros s pos az el dist Hp Hl entry lim.
    split; [now apply getHorizonLimit_returns|].
    unfold sat_entry, sat_blocked, sat_look. rewrite Hp.
    cbn -[num_gt num_of_Z]. rewrite Hl. cbn -[num_gt num_of_Z]. fold lim.
    destruct (el >? lim)%num; [left; auto|].
    destruct (el >? num_of_Z (-10))%num; [right; left; auto|right; right; auto].
  - intros s Hp. unfold sat_entry, sat_blocked, sat_look, classifySat.
    rewrite Hp. repeat split. now intros [vis blk].
Qed.


(** ** The orbital-catalog fetch *)

(** On a cache miss the fetch goes to the network. *)
Lemma cachedFetchText_miss (net : string -> result string)
    (url key : string) (ttl now : Z) :
  fst (cachedFetchText net ∅ url key ttl now)
  = match net url with Ok text => Ok (Str text) | Throw => Throw end.
Proof.
  unfold cachedFetchText, cacheRead, cacheReadBody, getItem.
  rewrite lookup_empty. now destruct (net url).
Qed.

(** The new catalog is what the loop has pushed on the retrieved text. *)
Lemma fetchTLEs_catalog (net : string -> result string) (st : SK_STATE)
    (ls : gmap string string) (now : Z) (text : string) :
  fst (cachedFetchText net ls TLE_URL "tles_active" TLE_FETCH_MS now)
  = Ok (Str text) ->
  satRecords (fst (fetchTLEs net st ls now))
  = fst (tle_loop (str_split LF text) []).
Proof.
  unfold fetchTLEs.
  destruct (cachedFetchText net ls TLE_URL "tles_active" TLE_FETCH_MS now) as [r ls'].
  cbn [fst]. intros ->. now destruct (tle_loop (str_split LF text) []).
Qed.

Lemma fetchTLEs_miss (net : string -> result string) (st : SK_STATE) (now : Z) :
  satRecords (fst (fetchTLEs net st ∅ now))
  = match net TLE_URL with
    | Ok text => fst (tle_loop (str_split LF text) [])
    | Throw => satRecords st
    end.
Proof.
  pose proof (cachedFetchText_miss net TLE_URL "tles_active" TLE_FETCH_MS now) as E.
  destruct (net TLE_URL) as [text|] eqn:N.
  - now apply fetchTLEs_catalog.
  - unfold fetchTLEs.
    destruct (cachedFetchText net ∅ TLE_URL "tles_active" TLE_FETCH_MS now) as [r ls'].
    cbn [fst] in E. now subst r.
Qed.

Lemma tle_loop_readable (lines : list string) (n : nat) :
  (length lines <= n)%nat ->
  forall recs,
  Forall readable (triplets lines) ->
  tle_loop lines recs = (recs ++ omap triplet_record (triplets lines), Normal).
Proof.
  revert lines. induction n as [|n IH]; intros lines Hn recs HR.
  - destruct lines; [|cbn in Hn; lia]. cbn. now rewrite app_nil_r.
  - destruct lines as [|l0 [|l1 [|l2 rest]]].
    + cbn. now rewrite app_nil_r.
    + cbn in HR. apply Forall_cons in HR as [[E|(a & b & h & Ha & _)] _];
        [|discriminate]. cbn in E. cbn. rewrite E. now rewrite app_nil_r.
    + cbn in HR. apply Forall_cons in HR as [[E|(a & b & h & _ & Hb & _)] _];
        [|discriminate]. cbn in E. cbn. rewrite E. now rewrite app_nil_r.
    + cbn [triplets] in HR. apply Forall_cons in HR as [H0 HR].
      cbn [tle_loop triplets]. cbn [length] in Hn.
      change (omap triplet_record ((l0, Some l1, Some l2) :: triplets rest))
        with (match triplet_record (l0, Some l1, Some l2) with
              | Some y => y :: omap triplet_record (triplets rest)
              | None => omap triplet_record (triplets rest)
              end).
      cbn [triplet_record].
      destruct (is_empty l0) eqn:E.
      * apply IH; [lia|exact HR].
      * destruct H0 as [E'|(a & b & h & Ha & Hb & Hh)]; [cbn in E'; congruence|].
        cbn in Ha, Hb. injection Ha as <-. injection Hb as <-. rewrite Hh.
        rewrite (IH rest) by (lia || exact HR). now rewrite <- app_assoc.
Qed.

(** C3, amended.  The loop drops a three-line group only when its name
    line is empty, and then goes on with the next.  When every group
    with a name has both element lines and [twoline2satrec] returns on
    them, the new catalog is the list of the records of all these groups,
    in order, whatever the element lines contain. *)
Theorem fetchTLEs_parses_triplets (net : string -> result string)
    (st : SK_STATE) (ls : gmap string string) (now : Z) (text : string) :
  fst (cachedFetchText net ls TLE_URL "tles_active" TLE_FETCH_MS now)
  = Ok (Str text) ->
  Forall readable (triplets (str_split LF text)) ->
  satRecords (fst (fetchTLEs net st ls now))
  = omap triplet_record (triplets (str_split LF text)) /\
  (forall l0 l1 l2 rest recs,
     is_empty l0 = true ->
     tle_loop (l0 :: l1 :: l2 :: rest) recs = tle_loop rest recs) /\
  (forall l0 l1 l2 h rest recs,
     is_empty l0 = false ->
     twoline2satrec (trim l1) (trim l2) = Ok h ->
     tle_loop (l0 :: l1 :: l2 :: rest) recs
     = tle_loop rest (recs ++ [ {| rec_handle := h; rec_name := trim l0;
                                   rec_group := getGroup (trim l0) |} ])).
Proof.
  intros Hnet HR. split; [|split].
  - rewrite (fetchTLEs_catalog net st ls now text Hnet).
    now rewrite (tle_loop_readable _ (length (str_split LF text))).
  - intros l0 l1 l2 rest recs E. cbn [tle_loop]. now rewrite E.
  - intros l0 l1 l2 h rest recs E Hh. cbn [tle_loop]. now rewrite E, Hh.
Qed.

(** C2, at the failing input.  With nothing cached and a response body
    of one line, the loop throws at the first group and the catalog is
    left empty, whatever it held before. *)
Theorem fetchTLEs_failure_clears_catalog (st : SK_STATE) (now : Z) :
  satRecords (fst (fetchTLEs (fun _ => Ok "Invalid query") st ∅ now)) = [] /\
  snd (tle_loop (str_split LF "Invalid query") []) = Abrupt.
Proof. rewrite fetchTLEs_miss. split; reflexivity. Qed.

(** A failure of the retrieval itself leaves the catalog as it was. *)
Lemma fetchTLEs_network_failure (st : SK_STATE) (now : Z) :
  satRecords (fst (fetchTLEs (fun _ => Throw) st ∅ now)) = satRecords st.
Proof. now rewrite fetchTLEs_miss. Qed.

(** * Further properties of the program *)

(** ** The occlusion query: periodicity, samples, range *)

(** A value of [[0, 360)] that differs from [y] by a multiple of 360 is
    [y mod 360]. *)
Lemma normalize360_unique (y r : Qc) (j : Z) :
  (0 <= this r)%Q -> (this r < 360)%Q ->
  (this r == this y - 360 * inject_Z j)%Q ->
  normalize360 y = r.
Proof.
  intros A B E.
  destruct (normalize360_range y) as [A3 B3].
  set (f := Qfloor (this (y / Qc_of 360)%Qc)).
  assert (E3 : (this (normalize360 y) == this y - 360 * inject_Z f)%Q).
  { unfold normalize360. fold f. qc2q. reflexivity. }
  apply Qc_inj.
  assert (I : (inject_Z (f - j) == inject_Z f - inject_Z j)%Q).
  { unfold Z.sub. rewrite !inject_Z_plus, !inject_Z_opp. ring. }
  assert (J : f - j = 0) by (apply inject_Z_small; lra).
  rewrite J in I. change (inject_Z 0) with 0%Q in I.
  lra.
Qed.

Lemma normalize360_periodic (q : Qc) (j : Z) :
  normalize360 (q + Qc_of 360 * Qc_of j) = normalize360 q.
Proof.
  destruct (normalize360_range q) as [A B].
  set (f := Qfloor (this (q / Qc_of 360)%Qc)).
  assert (E : (this (normalize360 q) == this q - 360 * inject_Z f)%Q).
  { unfold normalize360. fold f. qc2q. reflexivity. }
  apply (normalize360_unique _ _ (f + j)); [exact A|exact B|].
  rewrite E, inject_Z_plus. qc2q. change (inject_Z 360) with 360%Q. ring.
Qed.

Lemma normalize360_id (a : Qc) :
  (0 <= a)%Qc -> (a < Qc_of 360)%Qc -> normalize360 a = a.
Proof.
  intros A B. apply (normalize360_unique _ _ 0).
  - exact A.
  - exact B.
  - change (inject_Z 0) with 0%Q. ring.
Qed.

(** The two values [y mod 360] takes on [(-360, 360)]. *)
Lemma normalize360_near (y : Qc) :
  (- (360) < this y)%Q -> (this y < 360)%Q ->
  ((0 <= this y)%Q -> (this (normalize360 y) == this y)%Q) /\
  ((this y < 0)%Q -> (this (normalize360 y) == this y + 360)%Q).
Proof.
  intros A B. split; intros C.
  - rewrite (normalize360_unique y y 0); [reflexivity|lra|lra|].
    change (inject_Z 0) with 0%Q. ring.
  - rewrite (normalize360_unique y (y + Qc_of 360)%Qc (-1)).
    + qc2q. reflexivity.
    + qc2q. change (inject_Z 360) with 360%Q. lra.
    + qc2q. change (inject_Z 360) with 360%Q. lra.
    + qc2q. change (inject_Z 360) with 360%Q.
      change (inject_Z (-1)) with (- (1))%Q. ring.
Qed.

(** The query enters [getHorizonLimit] through its reduction only. *)
Lemma getHorizonLimit_turns (h : Horizon) (q : Qc) (j : Z) :
  getHorizonLimit h (Fin (q + Qc_of 360 * Qc_of j)) = getHorizonLimit h (Fin q).
Proof.
  unfold getHorizonLimit. now rewrite !normAz_Fin, normalize360_periodic.
Qed.


Lemma Sorted_lt_le (l : list Qc) : Sorted Qclt l -> Sorted Qcle l.
Proof.
  induction 1 as [|x l HS IH Hx]; constructor; [exact IH|].
  destruct Hx; constructor. now apply Qclt_le_weak.
Qed.

Lemma sorted_lt_nth (l : list Qc) :
  Sorted Qclt l ->
  forall i j, (i < j < length l)%nat -> (nth i l 0 < nth j l 0)%Qc.
Proof.
  intros HS. apply Sorted_StronglySorted in HS; [|exact Qclt_trans].
  induction HS as [|y l HS IH Hy]; intros i j Hij; simpl in *; [lia|].
  destruct i, j; try lia.
  - rewrite List.Forall_forall in Hy. apply Hy, nth_In. lia.
  - apply IH. lia.
Qed.

(** In a strictly ascending array the insertion point of an entry is its
    index. *)
Lemma insertion_point_nth (l : list Qc) (i : nat) :
  Sorted Qclt l -> (i < length l)%nat ->
  insertion_point l (nth i l 0%Qc) = i.
Proof.
  intros HS Hi. apply split_point_insertion; [lia| |].
  - intros j Hj. apply sorted_lt_nth; [exact HS|lia].
  - intros j Hj. destruct (Nat.eq_dec i j) as [->|Hne]; [apply Qcle_refl|].
    apply Qclt_le_weak, sorted_lt_nth; [exact HS|lia].
Qed.

Lemma strict_index (l : list Qc) (i j : nat) :
  Sorted Qclt l -> (i < length l)%nat -> (j < length l)%nat ->
  nth i l 0%Qc = nth j l 0%Qc -> i = j.
Proof.
  intros HS Hi Hj E.
  destruct (Nat.lt_total i j) as [L|[L|L]]; [|exact L|].
  - pose proof (sorted_lt_nth l HS i j (conj L Hj)) as C.
    rewrite E in C. exfalso. exact (Qclt_not_le _ _ C (Qcle_refl _)).
  - pose proof (sorted_lt_nth l HS j i (conj L Hi)) as C.
    rewrite E in C. exfalso. exact (Qclt_not_le _ _ C (Qcle_refl _)).
Qed.


(** On an ascending array the entries before the insertion point are
    below the value and the entries from it on are not. *)
Lemma insertion_point_split (l : list Qc) (a : Qc) :
  Sorted Qcle l ->
  forall i,
  ((i < insertion_point l a)%nat -> (nth i l 0 < a)%Qc) /\
  ((insertion_point l a <= i < length l)%nat -> (a <= nth i l 0)%Qc).
Proof.
  intros HS. apply Sorted_StronglySorted in HS; [|exact Qcle_trans].
  unfold insertion_point.
  induction HS as [|y l HS IH Hy]; intros i; cbn [List.filter length].
  - split; intros; simpl in *; lia.
  - destruct (Qc_ltb y a) eqn:C.
    + apply Qc_ltb_lt in C. cbn [length]. destruct i as [|i]; cbn [nth].
      * split; [intros _; exact C|lia].
      * destruct (IH i) as [P Q]. split; intros H; [apply P|apply Q]; lia.
    + apply Qc_ltb_ge in C.
      assert (E : List.filter (fun x => Qc_ltb x a) l = []).
      { clear IH HS. induction Hy as [|z l Hz Hl IHl]; [reflexivity|].
        cbn [List.filter].
        assert (Qc_ltb z a = false) as ->
          by (apply Qc_ltb_ge; now apply Qcle_trans with y).
        exact IHl. }
      rewrite E. cbn [length]. split; [lia|]. intros Hi.
      destruct i as [|i]; cbn [nth]; [exact C|].
      apply Qcle_trans with y; [exact C|].
      rewrite List.Forall_forall in Hy. apply Hy, nth_In. simpl in Hi. lia.
Qed.

(** A linear interpolation at a parameter between 0 and the run stays
    between its end values. *)
Lemma interpolation_between (a1 a2 run off : Qc) :
  (0 <= off)%Qc -> (off <= run)%Qc -> run <> 0%Qc ->
  let v := (a1 + (a2 - a1) / run * off)%Qc in
  ((a1 <= v)%Qc /\ (v <= a2)%Qc) \/ ((a2 <= v)%Qc /\ (v <= a1)%Qc).
Proof.
  intros H0 H1 Hr v.
  assert (Hpos : (0 < this run)%Q).
  { destruct (Qcle_lt_or_eq _ _ (Qcle_trans _ _ _ H0 H1)) as [L|L];
      [exact L|now symmetry in L]. }
  set (t := (this off / this run)%Q).
  assert (T0 : (0 <= t)%Q).
  { subst t. apply Qle_shift_div_l; [exact Hpos|]. rewrite Qmult_0_l. exact H0. }
  assert (T1 : (t <= 1)%Q).
  { subst t. apply Qle_shift_div_r; [exact Hpos|]. rewrite Qmult_1_l. exact H1. }
  assert (Ev : (this v == this a1 + (this a2 - this a1) * t)%Q).
  { subst v t. qc2q. unfold Qdiv. ring. }
  clearbody t.
  unfold Qcle. rewrite Ev.
  destruct (Qlt_le_dec (this a2) (this a1)) as [L|L]; [right|left]; split; nra.
Qed.

Lemma this_minus (x y : Qc) : (this (x - y)%Qc == this x - this y)%Q.
Proof. qc2q. reflexivity. Qed.

(** With azimuths in [[0, 360)] the query lies on the circular run from
    the lower sample of its bracket to the upper one. *)
Lemma offset_within_run (samples : list (Qc * Qc)) (q : Qc) :
  samples <> [] ->
  Sorted Qcle (map fst samples) ->
  Forall (fun s => (0 <= fst s)%Qc /\ (fst s < Qc_of 360)%Qc) samples ->
  let az1 := fst (lower_sample samples q) in
  let az2 := fst (upper_sample samples q) in
  normalize360 (az2 - az1) <> 0%Qc ->
  (normalize360 (normalize360 q - az1) <= normalize360 (az2 - az1))%Qc.
Proof.
  intros Hne HS HR az1 az2 Hrun.
  assert (Hn : (0 < length samples)%nat) by (destruct samples; simpl; [congruence|lia]).
  destruct (bracket_in samples q Hne) as [H1 H2].
  rewrite List.Forall_forall in HR.
  destruct (HR _ H1) as [L1 U1]. destruct (HR _ H2) as [L2 U2].
  fold az1 in L1, U1. fold az2 in L2, U2.
  destruct (normalize360_bounds q) as [La Ua].
  pose proof (insertion_point_le (map fst samples) (normalize360 q)) as Hk.
  rewrite length_map in Hk.
  pose proof (insertion_point_split (map fst samples) (normalize360 q) HS) as Hsplit.
  pose proof (sorted_nth (map fst samples) HS) as Hmono.
  rewrite length_map in Hmono.
  assert (E1 : az1 = nth (if (insertion_point (map fst samples) (normalize360 q) =? 0)%nat
                          then length samples - 1
                          else insertion_point (map fst samples) (normalize360 q) - 1)%nat
                         (map fst samples) 0%Qc)
    by (now rewrite nth_fst).
  assert (E2 : az2 = nth (if (insertion_point (map fst samples) (normalize360 q)
                              =? length samples)%nat
                          then 0
                          else insertion_point (map fst samples) (normalize360 q))%nat
                         (map fst samples) 0%Qc)
    by (now rewrite nth_fst).
  set (a := normalize360 q) in *.
  set (k := insertion_point (map fst samples) a) in *.
  set (n := length samples) in *.
  assert (Hord : ((az2 <= az1)%Qc /\ ((a <= az2)%Qc \/ (az1 < a)%Qc)) \/
                 ((az1 < a)%Qc /\ (a <= az2)%Qc)).
  { destruct (Nat.eqb_spec k 0) as [K0|K0].
    - left. destruct (Nat.eqb_spec k n) as [Kn|Kn]; [lia|].
      rewrite E1, E2, K0. split.
      + apply Hmono. lia.
      + left. apply (Hsplit 0%nat). rewrite length_map. fold k n. lia.
    - destruct (Nat.eqb_spec k n) as [Kn|Kn].
      + left. rewrite E1, E2. split.
        * apply Hmono. lia.
        * right. apply (Hsplit (k - 1)%nat). fold k. lia.
      + right. rewrite E1, E2. split.
        * apply (Hsplit (k - 1)%nat). fold k. lia.
        * apply (Hsplit k). rewrite length_map. fold k n. lia. }
  clear E1 E2 Hsplit Hmono.
  pose proof (this_minus az2 az1) as M1. pose proof (this_minus a az1) as M2.
  unfold Qcle, Qclt in *. change (this (Qc_of 360)) with 360%Q in *.
  change (this 0%Qc) with 0%Q in *.
  assert (N1 : (- (360) < this (az2 - az1)%Qc)%Q /\ (this (az2 - az1)%Qc < 360)%Q)
    by (split; lra).
  assert (N2 : (- (360) < this (a - az1)%Qc)%Q /\ (this (a - az1)%Qc < 360)%Q)
    by (split; lra).
  destruct (normalize360_near _ (proj1 N1) (proj2 N1)) as [P1 Q1].
  destruct (normalize360_near _ (proj1 N2) (proj2 N2)) as [P2 Q2].
  assert (R0 : ~ (this (az2 - az1)%Qc == 0)%Q).
  { intros C. apply Hrun. apply Qc_inj. change (this 0%Qc) with 0%Q.
    rewrite P1; lra. }
  destruct Hord as [[O1 O2]|[O1 O2]].
  - assert (Y1 : (this (az2 - az1)%Qc < 0)%Q) by lra.
    rewrite (Q1 Y1). destruct O2 as [O2|O2].
    + destruct (Qlt_le_dec (this (a - az1)%Qc) 0) as [Y2|Y2].
      * rewrite (Q2 Y2). lra.
      * rewrite (P2 Y2). lra.
    + rewrite P2; lra.
  - rewrite P1, P2; lra.
Qed.


(** ** The horizon loader: tables without rows, order of the rows *)

Lemma str_split_no_sep (sep : ascii) (s : string) :
  has_char sep s = false -> str_split sep s = [s].
Proof.
  induction s as [|c s IH]; intros H; [reflexivity|].
  cbn [has_char] in H. apply orb_false_iff in H as [Hc Hs].
  cbn [str_split]. rewrite Hc, (IH Hs). reflexivity.
Qed.

Lemma kept_samples_one_line (text : string) :
  has_char LF text = false -> kept_samples text = [].
Proof.
  intros H. unfold kept_samples. now rewrite (str_split_no_sep _ _ H).
Qed.

Lemma csv_profile_no_rows (text : string) :
  kept_samples text = [] -> csv_profile text = {| hz_az := []; hz_alt := [] |}.
Proof. intros H. rewrite csv_profile_sorted_kept, H. reflexivity. Qed.

(** X4. A table that keeps no row -- a text of a single line such as an
    error page, or a header followed by rows of fewer than three
    fields -- loads as the empty profile, whatever profile was stored
    before, and from then on the limit is -5 at every azimuth, [NaN] and
    the infinities included. *)
Theorem parseHorizonCsv_no_rows (st : SK_STATE) (text : string) (az : num) :
  has_char LF text = false \/ kept_samples text = [] ->
  horizon (parseHorizonCsv st text) = {| hz_az := []; hz_alt := [] |} /\
  getHorizonLimit (horizon (parseHorizonCsv st text)) az = Some (num_of_Z (-5)).
Proof.
  intros H.
  assert (K : kept_samples text = [])
    by (destruct H as [H|H]; [now apply kept_samples_one_line|exact H]).
  cbn [parseHorizonCsv horizon]. rewrite (csv_profile_no_rows text K).
  split; reflexivity.
Qed.

Lemma num_le_trans (a b c : num) :
  num_le a b = true -> num_le b c = true -> num_le a c = true.
Proof.
  destruct a as [|s|x], b as [|t|y], c as [|u|z]; unfold num_le;
    cbn [num_lt num_eqb]; try discriminate; try (destruct s, t, u; reflexivity || discriminate);
    try (destruct s; reflexivity || discriminate);
    try (destruct t; reflexivity || discriminate);
    try (destruct u; reflexivity || discriminate);
    try (destruct s, t; reflexivity || discriminate);
    try (destruct s, u; reflexivity || discriminate);
    try (destruct t, u; reflexivity || discriminate).
  intros H1 H2.
  assert (L1 : (x <= y)%Qc) by (apply num_le_Fin; exact H1).
  assert (L2 : (y <= z)%Qc) by (apply num_le_Fin; exact H2).
  destruct (Qcle_lt_or_eq _ _ (Qcle_trans _ _ _ L1 L2)) as [L|L].
  - apply Qc_ltb_lt in L. now rewrite L.
  - apply Qc_eqb_eq in L. rewrite L. apply orb_true_r.
Qed.

Lemma num_le_antisym (a b : num) :
  num_le a b = true -> num_le b a = true -> a = b.
Proof.
  destruct a as [|s|x], b as [|t|y]; unfold num_le; cbn [num_lt num_eqb];
    try discriminate.
  - destruct s, t; (reflexivity || discriminate).
  - destruct s; discriminate.
  - destruct t; discriminate.
  - intros H1 H2. f_equal. apply Qcle_antisym; apply num_le_Fin; assumption.
Qed.

Lemma NoDup_fst_inj {A B : Type} (l : list (A * B)) (x y : A * B) :
  List.NoDup (map fst l) -> In x l -> In y l -> fst x = fst y -> x = y.
Proof.
  induction l as [|z l IH]; intros ND Hx Hy E; [destruct Hx|].
  cbn [map] in ND. apply NoDup_cons_iff in ND as [Hz ND].
  destruct Hx as [->|Hx], Hy as [->|Hy].
  - reflexivity.
  - exfalso. apply Hz. rewrite E. now apply in_map.
  - exfalso. apply Hz. rewrite <- E. now apply in_map.
  - now apply IH.
Qed.

(** Two ascending arrangements of the same samples are equal when no two
    samples share an azimuth. *)
Lemma ascending_unique (l1 : list (num * num)) :
  forall l2,
  Sorted ascending l1 -> Sorted ascending l2 ->
  Permutation l1 l2 -> List.NoDup (map fst l1) -> l1 = l2.
Proof.
  assert (T : Relations_1.Transitive ascending).
  { intros a b c. unfold ascending. apply num_le_trans. }
  induction l1 as [|x l1 IH]; intros l2 S1 S2 P ND.
  - apply Permutation_nil in P. now subst.
  - destruct l2 as [|y l2]; [symmetry in P; now apply Permutation_nil in P|].
    assert (E : x = y).
    { apply Sorted_StronglySorted in S1; [|exact T].
      apply Sorted_StronglySorted in S2; [|exact T].
      apply StronglySorted_inv in S1 as [_ F1].
      apply StronglySorted_inv in S2 as [_ F2].
      rewrite List.Forall_forall in F1, F2.
      assert (Hx : In x (y :: l2)) by (eapply Permutation_in; [exact P|now left]).
      assert (Hy : In y (x :: l1))
        by (eapply Permutation_in; [symmetry; exact P|now left]).
      destruct Hx as [Hx|Hx]; [now symmetry|].
      destruct Hy as [Hy|Hy]; [exact Hy|].
      apply (NoDup_fst_inj (x :: l1)); [exact ND|now left|now right|].
      apply num_le_antisym; [apply (F1 _ Hy)|apply (F2 _ Hx)]. }
    subst y. f_equal. apply IH.
    + now apply Sorted_inv in S1.
    + now apply Sorted_inv in S2.
    + now apply Permutation_cons_inv in P.
    + cbn [map] in ND. now apply NoDup_cons_iff in ND.
Qed.

(** X5. The order of the rows of a terrain table does not matter: two
    tables that keep the same samples, in any order, load as the same
    profile, provided no kept azimuth is [NaN] and no two kept rows have
    the same azimuth. *)
Theorem csv_profile_row_order (text1 text2 : string) :
  Permutation (kept_samples text1) (kept_samples text2) ->
  Forall (fun s => is_NaN (fst s) = false) (kept_samples text1) ->
  List.NoDup (map fst (kept_samples text1)) ->
  csv_profile text1 = csv_profile text2.
Proof.
  intros P HF ND.
  rewrite !csv_profile_sorted_kept.
  assert (E : js_sort by_azimuth (kept_samples text1)
              = js_sort by_azimuth (kept_samples text2)).
  { apply ascending_unique.
    - now apply js_sort_sorted.
    - apply js_sort_sorted. eapply Permutation_Forall; [exact P|exact HF].
    - rewrite !js_sort_perm. exact P.
    - eapply Permutation_NoDup; [|exact ND].
      apply Permutation_map. symmetry. apply js_sort_perm. }
  now rewrite E.
Qed.

(** ** The cache: what a read depends on *)

(** A read looks at the entry under its key only. *)
Lemma cacheRead_frame (ls ls' : gmap string string) (key : string)
    (ttl now : Z) :
  ls !! key = ls' !! key ->
  cacheRead ls key ttl now = cacheRead ls' key ttl now.
Proof.
  intros H. unfold cacheRead, cacheReadBody, getItem. now rewrite H.
Qed.

(** A write touches the entry under its key only. *)
Lemma cacheWrite_frame (ls : gmap string string) (key key' : string)
    (v : jsval) (now : Z) :
  key <> key' -> cacheWrite ls key v now !! key' = ls !! key'.
Proof.
  intros H. unfold cacheWrite, setItem.
  destruct (storage_fits _); [|reflexivity].
  now apply lookup_insert_ne.
Qed.

(** An entry that is stale, unreadable or missing stays so as the clock
    advances. *)
Lemma cacheRead_miss_mono (ls : gmap string string) (key : string)
    (ttl now now' : Z) :
  now <= now' ->
  cacheRead ls key ttl now = None -> cacheRead ls key ttl now' = None.
Proof.
  intros Hle. unfold cacheRead, cacheReadBody.
  destruct (getItem ls key) as [raw|]; [|reflexivity].
  destruct (is_empty raw); [reflexivity|].
  destruct (JSON_parse raw) as [obj|]; [|reflexivity]. cbn [bind].
  destruct (getProp obj "ts") as [ts|]; [|reflexivity]. cbn [bind].
  destruct (ToNumber ts) as [|s|t]; unfold num_of_Z, num_sub;
    cbn [num_neg num_add num_lt].
  - reflexivity.
  - destruct s; cbn [negb]; [reflexivity|].
    destruct (getProp obj "data"); [discriminate|reflexivity].
  - destruct (Qc_ltb (Qc_of now + - t) (Qc_of ttl)) eqn:E.
    + destruct (getProp obj "data"); cbn [bind]; [discriminate|].
      intros _. now destruct (Qc_ltb (Qc_of now' + - t) (Qc_of ttl)).
    + intros _. apply Qc_ltb_ge in E.
      assert (E' : Qc_ltb (Qc_of now' + - t) (Qc_of ttl) = false).
      { apply Qc_ltb_ge. revert E. qc2q. intros E.
        assert (inject_Z now <= inject_Z now')%Q by (now rewrite <- Zle_Qle).
        lra. }
      now rewrite E'.
Qed.

(** The payload of an entry does not depend on when it is read. *)
Lemma cacheRead_stable (ls : gmap string string) (key : string)
    (ttl now now' : Z) (d d' : jsval) :
  cacheRead ls key ttl now = Some d -> cacheRead ls key ttl now' = Some d' ->
  d = d'.
Proof.
  unfold cacheRead, cacheReadBody.
  destruct (getItem ls key) as [raw|]; [|discriminate].
  destruct (is_empty raw); [discriminate|].
  destruct (JSON_parse raw) as [obj|]; [|discriminate]. cbn [bind].
  destruct (getProp obj "ts") as [ts|]; [|discriminate]. cbn [bind].
  destruct (num_of_Z now - ToNumber ts <? num_of_Z ttl)%num; [|discriminate].
  destruct (num_of_Z now' - ToNumber ts <? num_of_Z ttl)%num; [|discriminate].
  destruct (getProp obj "data"); cbn [bind]; congruence.
Qed.

(** ** The terrain fetch *)

Lemma fetchHorizon_first (net : string -> result string) (st : SK_STATE)
    (ls : gmap string string) (now1 now2 : Z) (text : string) :
  fst (cachedFetchText net ls HORIZON_LOCAL HORIZON_KEY HORIZON_TTL now1)
  = Ok (Str text) ->
  fetchHorizon net st ls now1 now2
  = (parseHorizonCsv st text,
     snd (cachedFetchText net ls HORIZON_LOCAL HORIZON_KEY HORIZON_TTL now1)).
Proof.
  intros H. unfold fetchHorizon.
  destruct (cachedFetchText net ls HORIZON_LOCAL HORIZON_KEY HORIZON_TTL now1)
    as [r1 ls1]. cbn [fst snd] in *. now rewrite H.
Qed.

(** X6. The local copy of the terrain table comes first and is final:
    when the cache or the local request answers with a text, that text
    is parsed and the stored profile replaced by it; what the remote
    service would answer plays no part.  This holds of any text, also
    of one that keeps no row (an error page served for the local path):
    the profile is then empty and the limit -5 at every azimuth. *)
Theorem fetchHorizon_local_first (net : string -> result string)
    (st : SK_STATE) (ls : gmap string string) (now1 now2 : Z) (text : string) :
  cacheRead ls HORIZON_KEY HORIZON_TTL now1 = Some (Str text) \/
  (cacheRead ls HORIZON_KEY HORIZON_TTL now1 = None /\
   net HORIZON_LOCAL = Ok text) ->
  fst (fetchHorizon net st ls now1 now2) = parseHorizonCsv st text /\
  (forall net',
     net' HORIZON_LOCAL = net HORIZON_LOCAL ->
     fetchHorizon net' st ls now1 now2 = fetchHorizon net st ls now1 now2) /\
  (kept_samples text = [] ->
   forall az,
     getHorizonLimit (horizon (fst (fetchHorizon net st ls now1 now2))) az
     = Some (num_of_Z (-5))).
Proof.
  intros H.
  assert (F : forall net', net' HORIZON_LOCAL = net HORIZON_LOCAL ->
            fst (cachedFetchText net' ls HORIZON_LOCAL HORIZON_KEY HORIZON_TTL now1)
            = Ok (Str text) /\
            snd (cachedFetchText net' ls HORIZON_LOCAL HORIZON_KEY HORIZON_TTL now1)
            = snd (cachedFetchText net ls HORIZON_LOCAL HORIZON_KEY HORIZON_TTL now1)).
  { intros net' Hn. unfold cachedFetchText. rewrite Hn.
    destruct H as [->|[-> ->]]; now split. }
  destruct (F net eq_refl) as [F1 _].
  split; [now rewrite (fetchHorizon_first _ _ _ _ _ _ F1)|].
  split.
  - intros net' Hn. destruct (F net' Hn) as [G1 G2].
    rewrite (fetchHorizon_first _ _ _ _ _ _ F1),
            (fetchHorizon_first _ _ _ _ _ _ G1). now rewrite G2.
  - intros K az. rewrite (fetchHorizon_first _ _ _ _ _ _ F1). cbn [fst].
    cbn [parseHorizonCsv horizon]. now rewrite (csv_profile_no_rows text K).
Qed.

(** X7. The fallback of the terrain fetch.  With nothing fresh in the
    cache and a local request that fails, the remote service is asked: its
    text is parsed, replaces the stored profile and is written to the
    cache under the key the local copy would have used; when the remote
    request fails too, the state and the cache are left exactly as they
    were. *)
Theorem fetchHorizon_fallback (net : string -> result string)
    (st : SK_STATE) (ls : gmap string string) (now1 now2 : Z) :
  now1 <= now2 ->
  cacheRead ls HORIZON_KEY HORIZON_TTL now1 = None ->
  net HORIZON_LOCAL = Throw ->
  fetchHorizon net st ls now1 now2
  = match net HORIZON_REMOTE with
    | Ok text =>
        (parseHorizonCsv st text, cacheWrite ls HORIZON_KEY (Str text) now2)
    | Throw => (st, ls)
    end.
Proof.
  intros Hle Hmiss Hlocal.
  pose proof (cacheRead_miss_mono _ _ _ _ _ Hle Hmiss) as Hmiss2.
  unfold fetchHorizon, cachedFetchText.
  rewrite Hmiss, Hlocal. cbn [bind]. rewrite Hmiss2.
  now destruct (net HORIZON_REMOTE).
Qed.

(** X8. A fresh cache entry whose payload is not a text stops the
    terrain fetch and the catalog fetch: the payload has no [split], both
    attempts of [fetchHorizon] read the same entry, and nothing is asked
    of the network; the state and the cache stay as they were, whatever
    the network would answer. *)
Theorem cached_payload_not_text (net : string -> result string)
    (st : SK_STATE) (ls : gmap string string) (now1 now2 : Z) (d : jsval) :
  (forall s, d <> Str s) ->
  (cacheRead ls HORIZON_KEY HORIZON_TTL now1 = Some d ->
   is_Some (cacheRead ls HORIZON_KEY HORIZON_TTL now2) ->
   fetchHorizon net st ls now1 now2 = (st, ls)) /\
  (cacheRead ls "tles_active" TLE_FETCH_MS now1 = Some d ->
   fetchTLEs net st ls now1 = (st, ls)).
Proof.
  intros Hd. split.
  - intros H1 [d' H2].
    assert (d = d') as <- by (eapply cacheRead_stable; eassumption).
    unfold fetchHorizon, cachedFetchText. rewrite H1. cbn [bind].
    assert (P : parseHorizonCsv_value st d = Throw).
    { destruct d; try reflexivity. now contradiction (Hd s). }
    rewrite P, H2. cbn [bind]. now rewrite P.
  - intros H1. unfold fetchTLEs, cachedFetchText. rewrite H1.
    destruct d; try reflexivity. now contradiction (Hd s).
Qed.

(** ** The fetchers side by side *)

Lemma cachedFetchText_frame (net : string -> result string)
    (ls ls' : gmap string string) (url key : string) (ttl now : Z) :
  ls !! key = ls' !! key ->
  fst (cachedFetchText net ls url key ttl now)
  = fst (cachedFetchText net ls' url key ttl now).
Proof.
  intros H. unfold cachedFetchText.
  rewrite (cacheRead_frame ls ls' key ttl now H).
  destruct (cacheRead ls' key ttl now); [reflexivity|].
  now destruct (net url).
Qed.

Lemma cachedFetchText_other_keys (net : string -> result string)
    (ls : gmap string string) (url key key' : string) (ttl now : Z) :
  key <> key' ->
  snd (cachedFetchText net ls url key ttl now) !! key' = ls !! key'.
Proof.
  intros H. unfold cachedFetchText.
  destruct (cacheRead ls key ttl now); [reflexivity|].
  destruct (net url); [|reflexivity]. now apply cacheWrite_frame.
Qed.

(** An attempt that does not end with a text leaves the store as it
    was. *)
Lemma cachedFetchText_no_text (net : string -> result string)
    (ls : gmap string string) (url key : string) (ttl now : Z) :
  (forall s, fst (cachedFetchText net ls url key ttl now) <> Ok (Str s)) ->
  snd (cachedFetchText net ls url key ttl now) = ls.
Proof.
  unfold cachedFetchText.
  destruct (cacheRead ls key ttl now); [reflexivity|].
  destruct (net url) as [text|]; [|reflexivity].
  intros H. now contradiction (H text).
Qed.

Lemma fetchTLEs_effect (net : string -> result string)
    (ls : gmap string string) (now : Z) :
  exists o, forall st ls',
    ls' !! "tles_active" = ls !! "tles_active" ->
    fst (fetchTLEs net st ls' now) = with_catalog st o.
Proof.
  destruct (fst (cachedFetchText net ls TLE_URL "tles_active" TLE_FETCH_MS now))
    as [d|] eqn:E.
  - destruct d as [| | | |text| |];
      try (exists None; intros st ls' H; unfold fetchTLEs;
           pose proof (cachedFetchText_frame net ls' ls TLE_URL "tles_active"
                         TLE_FETCH_MS now H) as F; rewrite E in F;
           destruct (cachedFetchText net ls' TLE_URL "tles_active" TLE_FETCH_MS now)
             as [r l]; cbn [fst] in F; now subst r).
    exists (Some (fst (tle_loop (str_split LF text) []))).
    intros st ls' H. unfold fetchTLEs.
    pose proof (cachedFetchText_frame net ls' ls TLE_URL "tles_active"
                  TLE_FETCH_MS now H) as F. rewrite E in F.
    destruct (cachedFetchText net ls' TLE_URL "tles_active" TLE_FETCH_MS now)
      as [r l]. cbn [fst] in F. subst r.
    now destruct (tle_loop (str_split LF text) []).
  - exists None. intros st ls' H. unfold fetchTLEs.
    pose proof (cachedFetchText_frame net ls' ls TLE_URL "tles_active"
                  TLE_FETCH_MS now H) as F. rewrite E in F.
    destruct (cachedFetchText net ls' TLE_URL "tles_active" TLE_FETCH_MS now)
      as [r l]. cbn [fst] in F. now subst r.
Qed.

Lemma fetchTLEs_other_keys (net : string -> result string) (st : SK_STATE)
    (ls : gmap string string) (now : Z) (key : string) :
  key <> "tles_active" ->
  snd (fetchTLEs net st ls now) !! key = ls !! key.
Proof.
  intros H. unfold fetchTLEs.
  pose proof (cachedFetchText_other_keys net ls TLE_URL "tles_active" key
                TLE_FETCH_MS now (not_eq_sym H)) as F.
  destruct (cachedFetchText net ls TLE_URL "tles_active" TLE_FETCH_MS now)
    as [r l]. cbn [snd] in F.
  destruct r as [[| | | |text| |]|]; try exact F.
  now destruct (tle_loop (str_split LF text) []).
Qed.

(** The outcome of one attempt of [fetchHorizon]. *)
Lemma horizon_attempt (st : SK_STATE) (r : result jsval) :
  (let? text := r in parseHorizonCsv_value st text)
  = match r with
    | Ok (Str s) => Ok (with_horizon st (Some (csv_profile s)))
    | _ => Throw
    end.
Proof. destruct r as [[| | | |s| |]|]; reflexivity. Qed.

Lemma fetchHorizon_effect (net : string -> result string)
    (ls : gmap string string) (now1 now2 : Z) :
  exists o, forall st ls',
    ls' !! HORIZON_KEY = ls !! HORIZON_KEY ->
    fst (fetchHorizon net st ls' now1 now2) = with_horizon st o.
Proof.
  set (r1 := fst (cachedFetchText net ls HORIZON_LOCAL HORIZON_KEY HORIZON_TTL now1)).
  set (r2 := fst (cachedFetchText net ls HORIZON_REMOTE HORIZON_KEY HORIZON_TTL now2)).
  exists (match r1 with
          | Ok (Str s) => Some (csv_profile s)
          | _ => match r2 with
                 | Ok (Str s) => Some (csv_profile s)
                 | _ => None
                 end
          end).
  intros st ls' H. unfold fetchHorizon.
  pose proof (cachedFetchText_frame net ls' ls HORIZON_LOCAL HORIZON_KEY
                HORIZON_TTL now1 H) as F1. fold r1 in F1.
  pose proof (cachedFetchText_no_text net ls' HORIZON_LOCAL HORIZON_KEY
                HORIZON_TTL now1) as N1. rewrite F1 in N1.
  destruct (cachedFetchText net ls' HORIZON_LOCAL HORIZON_KEY HORIZON_TTL now1)
    as [q1 l1]. cbn [fst snd] in F1, N1. subst q1.
  rewrite horizon_attempt.
  assert (S : (forall s, r1 <> Ok (Str s)) ->
              (let '(r2', ls2) :=
                 cachedFetchText net l1 HORIZON_REMOTE HORIZON_KEY HORIZON_TTL now2 in
               match (let? text := r2' in parseHorizonCsv_value st text) with
               | Ok st' => (st', ls2)
               | Throw => (st, ls2)
               end).1
              = with_horizon st match r2 with
                                | Ok (Str s) => Some (csv_profile s)
                                | _ => None
                                end).
  { intros Hn. rewrite (N1 Hn).
    pose proof (cachedFetchText_frame net ls' ls HORIZON_REMOTE HORIZON_KEY
                  HORIZON_TTL now2 H) as F2. fold r2 in F2.
    destruct (cachedFetchText net ls' HORIZON_REMOTE HORIZON_KEY HORIZON_TTL now2)
      as [q2 l2]. cbn [fst] in F2. subst q2.
    rewrite horizon_attempt. now destruct r2 as [[| | | |s| |]|]. }
  destruct r1 as [[| | | |s| |]|]; try (apply S; discriminate).
  reflexivity.
Qed.

Lemma fetchHorizon_other_keys (net : string -> result string) (st : SK_STATE)
    (ls : gmap string string) (now1 now2 : Z) (key : string) :
  key <> HORIZON_KEY ->
  snd (fetchHorizon net st ls now1 now2) !! key = ls !! key.
Proof.
  intros H. unfold fetchHorizon.
  pose proof (cachedFetchText_other_keys net ls HORIZON_LOCAL HORIZON_KEY key
                HORIZON_TTL now1 (not_eq_sym H)) as F1.
  destruct (cachedFetchText net ls HORIZON_LOCAL HORIZON_KEY HORIZON_TTL now1)
    as [r1 l1]. cbn [snd] in F1.
  destruct (let? text := r1 in parseHorizonCsv_value st text); [exact F1|].
  pose proof (cachedFetchText_other_keys net l1 HORIZON_REMOTE HORIZON_KEY key
                HORIZON_TTL now2 (not_eq_sym H)) as F2.
  destruct (cachedFetchText net l1 HORIZON_REMOTE HORIZON_KEY HORIZON_TTL now2)
    as [r2 l2]. cbn [snd] in F2.
  destruct (let? text := r2 in parseHorizonCsv_value st text); cbn [snd];
    now rewrite F2.
Qed.

(** X9. The catalog fetch and the terrain fetch, which [init] starts
    together, do not interfere: each replaces its own component of the
    state or leaves the state alone, reads the cache under its own key
    only, and leaves every entry of the cache under another key as it
    was; the state after both is the same whichever of the two comes
    first. *)
Theorem catalog_and_terrain_independent (net : string -> result string)
    (st : SK_STATE) (ls : gmap string string) (now now1 now2 : Z) :
  let a := fetchTLEs net st ls now in
  let b := fetchHorizon net st ls now1 now2 in
  planes (fst a) = planes st /\ horizon (fst a) = horizon st /\
  planes (fst b) = planes st /\ satRecords (fst b) = satRecords st /\
  (forall key, key <> "tles_active" -> snd a !! key = ls !! key) /\
  (forall key, key <> HORIZON_KEY -> snd b !! key = ls !! key) /\
  fst (fetchHorizon net (fst a) (snd a) now1 now2)
  = fst (fetchTLEs net (fst b) (snd b) now).
Proof.
  intros a b.
  destruct (fetchTLEs_effect net ls now) as [oc Hc].
  destruct (fetchHorizon_effect net ls now1 now2) as [oh Hh].
  assert (Ea : fst a = with_catalog st oc) by (apply Hc; reflexivity).
  assert (Eb : fst b = with_horizon st oh) by (apply Hh; reflexivity).
  split; [rewrite Ea; now destruct oc|].
  split; [rewrite Ea; now destruct oc|].
  split; [rewrite Eb; now destruct oh|].
  split; [rewrite Eb; now destruct oh|].
  split; [intros key H; now apply fetchTLEs_other_keys|].
  split; [intros key H; now apply fetchHorizon_other_keys|].
  rewrite (Hh (fst a) (snd a)), (Hc (fst b) (snd b)).
  - rewrite Ea, Eb. now destruct oc, oh.
  - apply fetchHorizon_other_keys. discriminate.
  - apply fetchTLEs_other_keys. discriminate.
Qed.

(** ** Names and groups *)

Lemma prefix_spec (p s : string) :
  String.prefix p s = true <-> exists r, s = (p ++ r)%string.
Proof.
  revert s. induction p as [|c p IH]; intros s.
  - split; [intros _; now exists s|intros _; now destruct s].
  - destruct s as [|d s]; cbn [String.prefix].
    + split; [discriminate|intros [r H]; discriminate].
    + destruct (ascii_dec c d) as [->|Hne].
      * rewrite IH. split; intros [r H]; exists r.
        -- cbn. now rewrite H.
        -- cbn in H. now injection H.
      * split; [discriminate|]. intros [r H]. simpl in H.
        injection H as H1 _. now contradiction Hne.
Qed.

Lemma includes_spec (sub s : string) :
  includes sub s = true <-> occurs_in sub s.
Proof.
  unfold occurs_in. induction s as [|c s IH]; cbn [includes].
  - rewrite orb_false_r, prefix_spec. split.
    + intros [r H]. exists "", r. exact H.
    + intros (a & b & H). destruct a; [now exists b|discriminate].
  - rewrite orb_true_iff, prefix_spec, IH. split.
    + intros [[r H]|(a & b & H)].
      * exists "", r. exact H.
      * exists (String c a), b. cbn. now rewrite H.
    + intros (a & b & H). destruct a as [|d a].
      * left. now exists b.
      * right. exists a, b. cbn in H. now injection H.
Qed.

Lemma includes_false (sub s : string) :
  includes sub s = false <-> ~ occurs_in sub s.
Proof.
  rewrite <- includes_spec. now destruct (includes sub s).
Qed.

Lemma getGroup_range (name : string) :
  In (getGroup name) ["STARLINK"; "MUOS"; "GPS"; "ONEWEB"; "OTHER"].
Proof.
  unfold getGroup.
  destruct (includes "STARLINK" name); [cbn; tauto|].
  destruct (includes "MUOS" name); [cbn; tauto|].
  destruct (includes "GPS" name); [cbn; tauto|].
  destruct (includes "ONEWEB" name); cbn; tauto.
Qed.

(** X10. [getGroup] classifies a name by the first of the fragments
    STARLINK, MUOS, GPS, ONEWEB that occurs in it, in this order of
    precedence, and as OTHER exactly when none occurs; the comparison is
    by exact characters, and the result is always one of the five
    groups. *)
Theorem getGroup_precedence (name : string) :
  (getGroup name = "STARLINK" <-> occurs_in "STARLINK" name) /\
  (getGroup name = "MUOS" <->
   ~ occurs_in "STARLINK" name /\ occurs_in "MUOS" name) /\
  (getGroup name = "GPS" <->
   ~ occurs_in "STARLINK" name /\ ~ occurs_in "MUOS" name /\
   occurs_in "GPS" name) /\
  (getGroup name = "ONEWEB" <->
   ~ occurs_in "STARLINK" name /\ ~ occurs_in "MUOS" name /\
   ~ occurs_in "GPS" name /\ occurs_in "ONEWEB" name) /\
  (getGroup name = "OTHER" <->
   ~ occurs_in "STARLINK" name /\ ~ occurs_in "MUOS" name /\
   ~ occurs_in "GPS" name /\ ~ occurs_in "ONEWEB" name) /\
  In (getGroup name) ["STARLINK"; "MUOS"; "GPS"; "ONEWEB"; "OTHER"].
Proof.
  unfold getGroup.
  destruct (includes "STARLINK" name) eqn:S;
    [apply includes_spec in S|apply includes_false in S].
  { repeat split; try tauto; try discriminate; cbn; tauto. }
  destruct (includes "MUOS" name) eqn:M;
    [apply includes_spec in M|apply includes_false in M].
  { repeat split; try tauto; try discriminate; cbn; tauto. }
  destruct (includes "GPS" name) eqn:G;
    [apply includes_spec in G|apply includes_false in G].
  { repeat split; try tauto; try discriminate; cbn; tauto. }
  destruct (includes "ONEWEB" name) eqn:O;
    [apply includes_spec in O|apply includes_false in O].
  { repeat split; try tauto; try discriminate; cbn; tauto. }
  repeat split; try tauto; try discriminate; cbn; tauto.
Qed.

(** ** White space and trimming *)

Lemma append_nil_l (s : string) : ("" ++ s)%string = s.
Proof. reflexivity. Qed.

Lemma append_cons (a : ascii) (s t : string) :
  (String a s ++ t)%string = String a (s ++ t)%string.
Proof. reflexivity. Qed.

Lemma string_length_ind (P : string -> Prop) :
  (forall s, (forall t, (String.length t < String.length s)%nat -> P t) -> P s) ->
  forall s, P s.
Proof.
  intros H s. remember (String.length s) as n eqn:E. revert s E.
  induction n as [n IH] using lt_wf_ind. intros s ->.
  apply H. intros t Ht. now apply (IH (String.length t)).
Qed.

Lemma trimStart_unfold (s : string) :
  trimStart s = match ws_head s with Some r => trimStart r | None => s end.
Proof.
  destruct s as [|a r1]; [reflexivity|]. cbn [trimStart ws_head].
  destruct (is_ws a); [reflexivity|].
  destruct r1 as [|b r2]; [reflexivity|].
  destruct (is_ws2 a b); [reflexivity|].
  destruct r2 as [|c r3]; [reflexivity|].
  now destruct (is_ws3 a b c).
Qed.

Lemma ws_head_app (s r t : string) :
  ws_head s = Some r -> ws_head (s ++ t) = Some (r ++ t)%string.
Proof.
  destruct s as [|a r1]; [discriminate|]. rewrite append_cons. cbn [ws_head].
  destruct (is_ws a); [now intros [= <-]|].
  destruct r1 as [|b r2]; [discriminate|]. rewrite append_cons.
  destruct (is_ws2 a b); [now intros [= <-]|].
  destruct r2 as [|c r3]; [discriminate|]. rewrite append_cons.
  destruct (is_ws3 a b c); [now intros [= <-]|discriminate].
Qed.

Lemma ws_head_length (s r : string) :
  ws_head s = Some r -> (String.length r < String.length s)%nat.
Proof.
  destruct s as [|a r1]; [discriminate|]. cbn [ws_head].
  destruct (is_ws a); [intros [= <-]; cbn; lia|].
  destruct r1 as [|b r2]; [discriminate|].
  destruct (is_ws2 a b); [intros [= <-]; cbn; lia|].
  destruct r2 as [|c r3]; [discriminate|].
  destruct (is_ws3 a b c); [intros [= <-]; cbn; lia|discriminate].
Qed.

(** A trimmed front does not start with white space. *)
Lemma trimStart_head (s : string) : ws_head (trimStart s) = None.
Proof.
  induction s as [s IH] using string_length_ind.
  rewrite trimStart_unfold. destruct (ws_head s) as [r|] eqn:E; [|exact E].
  apply IH. now apply ws_head_length.
Qed.

Lemma trimStart_fix (s : string) : ws_head s = None -> trimStart s = s.
Proof. intros H. now rewrite trimStart_unfold, H. Qed.

(** White space at the front goes, whatever follows it. *)
Lemma trimStart_app (a b : string) :
  is_empty (trimStart a) = true -> trimStart (a ++ b) = trimStart b.
Proof.
  induction a as [a IH] using string_length_ind. intros H.
  destruct a as [|c a']; [reflexivity|].
  rewrite trimStart_unfold in H.
  destruct (ws_head (String c a')) as [r|] eqn:E; [|discriminate].
  rewrite trimStart_unfold, (ws_head_app _ r b E).
  apply IH; [now apply ws_head_length|exact H].
Qed.

(** What [trimEnd] cuts off is white space. *)
Lemma trimEnd_split (s : string) :
  exists r, s = (trimEnd s ++ r)%string /\ is_empty (trimStart r) = true.
Proof.
  induction s as [|c s (r & IH & Hr)].
  - now exists "".
  - cbn [trimEnd]. destruct (is_empty (trimStart (String c s))) eqn:E.
    + now exists (String c s).
    + exists r. rewrite append_cons. now rewrite <- IH.
Qed.

Lemma trimEnd_idem (s : string) : trimEnd (trimEnd s) = trimEnd s.
Proof.
  induction s as [|c s IH]; [reflexivity|]. cbn [trimEnd].
  destruct (is_empty (trimStart (String c s))) eqn:E; [reflexivity|].
  cbn [trimEnd]. rewrite IH.
  destruct (is_empty (trimStart (String c (trimEnd s)))) eqn:F; [|reflexivity].
  destruct (trimEnd_split s) as (r & Hs & Hr).
  rewrite Hs, <- append_cons, (trimStart_app _ r F), Hr in E. discriminate.
Qed.

Lemma trimEnd_head (t : string) :
  ws_head t = None -> ws_head (trimEnd t) = None.
Proof.
  intros H. destruct (ws_head (trimEnd t)) as [x|] eqn:E; [|reflexivity].
  destruct (trimEnd_split t) as (r & Ht & _).
  rewrite Ht, (ws_head_app _ x r E) in H. discriminate.
Qed.

(** [trim] leaves a trimmed string as it is. *)
Lemma trim_idem (s : string) : trim (trim s) = trim s.
Proof.
  unfold trim.
  rewrite (trimStart_fix (trimEnd (trimStart s))).
  - apply trimEnd_idem.
  - apply trimEnd_head, trimStart_head.
Qed.

Ltac bool_hyps :=
  repeat match goal with
  | H : (_ || _)%bool = true |- _ => apply orb_true_iff in H; destruct H as [H|H]
  | H : (_ && _)%bool = true |- _ =>
      let H1 := fresh H in apply andb_true_iff in H; destruct H as [H H1]
  | H : Nat.eqb _ _ = true |- _ => apply Nat.eqb_eq in H
  | H : Nat.leb _ _ = true |- _ => apply Nat.leb_le in H
  end.

(** A white-space character of one byte is no part of a longer one. *)
Lemma is_ws_not_tail (c : ascii) :
  is_ws c = true ->
  forall a b, is_ws2 a c = false /\ is_ws3 a b c = false.
Proof.
  intros H a b. unfold is_ws in H. cbv zeta in H. split.
  - destruct (is_ws2 a c) eqn:E; [|reflexivity]. unfold is_ws2 in E.
    bool_hyps; lia.
  - destruct (is_ws3 a b c) eqn:E; [|reflexivity]. unfold is_ws3 in E.
    cbv zeta in E. bool_hyps; lia.
Qed.

Lemma ws_head_snoc_none (s : string) (c : ascii) :
  is_ws c = true -> ws_head s = None -> s <> "" ->
  ws_head (s ++ String c "") = None.
Proof.
  intros Hc H Hs. destruct s as [|a r1]; [contradiction|].
  rewrite append_cons. cbn [ws_head] in *.
  destruct (is_ws a); [discriminate|].
  destruct r1 as [|b r2].
  - rewrite append_nil_l. now rewrite (proj1 (is_ws_not_tail c Hc a a)).
  - rewrite append_cons. destruct (is_ws2 a b); [discriminate|].
    destruct r2 as [|d r3].
    + rewrite append_nil_l. now rewrite (proj2 (is_ws_not_tail c Hc a b)).
    + rewrite append_cons. now destruct (is_ws3 a b d).
Qed.

Lemma trimStart_snoc_ws (s : string) (c : ascii) :
  is_ws c = true ->
  trimStart (s ++ String c "")
  = match trimStart s with
    | EmptyString => EmptyString
    | t => (t ++ String c "")%string
    end.
Proof.
  intros Hc. induction s as [s IH] using string_length_ind.
  destruct s as [|a s'].
  - rewrite append_nil_l. cbn [trimStart]. now rewrite Hc.
  - rewrite (trimStart_unfold (String a s')), (trimStart_unfold (_ ++ _)).
    destruct (ws_head (String a s')) as [r|] eqn:E.
    + rewrite (ws_head_app _ r _ E). apply IH. now apply ws_head_length.
    + now rewrite (ws_head_snoc_none _ c Hc E).
Qed.

Lemma trimEnd_snoc_ws (s : string) (c : ascii) :
  is_ws c = true -> trimEnd (s ++ String c "") = trimEnd s.
Proof.
  intros Hc. induction s as [|a s IH].
  - rewrite append_nil_l. cbn [trimEnd trimStart]. now rewrite Hc.
  - rewrite append_cons. cbn [trimEnd]. rewrite IH, <- append_cons.
    rewrite (trimStart_snoc_ws _ c Hc).
    destruct (trimStart (String a s)) as [|x t]; reflexivity.
Qed.

Lemma tle_loop_invariant (P : satrec -> Prop) (lines : list string) (n : nat) :
  (forall h l0, P {| rec_handle := h; rec_name := trim l0;
                     rec_group := getGroup (trim l0) |}) ->
  (length lines <= n)%nat ->
  forall recs, Forall P recs -> Forall P (fst (tle_loop lines recs)).
Proof.
  intros HP. revert lines. induction n as [|n IH]; intros lines Hn recs HR.
  - destruct lines; [exact HR|cbn in Hn; lia].
  - destruct lines as [|l0 [|l1 [|l2 rest]]]; cbn [tle_loop].
    + exact HR.
    + now destruct (is_empty l0).
    + now destruct (is_empty l0).
    + cbn [length] in Hn. destruct (is_empty l0).
      * apply IH; [lia|exact HR].
      * destruct (twoline2satrec (trim l1) (trim l2)) as [h|]; [|exact HR].
        apply IH; [lia|]. apply Forall_app. split; [exact HR|].
        constructor; [apply HP|constructor].
Qed.

(** X11. The catalog fetch keeps the catalog well grouped: whatever the
    cache and the network answer, and also when the parsing loop is cut
    short by an exception, every record of the catalog after [fetchTLEs]
    has a name without white space at either end and the group
    [getGroup] gives that name, provided the records before had. *)
Theorem fetchTLEs_grouped_by_name (net : string -> result string)
    (st : SK_STATE) (ls : gmap string string) (now : Z) :
  Forall grouped_by_name (satRecords st) ->
  Forall grouped_by_name (satRecords (fst (fetchTLEs net st ls now))) /\
  Forall (fun r => In (rec_group r) ["STARLINK"; "MUOS"; "GPS"; "ONEWEB"; "OTHER"])
         (satRecords (fst (fetchTLEs net st ls now))).
Proof.
  intros H.
  assert (G : Forall grouped_by_name (satRecords (fst (fetchTLEs net st ls now)))).
  { unfold fetchTLEs.
    destruct (cachedFetchText net ls TLE_URL "tles_active" TLE_FETCH_MS now)
      as [[[| | | |text| |]|] ls']; try exact H.
    assert (L : Forall grouped_by_name (fst (tle_loop (str_split LF text) []))).
    { apply (tle_loop_invariant grouped_by_name _ (length (str_split LF text)));
        [|lia|constructor].
      intros h l0. split; cbn [rec_group rec_name]; [reflexivity|apply trim_idem]. }
    now destruct (tle_loop (str_split LF text) []) as [recs c]. }
  split; [exact G|].
  eapply Forall_impl; [exact G|].
  intros r [-> _]. apply getGroup_range.
Qed.

(** ** The aircraft fetch: what becomes of the entries *)

(** An entry found after a record has been processed was there before,
    or has just been written. *)
Lemma upsert_entry (now : Z) (p : jsval) (pl : gmap string plane)
    (valid : list jsval) (k : string) (e : plane) :
  (fst (upsert now p (pl, valid))).1 !! k = Some e ->
  pl !! k = Some e \/ (p_last_update e = now /\ well_keyed k e).
Proof.
  unfold upsert.
  destruct (getProp p "lat") as [lat|]; [|now left].
  destruct (truthy lat) eqn:Tlat; cbn [negb]; [|now left].
  destruct (getProp p "lon") as [lon|]; [|now left].
  destruct (truthy lon) eqn:Tlon; cbn [negb]; [|now left].
  destruct (getProp p "hex") as [hex|]; [|now left].
  destruct (callsign_of p) as [c|]; cbn [bind]; [|now left].
  destruct (alt_ft_of p) as [a|]; cbn [bind fst snd]; [|now left].
  destruct (decide (ToPropertyKey hex = k)) as [<-|Hne].
  - match goal with
    | |- assign_plane ?k ?e0 pl !! _ = _ -> _ =>
        destruct (assign_plane_cases k e0 pl) as [E|(E & _ & _)]; rewrite E
    end.
    + intros [= <-]. right. now repeat split.
    + now left.
  - rewrite assign_plane_ne by exact Hne. now left.
Qed.

(** Processing a record removes nothing. *)
Lemma upsert_keeps (now : Z) (p : jsval) (pl : gmap string plane)
    (valid : list jsval) (k : string) :
  is_Some (pl !! k) -> is_Some ((fst (upsert now p (pl, valid))).1 !! k).
Proof.
  intros H. unfold upsert.
  destruct (getProp p "lat") as [lat|]; [|exact H].
  destruct (truthy lat); cbn [negb]; [|exact H].
  destruct (getProp p "lon") as [lon|]; [|exact H].
  destruct (truthy lon); cbn [negb]; [|exact H].
  destruct (getProp p "hex") as [hex|]; [|exact H].
  destruct (callsign_of p) as [c|]; cbn [bind]; [|exact H].
  destruct (alt_ft_of p) as [a|]; cbn [bind fst snd]; [|exact H].
  destruct (decide (ToPropertyKey hex = k)) as [<-|Hne].
  - rewrite assign_plane_eq by (right; exact H). now eexists.
  - now rewrite assign_plane_ne.
Qed.

Lemma forEach_upsert_entry (now : Z) (recs : list jsval) (k : string) (e : plane) :
  forall (pl : gmap string plane) (valid : list jsval),
  (fst (forEach (upsert now) recs (pl, valid))).1 !! k = Some e ->
  pl !! k = Some e \/ (p_last_update e = now /\ well_keyed k e).
Proof.
  induction recs as [|r recs IH]; intros pl valid; cbn [forEach]; [now left|].
  pose proof (upsert_entry now r pl valid k e) as U.
  destruct (upsert now r (pl, valid)) as [[pl' valid'] [|]]; cbn [fst snd] in *.
  - intros H. destruct (IH pl' valid' H) as [H'|H']; [now apply U|now right].
  - exact U.
Qed.

Lemma forEach_upsert_keeps (now : Z) (recs : list jsval) (k : string) :
  forall (pl : gmap string plane) (valid : list jsval),
  is_Some (pl !! k) ->
  is_Some ((fst (forEach (upsert now) recs (pl, valid))).1 !! k).
Proof.
  induction recs as [|r recs IH]; intros pl valid H; cbn [forEach]; [exact H|].
  pose proof (upsert_keeps now r pl valid k H) as U.
  destruct (upsert now r (pl, valid)) as [[pl' valid'] [|]]; cbn [fst snd] in *.
  - now apply IH.
  - exact U.
Qed.

(** An entry stored under a key of [validHexes] has been written at
    this refresh, as long as no record has thrown. *)
Lemma upsert_valid (now : Z) (p : jsval) (pl : gmap string plane)
    (valid : list jsval) :
  (forall k e, has valid k = true -> pl !! k = Some e ->
               p_last_update e = now) ->
  snd (upsert now p (pl, valid)) = Normal ->
  forall k e, has (fst (upsert now p (pl, valid))).2 k = true ->
              (fst (upsert now p (pl, valid))).1 !! k = Some e ->
              p_last_update e = now.
Proof.
  intros Inv. unfold upsert.
  destruct (getProp p "lat") as [lat|]; [|discriminate].
  destruct (truthy lat); cbn [negb]; [|intros _; exact Inv].
  destruct (getProp p "lon") as [lon|]; [|discriminate].
  destruct (truthy lon); cbn [negb]; [|intros _; exact Inv].
  destruct (getProp p "hex") as [hex|]; [|discriminate].
  destruct (callsign_of p) as [c|]; cbn [bind]; [|discriminate].
  destruct (alt_ft_of p) as [a|]; cbn [bind fst snd]; [|discriminate].
  intros _ k e Hk. rewrite has_app in Hk.
  destruct (decide (ToPropertyKey hex = k)) as [<-|Hne].
  - match goal with
    | |- assign_plane ?k ?e0 pl !! _ = _ -> _ =>
        destruct (assign_plane_cases k e0 pl) as [E|(E & N & _)]; rewrite E
    end.
    + now intros [= <-].
    + rewrite N. discriminate.
  - rewrite assign_plane_ne by exact Hne.
    rewrite (has_singleton_key hex k Hne), orb_false_r in Hk. now apply Inv.
Qed.

Lemma forEach_upsert_valid (now : Z) (recs : list jsval) :
  forall (pl : gmap string plane) (valid : list jsval),
  (forall k e, has valid k = true -> pl !! k = Some e ->
               p_last_update e = now) ->
  snd (forEach (upsert now) recs (pl, valid)) = Normal ->
  forall k e, has (fst (forEach (upsert now) recs (pl, valid))).2 k = true ->
              (fst (forEach (upsert now) recs (pl, valid))).1 !! k = Some e ->
              p_last_update e = now.
Proof.
  induction recs as [|r recs IH]; intros pl valid Inv; cbn [forEach].
  - intros _. exact Inv.
  - pose proof (upsert_valid now r pl valid Inv) as U.
    destruct (upsert now r (pl, valid)) as [[pl' valid'] [|]]; cbn [fst snd] in *.
    + intros Hc. apply IH; [|exact Hc]. now apply U.
    + discriminate.
Qed.

(** The refresh on every input: the pair it hands to the cleanup, or the
    map it leaves when it does not get there. *)
Lemma refreshPlanes_cases (now : Z) (data : jsval) (pl : gmap string plane) :
  exists recs,
    refreshPlanes now data pl
    = (if completes now data pl
       then cleanup now (fst (forEach (upsert now) recs (pl, []))).2
                        (fst (forEach (upsert now) recs (pl, []))).1
       else (fst (forEach (upsert now) recs (pl, []))).1) /\
    (completes now data pl = true ->
     snd (forEach (upsert now) recs (pl, [])) = Normal).
Proof.
  unfold refreshPlanes, completes.
  destruct (getProp data "ac") as [ac|]; [|exists []; split; [reflexivity|discriminate]].
  destruct (truthy ac); [|exists []; split; reflexivity].
  destruct ac as [| | | | |recs|];
    try (exists []; split; [reflexivity|discriminate]).
  exists recs.
  destruct (forEach (upsert now) recs (pl, [])) as [[pl1 valid] [|]];
    split; (reflexivity || discriminate).
Qed.

Lemma cleanup_entry (now : Z) (valid : list jsval) (pl : gmap string plane)
    (k : string) (e : plane) :
  cleanup now valid pl !! k = Some e ->
  pl !! k = Some e /\ doomed now valid k e = false.
Proof.
  rewrite cleanup_lookup. destruct (pl !! k) as [p|]; [|discriminate].
  destruct (doomed now valid k p) eqn:D; [discriminate|].
  intros [= <-]. now split.
Qed.

Lemma refreshPlanes_entry (now : Z) (data : jsval) (pl : gmap string plane)
    (k : string) (e : plane) :
  refreshPlanes now data pl !! k = Some e ->
  pl !! k = Some e \/ (p_last_update e = now /\ well_keyed k e).
Proof.
  destruct (refreshPlanes_cases now data pl) as (recs & -> & _).
  destruct (completes now data pl).
  - intros H. apply cleanup_entry in H as [H _].
    now apply (forEach_upsert_entry now recs k e pl []).
  - apply (forEach_upsert_entry now recs k e pl []).
Qed.

(** X12. The aircraft fetch never edits an entry in place: whatever the
    cache and the network answer, an entry found after [fetchPlanes]
    either was there before, unchanged, or was written by this fetch,
    and then it carries the clock reading of the fetch, is stored under
    the key of its own [hex] and has truthy coordinates.  So entries
    stored under their own key with truthy coordinates stay so. *)
Theorem fetchPlanes_entries (net : string -> result jsval) (st : SK_STATE)
    (ls : gmap string string) (t0 now : Z) :
  let after := planes (fst (fetchPlanes net st ls t0 now)) in
  (forall k e,
     after !! k = Some e ->
     planes st !! k = Some e \/ (p_last_update e = now /\ well_keyed k e)) /\
  (map_Forall well_keyed (planes st) -> map_Forall well_keyed after) /\
  satRecords (fst (fetchPlanes net st ls t0 now)) = satRecords st /\
  horizon (fst (fetchPlanes net st ls t0 now)) = horizon st.
Proof.
  intros after.
  assert (E : forall k e, after !! k = Some e ->
              planes st !! k = Some e \/ (p_last_update e = now /\ well_keyed k e)).
  { intros k e. subst after. rewrite fetchPlanes_refreshes.
    destruct (fst (cachedFetchJson net ls PLANES_URL PLANES_KEY PLANE_FETCH_MS t0))
      as [data|]; [apply refreshPlanes_entry|now left]. }
  split; [exact E|]. split.
  - intros Inv k e H. destruct (E k e H) as [H'|[_ H']]; [now apply Inv|exact H'].
  - unfold fetchPlanes.
    destruct (cachedFetchJson net ls PLANES_URL PLANES_KEY PLANE_FETCH_MS t0)
      as [[data|] ls']; now split.
Qed.

(** X13. After an aircraft fetch whose refresh reaches the cleanup, no
    tracked aircraft is older than the grace window: every entry has
    [now - last_update <= 15000], whatever was tracked before and
    whatever the snapshot holds. *)
Theorem fetchPlanes_none_stale (net : string -> result jsval) (st : SK_STATE)
    (ls : gmap string string) (t0 now : Z) (data : jsval) :
  fst (cachedFetchJson net ls PLANES_URL PLANES_KEY PLANE_FETCH_MS t0) = Ok data ->
  completes now data (planes st) = true ->
  forall k e,
    planes (fst (fetchPlanes net st ls t0 now)) !! k = Some e ->
    now - p_last_update e <= 15000.
Proof.
  intros Hfetch Hc k e. rewrite fetchPlanes_refreshes, Hfetch.
  destruct (refreshPlanes_cases now data (planes st)) as (recs & -> & Hn).
  rewrite Hc. specialize (Hn Hc). intros H.
  apply cleanup_entry in H as [H D]. unfold doomed in D.
  apply andb_false_iff in D as [D|D].
  - apply negb_false_iff in D.
    rewrite (forEach_upsert_valid now recs (planes st) []
               ltac:(intros j e0 Hj; discriminate) Hn k e D H).
    lia.
  - rewrite Z.gtb_ltb in D. apply Z.ltb_ge in D. exact D.
Qed.

(** X14. An aircraft fetch that does not reach its cleanup removes
    nothing: when the retrieval fails, or the snapshot cannot be read, or
    a record throws, every aircraft that was tracked is still tracked,
    however old its entry; when the retrieval itself fails the tracked
    aircraft are exactly as before. *)
Theorem fetchPlanes_failure_keeps_all (net : string -> result jsval)
    (st : SK_STATE) (ls : gmap string string) (t0 now : Z) :
  match fst (cachedFetchJson net ls PLANES_URL PLANES_KEY PLANE_FETCH_MS t0) with
  | Ok data => completes now data (planes st) = false
  | Throw => True
  end ->
  (forall k, is_Some (planes st !! k) ->
             is_Some (planes (fst (fetchPlanes net st ls t0 now)) !! k)) /\
  (fst (cachedFetchJson net ls PLANES_URL PLANES_KEY PLANE_FETCH_MS t0) = Throw ->
   fst (fetchPlanes net st ls t0 now) = st).
Proof.
  intros H. split.
  - intros k Hk. rewrite fetchPlanes_refreshes.
    destruct (fst (cachedFetchJson net ls PLANES_URL PLANES_KEY PLANE_FETCH_MS t0))
      as [data|]; [|exact Hk].
    destruct (refreshPlanes_cases now data (planes st)) as (recs & -> & _).
    rewrite H. now apply forEach_upsert_keeps.
  - unfold fetchPlanes.
    destruct (cachedFetchJson net ls PLANES_URL PLANES_KEY PLANE_FETCH_MS t0)
      as [[data|] ls']; [discriminate|reflexivity].
Qed.

Lemma upsert_no_proto (now : Z) (p : jsval) (pl : gmap string plane)
    (valid : list jsval) :
  pl !! "__proto__" = None ->
  (fst (upsert now p (pl, valid))).1 !! "__proto__" = None.
Proof.
  intros H. unfold upsert.
  destruct (getProp p "lat") as [lat|]; [|exact H].
  destruct (truthy lat); cbn [negb]; [|exact H].
  destruct (getProp p "lon") as [lon|]; [|exact H].
  destruct (truthy lon); cbn [negb]; [|exact H].
  destruct (getProp p "hex") as [hex|]; [|exact H].
  destruct (callsign_of p) as [c|]; cbn [bind]; [|exact H].
  destruct (alt_ft_of p) as [a|]; cbn [bind fst snd]; [|exact H].
  destruct (decide (ToPropertyKey hex = "__proto__")) as [E|Hne].
  - rewrite E. now rewrite assign_plane_proto.
  - now rewrite assign_plane_ne.
Qed.

Lemma forEach_upsert_no_proto (now : Z) (recs : list jsval) :
  forall (pl : gmap string plane) (valid : list jsval),
  pl !! "__proto__" = None ->
  (fst (forEach (upsert now) recs (pl, valid))).1 !! "__proto__" = None.
Proof.
  induction recs as [|r recs IH]; intros pl valid H; cbn [forEach]; [exact H|].
  pose proof (upsert_no_proto now r pl valid H) as U.
  destruct (upsert now r (pl, valid)) as [[pl' valid'] [|]]; cbn [fst snd] in *.
  - now apply IH.
  - exact U.
Qed.

(** X15. An aircraft fetch served from the cache asks nothing of the
    network and leaves the cache as it is, and it stamps the aircraft of
    the cached snapshot with the clock reading of this fetch, not with
    the time the snapshot was retrieved: every record of the snapshot
    that passes the coordinate guard and whose key is not [__proto__] is
    tracked with [last_update = now] when the refresh completes. *)
Theorem fetchPlanes_cache_hit (net : string -> result jsval) (st : SK_STATE)
    (ls : gmap string string) (t0 now : Z) (data : jsval) :
  cacheRead ls PLANES_KEY PLANE_FETCH_MS t0 = Some data ->
  (forall net', fetchPlanes net' st ls t0 now = fetchPlanes net st ls t0 now) /\
  snd (fetchPlanes net st ls t0 now) = ls /\
  planes (fst (fetchPlanes net st ls t0 now))
  = refreshPlanes now data (planes st) /\
  (forall recs r,
     getProp data "ac" = Ok (Arr recs) ->
     completes now data (planes st) = true ->
     In r recs -> accepted r = true -> record_key r <> "__proto__" ->
     exists e,
       planes (fst (fetchPlanes net st ls t0 now)) !! record_key r = Some e /\
       p_last_update e = now).
Proof.
  intros Hhit.
  assert (E : forall net',
            fetchPlanes net' st ls t0 now
            = ({| satRecords := satRecords st;
                  planes := refreshPlanes now data (planes st);
                  horizon := horizon st |}, ls)).
  { intros net'. unfold fetchPlanes, cachedFetchJson. now rewrite Hhit. }
  split; [intros net'; now rewrite !E|].
  rewrite E. cbn [fst snd planes]. split; [reflexivity|]. split; [reflexivity|].
  intros recs r Hac Hc Hin Ha Hk.
  apply (refreshPlanes_tracks now data recs (planes st) r Hac);
    [|exact Hin|exact Ha|exact Hk].
  unfold completes in Hc. rewrite Hac in Hc. cbn [truthy] in Hc.
  now destruct (snd (forEach (upsert now) recs (planes st, []))).
Qed.

(** X30. No aircraft is ever tracked under the name [__proto__]: the
    assignment [SK_STATE.planes[hex] = ...] with that [hex] reaches the
    setter of [Object.prototype] and creates no property, so such a
    record of the feed, which passes the coordinate guard and is counted
    in [validHexes], never becomes an entry, whatever the cache and the
    network answer. *)
Theorem fetchPlanes_never_tracks_proto (net : string -> result jsval)
    (st : SK_STATE) (ls : gmap string string) (t0 now : Z) :
  planes st !! "__proto__" = None ->
  planes (fst (fetchPlanes net st ls t0 now)) !! "__proto__" = None /\
  (forall fs pl valid,
     ToPropertyKey (field fs "hex") = "__proto__" ->
     pl !! "__proto__" = None ->
     (fst (upsert now (Obj fs) (pl, valid))).1 = pl).
Proof.
  intros H. split.
  - rewrite fetchPlanes_refreshes.
    destruct (fst (cachedFetchJson net ls PLANES_URL PLANES_KEY PLANE_FETCH_MS t0))
      as [data|]; [|exact H].
    destruct (refreshPlanes_cases now data (planes st)) as (recs & -> & _).
    pose proof (forEach_upsert_no_proto now recs (planes st) [] H) as N.
    destruct (completes now data (planes st)); [|exact N].
    rewrite cleanup_lookup. now rewrite N.
  - intros fs pl valid Hk Hp. unfold upsert. rewrite !getProp_Obj.
    destruct (truthy (field fs "lat")); cbn [negb]; [|reflexivity].
    destruct (truthy (field fs "lon")); cbn [negb]; [|reflexivity].
    destruct (callsign_of (Obj fs)) as [c|]; cbn [bind]; [|reflexivity].
    destruct (alt_ft_of (Obj fs)) as [a|]; cbn [bind fst snd]; [|reflexivity].
    rewrite Hk. now apply assign_plane_proto.
Qed.

(** ** The classification without a horizon, and on [NaN] *)

Lemma occlusion_empty (h : Horizon) (az : num) :
  hz_az h = [] -> occlusion h az = num_of_Z (-5).
Proof. intros H. unfold occlusion, getHorizonLimit. now rewrite H. Qed.

Lemma threshold_without_horizon :
  (num_of_Z (-5) - Fin (Q2Qc 0.5))%num = Fin (Q2Qc (-11 # 2)).
Proof.
  unfold num_of_Z, num_sub. cbn [num_neg num_add]. now f_equal.
Qed.

(** X16. While no terrain profile is loaded the tick classifies against
    fixed thresholds: a satellite that propagates is listed as visible
    exactly when its elevation exceeds -5 degrees and counted as blocked
    exactly when its elevation is above -10 and not above -5; an
    aircraft is listed exactly when its elevation exceeds -5.5 degrees,
    and counted as blocked otherwise. *)
Theorem updateMathLoop_without_horizon (st : SK_STATE) (now : Z) :
  hz_az (horizon st) = [] ->
  exists visSats blockSats visPlanes blockPlanes,
    updateMathLoop st now = Some (visSats, blockSats, visPlanes, blockPlanes) /\
    visSats = omap (sat_entry (horizon st) now) (satRecords st) /\
    blockSats
    = Z.of_nat (length (List.filter (sat_blocked (horizon st) now) (satRecords st))) /\
    visPlanes
    = map plane_entry
        (List.filter (plane_visible (horizon st)) (values (planes st))) /\
    blockPlanes = Z.of_nat (size (planes st)) - Z.of_nat (length visPlanes) /\
    (forall s pos az el dist,
       propagate (rec_handle s) now = Some pos ->
       satLookAngles pos now = (az, el, dist) ->
       (is_Some (sat_entry (horizon st) now s)
        <-> (el >? num_of_Z (-5))%num = true) /\
       sat_blocked (horizon st) now s
       = negb (el >? num_of_Z (-5))%num && (el >? num_of_Z (-10))%num) /\
    (forall p az el dist,
       planeLookAngles p = (az, el, dist) ->
       plane_visible (horizon st) p = (el >? Fin (Q2Qc (-11 # 2)))%num).
Proof.
  intros Hempty.
  assert (Hlen : Z.of_nat (length (hz_az (horizon st))) <= 2 ^ 31)
    by (rewrite Hempty; simpl; lia).
  do 4 eexists.
  split; [now apply updateMathLoop_spec|].
  split; [reflexivity|]. split; [reflexivity|]. split; [reflexivity|]. split.
  - rewrite length_map.
    pose proof (filter_split_length (plane_visible (horizon st)) (values (planes st))) as F.
    assert (L : length (values (planes st)) = size (planes st))
      by (unfold values; now rewrite length_fmap, length_map_to_list).
    lia.
  - split.
    + intros s pos az el dist Hp Hl.
      unfold sat_entry, sat_blocked, sat_look. rewrite Hp.
      cbn -[num_gt num_of_Z]. rewrite Hl. cbn -[num_gt num_of_Z].
      rewrite (occlusion_empty _ az Hempty).
      destruct (el >? num_of_Z (-5))%num; split; try reflexivity.
      * split; [reflexivity|intros _; now eexists].
      * split; [intros [x Hx]; discriminate|discriminate].
    + intros p az el dist Hl. unfold plane_visible. rewrite Hl.
      now rewrite (occlusion_empty _ az Hempty), threshold_without_horizon.
Qed.

Lemma NaN_not_above (x : num) : (NaN >? x)%num = false.
Proof. now destruct x. Qed.

(** X17. An elevation that is not a number never compares as above a
    limit: an aircraft whose look angles give [NaN] as elevation is
    counted as blocked, and a satellite whose elevation is [NaN] is
    neither listed nor counted, on every horizon. *)
Theorem updateMathLoop_NaN_elevation (h : Horizon) (now : Z)
    (acc : list VisibleObject * Z) :
  Z.of_nat (length (hz_az h)) <= 2 ^ 31 ->
  (forall p az dist,
     planeLookAngles p = (az, NaN, dist) ->
     classifyPlane h p acc = Some (fst acc, snd acc + 1)) /\
  (forall s pos az dist,
     propagate (rec_handle s) now = Some pos ->
     satLookAngles pos now = (az, NaN, dist) ->
     classifySat h now s acc = Some acc).
Proof.
  intros Hlen. destruct acc as [vis blk]. split.
  - intros p az dist Hl. rewrite classifyPlane_step by exact Hlen.
    unfold plane_visible. rewrite Hl. now rewrite NaN_not_above.
  - intros s pos az dist Hp Hl. rewrite classifySat_step by exact Hlen.
    unfold sat_entry, sat_blocked, sat_look. rewrite Hp.
    cbn -[num_gt num_of_Z]. rewrite Hl. cbn -[num_gt num_of_Z].
    rewrite !NaN_not_above. cbn. now rewrite app_nil_r, Z.add_0_r.
Qed.

(** ** The plots: grouping *)

Lemma members_app (g : string) (xs ys : list VisibleObject) :
  members g (xs ++ ys) = members g xs ++ members g ys.
Proof. unfold members. apply List.filter_app. Qed.

Lemma points_of_snoc (objs : list VisibleObject) (obj : VisibleObject) :
  points_of (objs ++ [obj])
  = {| g_az := g_az (points_of objs) ++ [vo_az obj];
       g_el := g_el (points_of objs) ++ [vo_el obj];
       g_txt := g_txt (points_of objs)
                ++ [makeLabel (vo_name obj) (vo_dist obj)] |}.
Proof. unfold points_of. cbn [g_az g_el g_txt]. now rewrite !map_app. Qed.

Lemma group_of_app (g k : string) (d : points) (groups : list (string * points)) :
  group_of g (groups ++ [(k, d)])
  = match group_of g groups with
    | Some x => Some x
    | None => if String.eqb g k then Some d else None
    end.
Proof.
  induction groups as [|[k' d'] groups IH]; cbn [app group_of]; [reflexivity|].
  now destruct (String.eqb g k').
Qed.

Lemma group_of_push (g k : string) (az el : num) (txt : string)
    (groups : list (string * points)) :
  group_of g (push_point k az el txt groups)
  = if String.eqb g k
    then match group_of g groups with
         | Some d => Some {| g_az := g_az d ++ [az]; g_el := g_el d ++ [el];
                             g_txt := g_txt d ++ [txt] |}
         | None => None
         end
    else group_of g groups.
Proof.
  induction groups as [|[k' d'] groups IH]; cbn [push_point group_of].
  - now destruct (String.eqb g k).
  - destruct (String.eqb k k') eqn:E.
    + apply String.eqb_eq in E. subst k'. cbn [group_of].
      now destruct (String.eqb g k).
    + cbn [group_of]. destruct (String.eqb g k') eqn:E'.
      * apply String.eqb_eq in E'. subst k'.
        rewrite String.eqb_sym in E. now rewrite E.
      * exact IH.
Qed.

Lemma keys_push (k : string) (az el : num) (txt : string)
    (groups : list (string * points)) :
  map fst (push_point k az el txt groups) = map fst groups.
Proof.
  induction groups as [|[k' d'] groups IH]; cbn [push_point map]; [reflexivity|].
  destruct (String.eqb k k'); cbn [map fst]; [reflexivity|now rewrite IH].
Qed.

Lemma group_of_key (g : string) (groups : list (string * points)) :
  is_Some (group_of g groups) <-> In g (map fst groups).
Proof.
  induction groups as [|[k d] groups IH]; cbn [group_of map fst In].
  - split; [intros [x H]; discriminate|tauto].
  - destruct (String.eqb g k) eqn:E.
    + apply String.eqb_eq in E. split; [now left|intros _; now eexists].
    + apply String.eqb_neq in E. rewrite IH. split; [now right|].
      intros [H|H]; [now contradiction E|exact H].
Qed.

Lemma collect_step (seen : list VisibleObject) (obj : VisibleObject)
    (groups : list (string * points)) :
  collected seen groups -> collected (seen ++ [obj]) (collect obj groups).
Proof.
  intros [ND Inv]. unfold collect. fold (drawn_group obj).
  set (k := drawn_group obj).
  set (groups1 := match group_of k groups with
                  | Some _ => groups
                  | None => groups ++ [(k, no_points)]
                  end).
  assert (ND1 : List.NoDup (map fst groups1)).
  { subst groups1. destruct (group_of k groups) eqn:E; [exact ND|].
    rewrite map_app. cbn [map fst].
    apply (Permutation_NoDup (l := k :: map fst groups));
      [apply Permutation_cons_append|].
    constructor; [|exact ND].
    intros Hin. apply group_of_key in Hin. rewrite E in Hin.
    destruct Hin as [x Hx]. discriminate. }
  assert (Inv1 : forall g, match group_of g groups1 with
                           | Some d => d = points_of (members g seen)
                           | None => members g seen = []
                           end).
  { intros g. subst groups1. pose proof (Inv g) as Hg.
    destruct (group_of k groups) eqn:E; [exact Hg|].
    rewrite group_of_app. destruct (group_of g groups); [exact Hg|].
    destruct (String.eqb g k) eqn:Egk; [|exact Hg].
    now rewrite Hg. }
  assert (Hk : is_Some (group_of k groups1)).
  { subst groups1. destruct (group_of k groups) eqn:E; [rewrite E; now eexists|].
    rewrite group_of_app, E, String.eqb_refl. now eexists. }
  split; [now rewrite keys_push|].
  intros g. rewrite group_of_push, members_app. pose proof (Inv1 g) as Hg.
  change (members g [obj])
    with (if String.eqb (drawn_group obj) g then [obj] else []).
  fold k. rewrite (String.eqb_sym k g).
  destruct (String.eqb g k) eqn:Egk.
  - apply String.eqb_eq in Egk. subst g. destruct Hk as [d Hd].
    rewrite Hd in *. subst d. now rewrite points_of_snoc.
  - rewrite !app_nil_r. exact Hg.
Qed.

Lemma collected_start :
  collected [] (map (fun k => (k, no_points)) PRIORITY_GROUPS).
Proof.
  split.
  - cbn. repeat constructor; cbn; intuition discriminate.
  - intros g. cbn [map PRIORITY_GROUPS group_of].
    destruct (String.eqb g "Aircraft"); [reflexivity|].
    destruct (String.eqb g "STARLINK"); [reflexivity|].
    destruct (String.eqb g "MUOS"); reflexivity.
Qed.

Lemma collected_foldl (objs : list VisibleObject) :
  forall seen groups,
  collected seen groups ->
  collected (seen ++ objs) (foldl (fun groups obj => collect obj groups) groups objs).
Proof.
  induction objs as [|obj objs IH]; intros seen groups H; cbn [foldl].
  - now rewrite app_nil_r.
  - replace (seen ++ obj :: objs) with ((seen ++ [obj]) ++ objs)
      by (now rewrite <- app_assoc).
    apply IH. now apply collect_step.
Qed.

Lemma groups_of_collected (sats ac : list VisibleObject) :
  collected (ac ++ sats) (groups_of sats ac).
Proof. apply (collected_foldl (ac ++ sats) []). apply collected_start. Qed.

(** The keys of [groups] begin with the three priority groups. *)
Lemma keys_collect (obj : VisibleObject) (groups : list (string * points)) :
  exists news, map fst (collect obj groups) = map fst groups ++ news.
Proof.
  unfold collect. rewrite keys_push.
  destruct (group_of _ groups).
  - exists []. now rewrite app_nil_r.
  - eexists. now rewrite map_app.
Qed.

Lemma keys_foldl (objs : list VisibleObject) :
  forall groups,
  exists news,
    map fst (foldl (fun groups obj => collect obj groups) groups objs)
    = map fst groups ++ news.
Proof.
  induction objs as [|obj objs IH]; intros groups; cbn [foldl].
  - exists []. now rewrite app_nil_r.
  - destruct (IH (collect obj groups)) as [n2 E2].
    destruct (keys_collect obj groups) as [n1 E1].
    exists (n1 ++ n2). now rewrite E2, E1, app_assoc.
Qed.

Lemma filter_others (news : list string) :
  (forall k, In k news -> ~ In k PRIORITY_GROUPS) ->
  List.filter (fun k => negb (existsb (String.eqb k) PRIORITY_GROUPS))
              (PRIORITY_GROUPS ++ news)
  = news.
Proof.
  intros H. rewrite List.filter_app.
  change (List.filter _ PRIORITY_GROUPS) with (@nil string). cbn [app].
  induction news as [|k news IH]; [reflexivity|]. cbn [List.filter].
  assert (E : existsb (String.eqb k) PRIORITY_GROUPS = false).
  { destruct (existsb (String.eqb k) PRIORITY_GROUPS) eqn:E; [|reflexivity].
    apply existsb_exists in E as (x & Hx & Ex). apply String.eqb_eq in Ex. subst x.
    exfalso. apply (H k); [now left|exact Hx]. }
  rewrite E. cbn [negb]. f_equal. apply IH.
  intros j Hj. apply H. now right.
Qed.

Lemma NoDup_app_disjoint {A : Type} (l1 l2 : list A) (k : A) :
  List.NoDup (l1 ++ l2) -> In k l2 -> ~ In k l1.
Proof.
  induction l1 as [|x l1 IH]; intros ND H2 H1; [destruct H1|].
  cbn [app] in ND. apply NoDup_cons_iff in ND as [Hx ND].
  destruct H1 as [->|H1].
  - apply Hx. apply in_or_app. now right.
  - now apply IH.
Qed.

(** The second loop goes through every key of [groups] once. *)
Lemma allKeys_keys (sats ac : list VisibleObject) :
  Permutation (allKeys (groups_of sats ac)) (map fst (groups_of sats ac)) /\
  List.NoDup (allKeys (groups_of sats ac)).
Proof.
  destruct (groups_of_collected sats ac) as [ND _].
  destruct (keys_foldl (ac ++ sats) (map (fun k => (k, no_points)) PRIORITY_GROUPS))
    as [news E].
  fold (groups_of sats ac) in E.
  change (map fst (map (fun k => (k, no_points)) PRIORITY_GROUPS))
    with PRIORITY_GROUPS in E.
  assert (P : Permutation (allKeys (groups_of sats ac)) (map fst (groups_of sats ac))).
  { unfold allKeys. rewrite E. rewrite filter_others.
    - apply Permutation_app_head. apply js_sort_perm.
    - intros k Hk Hp. rewrite E in ND.
      exact (NoDup_app_disjoint _ _ k ND Hk Hp). }
  split; [exact P|].
  eapply Permutation_NoDup; [symmetry; exact P|exact ND].
Qed.

(** ** The plots: traces *)

Lemma traces_of_nil (g : string) : traces_of g [] = ([], []).
Proof. unfold traces_of, group_traces. cbn [group_of]. now rewrite String.eqb_refl. Qed.

(** One step of the second loop appends the traces of the group. *)
Lemma group_traces_step (objs : list VisibleObject)
    (groups : list (string * points)) (g : string) (p r : list jsval) :
  collected objs groups ->
  group_traces groups g (p, r)
  = (p ++ fst (traces_of g (members g objs)),
     r ++ snd (traces_of g (members g objs))).
Proof.
  intros [_ Inv]. specialize (Inv g). unfold traces_of, group_traces.
  cbn [group_of]. rewrite String.eqb_refl.
  destruct (group_of g groups) as [d|].
  - subst d. destruct (length (g_az (points_of (members g objs))) =? 0)%nat.
    + now rewrite !app_nil_r.
    + destruct (String.eqb g "Aircraft"); reflexivity.
  - rewrite Inv. cbn. now rewrite !app_nil_r.
Qed.

Lemma group_traces_foldl (objs : list VisibleObject)
    (groups : list (string * points)) (keys : list string) :
  collected objs groups ->
  forall p r,
  foldl (fun tr g => group_traces groups g tr) (p, r) keys
  = (p ++ flat_map (fun g => fst (traces_of g (members g objs))) keys,
     r ++ flat_map (fun g => snd (traces_of g (members g objs))) keys).
Proof.
  intros H. induction keys as [|g keys IH]; intros p r; cbn [foldl flat_map].
  - now rewrite !app_nil_r.
  - rewrite (group_traces_step objs groups g p r H), IH.
    now rewrite <- !app_assoc.
Qed.

(** The traces of a tick, group by group. *)
Lemma plot_traces_by_group (sats ac : list VisibleObject) :
  plot_traces sats ac
  = (flat_map (fun g => fst (traces_of g (members g (ac ++ sats))))
              (allKeys (groups_of sats ac)),
     flat_map (fun g => snd (traces_of g (members g (ac ++ sats))))
              (allKeys (groups_of sats ac))).
Proof.
  unfold plot_traces.
  now rewrite (group_traces_foldl (ac ++ sats) _ _ (groups_of_collected sats ac)).
Qed.

Lemma numbers_nums (l : list num) : numbers (nums l) = l.
Proof.
  unfold numbers, nums. induction l as [|x l IH]; [reflexivity|].
  cbn [map]. change (omap ?f (Num x :: ?t)) with (x :: omap f t). now rewrite IH.
Qed.

Lemma combine_coordinates (objs : list VisibleObject) :
  combine (map vo_az objs) (map vo_el objs) = map coordinates objs.
Proof. induction objs as [|o objs IH]; cbn; [reflexivity|now rewrite IH]. Qed.

(** The points the traces of a group put on the two plots are the
    coordinates of its members. *)
Lemma traces_of_points (g : string) (objs : list VisibleObject) :
  flat_map (drawn_points "theta" "r") (fst (traces_of g objs)) = map coordinates objs /\
  flat_map (drawn_points "x" "y") (snd (traces_of g objs)) = map coordinates objs.
Proof.
  unfold traces_of, group_traces. cbn [group_of]. rewrite String.eqb_refl.
  cbn [points_of g_az g_el g_txt]. rewrite length_map.
  destruct objs as [|o objs]; [split; reflexivity|].
  cbn [length Nat.eqb].
  destruct (String.eqb g "Aircraft");
    cbn -[numbers nums map combine];
    rewrite ?numbers_nums, ?app_nil_r; split; apply combine_coordinates.
Qed.

Lemma members_without (g k : string) (objs : list VisibleObject) :
  g <> k ->
  members g (List.filter (fun o => negb (String.eqb (drawn_group o) k)) objs)
  = members g objs.
Proof.
  intros Hne. unfold members. induction objs as [|o objs IH]; [reflexivity|].
  cbn [List.filter]. destruct (String.eqb (drawn_group o) k) eqn:E; cbn [negb].
  - apply String.eqb_eq in E.
    assert (String.eqb (drawn_group o) g = false) as ->
      by (apply String.eqb_neq; congruence).
    exact IH.
  - cbn [List.filter]. now rewrite IH.
Qed.

(** Going through distinct groups that cover the objects lists each
    object once. *)
Lemma members_partition (keys : list string) :
  forall objs : list VisibleObject,
  List.NoDup keys ->
  (forall o, In o objs -> In (drawn_group o) keys) ->
  Permutation (flat_map (fun g => members g objs) keys) objs.
Proof.
  induction keys as [|k keys IH]; intros objs ND Hcov.
  - destruct objs as [|o objs]; [reflexivity|].
    destruct (Hcov o (or_introl eq_refl)).
  - apply NoDup_cons_iff in ND as [Hk ND]. cbn [flat_map].
    set (rest := List.filter (fun o => negb (String.eqb (drawn_group o) k)) objs).
    assert (E : flat_map (fun g => members g objs) keys
                = flat_map (fun g => members g rest) keys).
    { clear IH ND Hcov. induction keys as [|g keys IHk]; [reflexivity|].
      cbn [flat_map]. rewrite IHk by (intros H; apply Hk; now right).
      unfold rest. rewrite members_without; [reflexivity|].
      intros ->. apply Hk. now left. }
    rewrite E.
    rewrite (IH rest ND).
    + unfold members, rest. clear. induction objs as [|o objs IHo]; [reflexivity|].
      cbn [List.filter]. destruct (String.eqb (drawn_group o) k); cbn [negb app].
      * now constructor.
      * rewrite <- Permutation_middle. now constructor.
    + intros o Ho. unfold rest in Ho. apply filter_In in Ho as [Ho Hne].
      destruct (Hcov o Ho) as [Hd|Hd]; [|exact Hd].
      rewrite <- Hd, String.eqb_refl in Hne. discriminate.
Qed.

Lemma flat_map_flat_map {A B C : Type} (f : B -> list C) (g : A -> list B)
    (l : list A) :
  flat_map f (flat_map g l) = flat_map (fun x => flat_map f (g x)) l.
Proof.
  induction l as [|x l IH]; cbn [flat_map]; [reflexivity|].
  now rewrite flat_map_app, IH.
Qed.

Lemma map_flat_map {A B C : Type} (f : B -> C) (g : A -> list B) (l : list A) :
  map f (flat_map g l) = flat_map (fun x => map f (g x)) l.
Proof.
  induction l as [|x l IH]; cbn [flat_map map]; [reflexivity|].
  now rewrite map_app, IH.
Qed.

Lemma flat_map_ext_all {A B : Type} (f g : A -> list B) (l : list A) :
  (forall x, f x = g x) -> flat_map f l = flat_map g l.
Proof.
  intros H. induction l as [|x l IH]; cbn [flat_map]; [reflexivity|].
  now rewrite H, IH.
Qed.

(** Every object has its group among the keys of the second loop. *)
Lemma allKeys_cover (sats ac : list VisibleObject) (o : VisibleObject) :
  In o (ac ++ sats) -> In (drawn_group o) (allKeys (groups_of sats ac)).
Proof.
  intros Ho. destruct (allKeys_keys sats ac) as [P _].
  eapply Permutation_in; [symmetry; exact P|].
  apply group_of_key.
  destruct (groups_of_collected sats ac) as [_ Inv].
  specialize (Inv (drawn_group o)).
  destruct (group_of (drawn_group o) (groups_of sats ac)); [now eexists|].
  exfalso.
  assert (M : In o (members (drawn_group o) (ac ++ sats))).
  { unfold members. apply filter_In. split; [exact Ho|apply String.eqb_refl]. }
  rewrite Inv in M. destruct M.
Qed.

Lemma drawn_once (sats ac : list VisibleObject) :
  Permutation (flat_map (drawn_points "theta" "r") (fst (plot_traces sats ac)))
              (map coordinates (ac ++ sats)) /\
  Permutation (flat_map (drawn_points "x" "y") (snd (plot_traces sats ac)))
              (map coordinates (ac ++ sats)).
Proof.
  rewrite plot_traces_by_group. cbn [fst snd].
  rewrite !flat_map_flat_map.
  rewrite (flat_map_ext_all
             (fun g => flat_map (drawn_points "theta" "r")
                         (fst (traces_of g (members g (ac ++ sats)))))
             (fun g => map coordinates (members g (ac ++ sats))))
    by (intros g; apply traces_of_points).
  rewrite (flat_map_ext_all
             (fun g => flat_map (drawn_points "x" "y")
                         (snd (traces_of g (members g (ac ++ sats)))))
             (fun g => map coordinates (members g (ac ++ sats))))
    by (intros g; apply traces_of_points).
  rewrite <- map_flat_map.
  assert (P : Permutation (flat_map (fun g => members g (ac ++ sats))
                                    (allKeys (groups_of sats ac)))
                          (ac ++ sats)).
  { apply members_partition; [apply allKeys_keys|].
    intros o Ho. now apply allKeys_cover. }
  split; apply Permutation_map; exact P.
Qed.

(** X18. Every object handed to [updatePlotTraces] is drawn exactly
    once on each plot: on an initialized page that holds its static
    traces, the points of the traces after the static ones -- those of
    the trace shown in the legend only left aside -- are, up to order,
    the (azimuth, elevation) pairs of the aircraft and satellites, on the
    polar plot as (theta, r) and on the rectangular plot as (x, y). *)
Theorem updatePlotTraces_draws_each_once (st : SK_STATE) (pg : Page)
    (sats ac : list VisibleObject) :
  plotInitialized pg = true ->
  (staticCnt st <= length (polar_data pg))%nat ->
  (staticCnt st <= length (rect_data pg))%nat ->
  let pg' := updatePlotTraces st pg sats ac in
  Permutation
    (flat_map (drawn_points "theta" "r") (skipn (staticCnt st) (polar_data pg')))
    (map coordinates (ac ++ sats)) /\
  Permutation
    (flat_map (drawn_points "x" "y") (skipn (staticCnt st) (rect_data pg')))
    (map coordinates (ac ++ sats)).
Proof.
  intros Hi Hp Hr pg'. subst pg'. unfold updatePlotTraces. rewrite Hi. cbn [negb].
  destruct (drawn_once sats ac) as [D1 D2].
  destruct (plot_traces sats ac) as [pTraces rTraces].
  cbn [polar_data rect_data fst snd] in *.
  rewrite !skipn_app, !skipn_firstn_comm.
  rewrite !length_firstn.
  replace (staticCnt st - staticCnt st)%nat with 0%nat by lia.
  replace (staticCnt st - Init.Nat.min (staticCnt st) (length (polar_data pg)))%nat
    with 0%nat by lia.
  replace (staticCnt st - Init.Nat.min (staticCnt st) (length (rect_data pg)))%nat
    with 0%nat by lia.
  cbn [firstn skipn app]. now split.
Qed.

Lemma traces_of_named (g : string) (objs : list VisibleObject) :
  Forall (fun t => trace_name t = Str g) (fst (traces_of g objs)) /\
  Forall (fun t => trace_name t = Str g) (snd (traces_of g objs)).
Proof.
  unfold traces_of, group_traces. cbn [group_of]. rewrite String.eqb_refl.
  destruct (length (g_az (points_of objs)) =? 0)%nat;
    [split; constructor|].
  destruct (String.eqb g "Aircraft"); cbn [app fst snd];
    split; repeat constructor.
Qed.

Lemma filter_named (g k : string) (l : list jsval) :
  Forall (fun t => trace_name t = Str k) l ->
  List.filter (named g) l = if String.eqb k g then l else [].
Proof.
  induction 1 as [|t l Ht _ IH]; [now destruct (String.eqb k g)|].
  cbn [List.filter]. unfold named at 1. rewrite Ht, IH.
  now destruct (String.eqb k g).
Qed.

Lemma filter_named_keys (T : string -> list VisibleObject -> list jsval)
    (objs : list VisibleObject) (g : string) (keys : list string) :
  (forall k M, Forall (fun t => trace_name t = Str k) (T k M)) ->
  (forall k, T k [] = []) ->
  List.NoDup keys ->
  (~ In g keys -> members g objs = []) ->
  List.filter (named g) (flat_map (fun k => T k (members k objs)) keys)
  = T g (members g objs).
Proof.
  intros HT Hnil. induction keys as [|k keys IH]; intros ND Hg.
  - cbn. rewrite Hg by tauto. now rewrite Hnil.
  - apply NoDup_cons_iff in ND as [Hk ND]. cbn [flat_map].
    rewrite List.filter_app, (filter_named g k _ (HT k _)).
    destruct (String.eqb k g) eqn:E.
    + apply String.eqb_eq in E. subst k.
      assert (N : List.filter (named g)
                    (flat_map (fun k => T k (members k objs)) keys) = []).
      { clear IH Hg ND. induction keys as [|j keys IHj]; [reflexivity|].
        cbn [flat_map]. rewrite List.filter_app, (filter_named g j _ (HT j _)).
        assert (String.eqb j g = false) as ->
          by (apply String.eqb_neq; intros ->; apply Hk; now left).
        apply IHj. intros H. apply Hk. now right. }
      rewrite N. now rewrite app_nil_r.
    + apply String.eqb_neq in E. cbn [app]. apply IH; [exact ND|].
      intros H. apply Hg. intros [C|C]; [now apply E|now apply H].
Qed.

(** X19. Each group gets the traces of its own members and of no other
    object: among the traces of a tick, those named after a group are
    the traces built from the objects of that group, in the order the
    objects were handed over (aircraft first); a group without member
    has no trace; and a group other than Aircraft with members has
    one trace on each plot, whose coordinates and texts are the
    azimuths, elevations and labels of its members. *)
Theorem plot_traces_per_group (sats ac : list VisibleObject) (g : string) :
  let objs := members g (ac ++ sats) in
  List.filter (named g) (fst (plot_traces sats ac)) = fst (traces_of g objs) /\
  List.filter (named g) (snd (plot_traces sats ac)) = snd (traces_of g objs) /\
  (objs = [] -> traces_of g objs = ([], [])) /\
  (objs <> [] -> g <> "Aircraft" ->
   exists p r,
     traces_of g objs = ([Obj p], [Obj r]) /\
     field p "name" = Str g /\ field r "name" = Str g /\
     field p "theta" = nums (map vo_az objs) /\
     field p "r" = nums (map vo_el objs) /\
     field r "x" = nums (map vo_az objs) /\
     field r "y" = nums (map vo_el objs) /\
     field p "text"
     = strs (map (fun o => makeLabel (vo_name o) (vo_dist o)) objs) /\
     field r "text" = field p "text").
Proof.
  intros objs. subst objs.
  destruct (allKeys_keys sats ac) as [_ ND].
  assert (Hg : ~ In g (allKeys (groups_of sats ac)) -> members g (ac ++ sats) = []).
  { intros Hn. destruct (members g (ac ++ sats)) as [|o l] eqn:E; [reflexivity|].
    exfalso. apply Hn.
    assert (Ho : In o (members g (ac ++ sats))) by (rewrite E; now left).
    unfold members in Ho. apply filter_In in Ho as [Ho Hd].
    apply String.eqb_eq in Hd. subst g. now apply allKeys_cover. }
  rewrite plot_traces_by_group. cbn [fst snd].
  split; [|split; [|split]].
  - apply (filter_named_keys (fun k M => fst (traces_of k M))); try assumption.
    + intros k M. apply traces_of_named.
    + intros k. now rewrite traces_of_nil.
  - apply (filter_named_keys (fun k M => snd (traces_of k M))); try assumption.
    + intros k M. apply traces_of_named.
    + intros k. now rewrite traces_of_nil.
  - intros ->. apply traces_of_nil.
  - intros Hne Hna. unfold traces_of, group_traces. cbn [group_of].
    rewrite String.eqb_refl. cbn [points_of g_az g_el g_txt]. rewrite length_map.
    destruct (members g (ac ++ sats)) as [|o l]; [congruence|].
    cbn [length Nat.eqb].
    assert (String.eqb g "Aircraft" = false) as -> by (now apply String.eqb_neq).
    do 2 eexists. split; [reflexivity|].
    repeat split; reflexivity.
Qed.

(** ** The plots: order of the traces *)

Lemma keys_shape (sats ac : list VisibleObject) :
  exists news,
    map fst (groups_of sats ac) = PRIORITY_GROUPS ++ news /\
    allKeys (groups_of sats ac)
    = PRIORITY_GROUPS ++ js_sort default_compare news /\
    List.NoDup news /\
    (forall k, In k news -> ~ In k PRIORITY_GROUPS).
Proof.
  destruct (groups_of_collected sats ac) as [ND _].
  destruct (keys_foldl (ac ++ sats) (map (fun k => (k, no_points)) PRIORITY_GROUPS))
    as [news E].
  fold (groups_of sats ac) in E.
  change (map fst (map (fun k => (k, no_points)) PRIORITY_GROUPS))
    with PRIORITY_GROUPS in E.
  rewrite E in ND.
  assert (D : forall k, In k news -> ~ In k PRIORITY_GROUPS)
    by (intros k Hk Hp; exact (NoDup_app_disjoint _ _ k ND Hk Hp)).
  exists news. split; [exact E|]. split; [|split; [|exact D]].
  - unfold allKeys. now rewrite E, filter_others.
  - now apply NoDup_app_remove_l in ND.
Qed.

(** A key of [groups] is a priority group or the group of an object. *)
Lemma keys_have_members (objs : list VisibleObject) :
  forall seen groups,
  (forall k, In k (map fst groups) ->
             In k PRIORITY_GROUPS \/ members k seen <> []) ->
  forall k,
  In k (map fst (foldl (fun groups obj => collect obj groups) groups objs)) ->
  In k PRIORITY_GROUPS \/ members k (seen ++ objs) <> [].
Proof.
  induction objs as [|obj objs IH]; intros seen groups H k; cbn [foldl].
  - rewrite app_nil_r. apply H.
  - replace (seen ++ obj :: objs) with ((seen ++ [obj]) ++ objs)
      by (now rewrite <- app_assoc).
    apply IH. clear k. intros k Hk. unfold collect in Hk. rewrite keys_push in Hk.
    rewrite members_app.
    assert (Old : In k (map fst groups) ->
                  In k PRIORITY_GROUPS \/ members k seen ++ members k [obj] <> []).
    { intros Hin. destruct (H k Hin) as [Hp|Hm]; [now left|right].
      destruct (members k seen); [congruence|discriminate]. }
    destruct (group_of _ groups); [now apply Old|].
    rewrite map_app in Hk. apply in_app_or in Hk as [Hk|Hk]; [now apply Old|].
    cbn in Hk. destruct Hk as [<-|[]]. right.
    change (members ?g [obj])
      with (if String.eqb (drawn_group obj) g then [obj] else []).
    unfold drawn_group. rewrite String.eqb_refl.
    destruct (members _ seen); discriminate.
Qed.

Ltac nodup_false :=
  exfalso;
  repeat match goal with
         | H : List.NoDup (_ :: _) |- _ =>
             apply NoDup_cons_iff in H; destruct H as [? H]
         end;
  match goal with
  | H : ~ In _ _ |- _ => apply H; simpl; tauto
  end.

(** Sorting some of GPS, ONEWEB and OTHER puts them in this order. *)
Lemma sort_other_groups (news : list string) :
  List.NoDup news ->
  (forall k, In k news -> In k OTHER_GROUPS) ->
  js_sort default_compare news
  = List.filter (fun g => existsb (String.eqb g) news) OTHER_GROUPS.
Proof.
  intros ND H.
  assert (L : (length news <= 3)%nat).
  { apply (NoDup_incl_length ND (l' := OTHER_GROUPS)). exact H. }
  assert (F : Forall (fun k => k = "GPS" \/ k = "ONEWEB" \/ k = "OTHER") news).
  { apply List.Forall_forall. intros k Hk. specialize (H k Hk). cbn in H.
    intuition auto. }
  clear H.
  destruct news as [|a [|b [|c [|d news]]]]; [| | | |cbn in L; lia]; clear L;
    repeat match goal with
           | H : Forall _ (_ :: _) |- _ =>
               apply Forall_cons_iff in H; destruct H as [? H]
           end;
    repeat match goal with
           | H : _ = _ \/ _ |- _ => destruct H as [->|H]
           | H : _ = _ |- _ => subst
           end;
    first [reflexivity | nodup_false].
Qed.

Lemma flat_map_filter_nil {A B : Type} (F : A -> list B) (P : A -> bool)
    (l : list A) :
  (forall x, In x l -> P x = false -> F x = []) ->
  flat_map F (List.filter P l) = flat_map F l.
Proof.
  induction l as [|x l IH]; intros H; [reflexivity|]. cbn [List.filter flat_map].
  destruct (P x) eqn:E; cbn [flat_map].
  - rewrite IH; [reflexivity|]. intros y Hy. apply H. now right.
  - rewrite (H x (or_introl eq_refl) E). cbn [app]. apply IH.
    intros y Hy. apply H. now right.
Qed.

(** X20. The traces come in a fixed order.  When every object is in one
    of the six groups of the program -- Aircraft, or a group of
    [getGroup] -- the traces of a tick are those of Aircraft, STARLINK,
    MUOS, GPS, ONEWEB and OTHER, in this order, each group with no
    object leaving no trace, on both plots. *)
Theorem plot_traces_order (sats ac : list VisibleObject) :
  (forall o, In o (ac ++ sats) ->
             In (drawn_group o) (PRIORITY_GROUPS ++ OTHER_GROUPS)) ->
  fst (plot_traces sats ac)
  = flat_map (fun g => fst (traces_of g (members g (ac ++ sats))))
             ["Aircraft"; "STARLINK"; "MUOS"; "GPS"; "ONEWEB"; "OTHER"] /\
  snd (plot_traces sats ac)
  = flat_map (fun g => snd (traces_of g (members g (ac ++ sats))))
             ["Aircraft"; "STARLINK"; "MUOS"; "GPS"; "ONEWEB"; "OTHER"].
Proof.
  intros Hknown.
  destruct (keys_shape sats ac) as (news & Ekeys & Eall & ND & Hdis).
  assert (Hmem : forall k, In k news -> members k (ac ++ sats) <> []).
  { intros k Hk.
    destruct (keys_have_members (ac ++ sats) []
                (map (fun k => (k, no_points)) PRIORITY_GROUPS)) with (k := k)
      as [Hp|Hm].
    - intros j Hj. now left.
    - fold (groups_of sats ac). rewrite Ekeys. apply in_or_app. now right.
    - now contradiction (Hdis k Hk).
    - exact Hm. }
  assert (Hother : forall k, In k news -> In k OTHER_GROUPS).
  { intros k Hk. specialize (Hmem k Hk).
    destruct (members k (ac ++ sats)) as [|o l] eqn:E; [congruence|].
    assert (Ho : In o (members k (ac ++ sats))) by (rewrite E; now left).
    unfold members in Ho. apply filter_In in Ho as [Ho Hd].
    apply String.eqb_eq in Hd. subst k.
    destruct (in_app_or _ _ _ (Hknown o Ho)) as [Hp|Hq]; [|exact Hq].
    now contradiction (Hdis _ Hk). }
  assert (Hnone : forall g, In g OTHER_GROUPS ->
                            existsb (String.eqb g) news = false ->
                            members g (ac ++ sats) = []).
  { intros g Hg Hex.
    destruct (members g (ac ++ sats)) as [|o l] eqn:E; [reflexivity|]. exfalso.
    assert (Ho : In o (members g (ac ++ sats))) by (rewrite E; now left).
    unfold members in Ho. apply filter_In in Ho as [Ho Hd].
    apply String.eqb_eq in Hd. subst g.
    pose proof (allKeys_cover sats ac o Ho) as Hc.
    rewrite Eall in Hc. apply in_app_or in Hc as [Hc|Hc].
    - revert Hg Hc. cbn. intuition congruence.
    - assert (Hin : In (drawn_group o) news)
        by (eapply Permutation_in; [apply js_sort_perm|exact Hc]).
      assert (existsb (String.eqb (drawn_group o)) news = true).
      { apply existsb_exists. exists (drawn_group o).
        split; [exact Hin|apply String.eqb_refl]. }
      congruence. }
  rewrite plot_traces_by_group, Eall, (sort_other_groups news ND Hother).
  change ["Aircraft"; "STARLINK"; "MUOS"; "GPS"; "ONEWEB"; "OTHER"]
    with (PRIORITY_GROUPS ++ OTHER_GROUPS).
  cbn [fst snd]. rewrite !flat_map_app.
  rewrite !flat_map_filter_nil.
  - split; reflexivity.
  - intros g Hg Hex. now rewrite (Hnone g Hg Hex), traces_of_nil.
  - intros g Hg Hex. now rewrite (Hnone g Hg Hex), traces_of_nil.
Qed.

(** ** The plots: static and per-tick traces *)

Lemma initPlots_static (st : SK_STATE) (pg : Page) :
  plotInitialized (initPlots st pg) = true /\
  length (polar_data (initPlots st pg)) = staticCnt st /\
  length (rect_data (initPlots st pg)) = staticCnt st /\
  dom (initPlots st pg) = dom pg.
Proof.
  unfold initPlots, staticCnt. cbn [plotInitialized polar_data rect_data dom].
  destruct (0 <? length (hz_az (horizon st)))%nat; repeat split; reflexivity.
Qed.

Lemma firstn_app_static {A : Type} (n : nat) (l t : list A) :
  (n <= length l)%nat -> firstn n (firstn n l ++ t) = firstn n l.
Proof.
  intros H. rewrite firstn_app, firstn_firstn, Nat.min_id, length_firstn.
  replace (n - Init.Nat.min n (length l))%nat with 0%nat by lia.
  cbn [firstn]. now rewrite app_nil_r.
Qed.

Lemma updatePlotTraces_initialized (st : SK_STATE) (pg : Page)
    (sats ac : list VisibleObject) :
  plotInitialized pg = true ->
  updatePlotTraces st pg sats ac
  = {| dom := dom pg;
       polar_data := firstn (staticCnt st) (polar_data pg) ++ fst (plot_traces sats ac);
       rect_data := firstn (staticCnt st) (rect_data pg) ++ snd (plot_traces sats ac);
       plotInitialized := true |}.
Proof.
  intros Hi. unfold updatePlotTraces. rewrite Hi. cbn [negb].
  now destruct (plot_traces sats ac).
Qed.

(** X21. A tick replaces the traces of the tick before and keeps the
    static ones.  On an initialized page that holds its static traces
    (the beam, and the terrain when a profile is loaded),
    [updatePlotTraces] leaves the static traces and the texts of the
    page as they are, and an update after another gives the page the
    second update alone would give: nothing of an earlier tick stays on
    the plots.  [initPlots] makes such a page, with the per-tick traces
    appended to its own; and before [initPlots] an update does
    nothing. *)
Theorem updatePlotTraces_replaces (st : SK_STATE) (pg : Page)
    (sats1 ac1 sats2 ac2 : list VisibleObject) :
  plotInitialized pg = true ->
  (staticCnt st <= length (polar_data pg))%nat ->
  (staticCnt st <= length (rect_data pg))%nat ->
  let pg1 := updatePlotTraces st pg sats1 ac1 in
  updatePlotTraces st pg1 sats2 ac2 = updatePlotTraces st pg sats2 ac2 /\
  firstn (staticCnt st) (polar_data pg1) = firstn (staticCnt st) (polar_data pg) /\
  firstn (staticCnt st) (rect_data pg1) = firstn (staticCnt st) (rect_data pg) /\
  dom pg1 = dom pg /\
  (forall pg0,
     polar_data (updatePlotTraces st (initPlots st pg0) sats1 ac1)
     = polar_data (initPlots st pg0) ++ fst (plot_traces sats1 ac1) /\
     rect_data (updatePlotTraces st (initPlots st pg0) sats1 ac1)
     = rect_data (initPlots st pg0) ++ snd (plot_traces sats1 ac1)) /\
  (forall pg0,
     plotInitialized pg0 = false ->
     updatePlotTraces st pg0 sats1 ac1 = pg0).
Proof.
  intros Hi Hp Hr pg1. subst pg1.
  rewrite (updatePlotTraces_initialized st pg sats1 ac1 Hi).
  rewrite (updatePlotTraces_initialized st pg sats2 ac2 Hi).
  rewrite updatePlotTraces_initialized by reflexivity.
  cbn [polar_data rect_data dom].
  rewrite !firstn_app_static by assumption.
  split; [reflexivity|]. split; [reflexivity|]. split; [reflexivity|].
  split; [reflexivity|]. split.
  - intros pg0. destruct (initPlots_static st pg0) as (I0 & I1 & I2 & _).
    rewrite (updatePlotTraces_initialized _ _ _ _ I0).
    cbn [polar_data rect_data].
    rewrite <- I1 at 1. rewrite <- I2 at 1. now rewrite !firstn_all.
  - intros pg0 H0. unfold updatePlotTraces. now rewrite H0.
Qed.

(** ** The startup check *)

Lemma missing_foldl (d : gmap string string) (ids : list string) :
  forall missing,
  foldl (fun missing id =>
           match d !! id with
           | Some _ => missing
           | None => missing ++ [("missing DOM #" ++ id)%string]
           end) missing ids
  = missing
    ++ flat_map (fun id => match d !! id with
                           | Some _ => []
                           | None => [("missing DOM #" ++ id)%string]
                           end) ids.
Proof.
  induction ids as [|id ids IH]; intros missing; cbn [foldl flat_map].
  - now rewrite app_nil_r.
  - rewrite IH. destruct (d !! id); [reflexivity|]. now rewrite <- app_assoc.
Qed.

Lemma missing_items_nil (has_Plotly has_satellite : bool)
    (d : gmap string string) :
  missing_items has_Plotly has_satellite d = [] <->
  has_Plotly = true /\ has_satellite = true /\
  forall id, In id CHECKED_IDS -> is_Some (d !! id).
Proof.
  unfold missing_items. rewrite missing_foldl.
  split.
  - intros H. apply app_eq_nil in H as [H1 H2].
    destruct has_Plotly; [|destruct has_satellite; discriminate].
    destruct has_satellite; [|discriminate].
    split; [reflexivity|]. split; [reflexivity|].
    induction CHECKED_IDS as [|x ids IH]; intros id Hid; [destruct Hid|].
    cbn [flat_map] in H2. apply app_eq_nil in H2 as [Hx H2].
    destruct Hid as [<-|Hid]; [|now apply IH].
    destruct (d !! x); [now eexists|discriminate].
  - intros (-> & -> & H). cbn [app].
    induction CHECKED_IDS as [|x ids IH]; [reflexivity|]. cbn [flat_map].
    destruct (H x (or_introl eq_refl)) as [v ->]. cbn [app].
    apply IH. intros id Hid. apply H. now right.
Qed.

(** X22. [runtimeCheck] passes exactly when the two libraries are
    defined and the seven elements polar, rect, clock-utc, clock-obs,
    clock-user, count-sat and count-plane exist, and then it leaves the
    page as it is; when it fails it shows the banner and changes nothing
    else: the other texts, the plots and the flag stay.  The elements
    blocked-sat and blocked-plane are not looked at: the check has the
    same outcome with and without them. *)
Theorem runtimeCheck_passes_iff (has_Plotly has_satellite : bool) (pg : Page) :
  (fst (runtimeCheck has_Plotly has_satellite pg) = true <->
   has_Plotly = true /\ has_satellite = true /\
   forall id, In id CHECKED_IDS -> is_Some (dom pg !! id)) /\
  (fst (runtimeCheck has_Plotly has_satellite pg) = true ->
   snd (runtimeCheck has_Plotly has_satellite pg) = pg) /\
  (fst (runtimeCheck has_Plotly has_satellite pg) = false ->
   let pg' := snd (runtimeCheck has_Plotly has_satellite pg) in
   is_Some (dom pg' !! "skyrfi-banner") /\
   (forall id, id <> "skyrfi-banner" -> dom pg' !! id = dom pg !! id) /\
   polar_data pg' = polar_data pg /\ rect_data pg' = rect_data pg /\
   plotInitialized pg' = plotInitialized pg) /\
  (forall pg2,
     (forall id, In id CHECKED_IDS -> dom pg2 !! id = dom pg !! id) ->
     fst (runtimeCheck has_Plotly has_satellite pg2)
     = fst (runtimeCheck has_Plotly has_satellite pg)).
Proof.
  assert (C : forall pg0,
            fst (runtimeCheck has_Plotly has_satellite pg0) = true <->
            missing_items has_Plotly has_satellite (dom pg0) = []).
  { intros pg0. unfold runtimeCheck.
    destruct (missing_items has_Plotly has_satellite (dom pg0)); cbn;
      split; (reflexivity || discriminate). }
  split; [rewrite C; apply missing_items_nil|].
  split; [|split].
  - unfold runtimeCheck.
    destruct (0 <? length (missing_items has_Plotly has_satellite (dom pg)))%nat;
      [discriminate|reflexivity].
  - unfold runtimeCheck.
    destruct (0 <? length (missing_items has_Plotly has_satellite (dom pg)))%nat;
      [|discriminate].
    intros _. cbn [snd dom polar_data rect_data plotInitialized]. unfold showBanner.
    split; [rewrite lookup_insert_eq; now eexists|].
    split; [|repeat split].
    intros id Hid. now rewrite lookup_insert_ne.
  - intros pg2 H.
    assert (E : missing_items has_Plotly has_satellite (dom pg2)
                = missing_items has_Plotly has_satellite (dom pg)).
    { unfold missing_items. rewrite !missing_foldl. f_equal.
      revert H. induction CHECKED_IDS as [|x ids IH]; intros H; [reflexivity|].
      cbn [flat_map]. rewrite (H x (or_introl eq_refl)). f_equal.
      apply IH. intros id Hid. apply H. now right. }
    unfold runtimeCheck. rewrite E.
    now destruct (0 <? length (missing_items has_Plotly has_satellite (dom pg)))%nat.
Qed.

(** ** The tick and the page *)

Lemma setText_plots (id text : string) (s : Page * completion) :
  polar_data (fst (setText id text s)) = polar_data (fst s) /\
  rect_data (fst (setText id text s)) = rect_data (fst s) /\
  plotInitialized (fst (setText id text s)) = plotInitialized (fst s).
Proof.
  destruct s as [pg [|]]; cbn [setText fst]; [|now repeat split].
  destruct (dom pg !! id); now repeat split.
Qed.

Lemma setText_other (id text : string) (s : Page * completion) (j : string) :
  j <> id -> dom (fst (setText id text s)) !! j = dom (fst s) !! j.
Proof.
  intros H. destruct s as [pg [|]]; cbn [setText fst]; [|reflexivity].
  destruct (dom pg !! id); cbn [fst dom]; [|reflexivity].
  now rewrite lookup_insert_ne by congruence.
Qed.

Lemma setText_present (id text : string) (s : Page * completion) (j : string) :
  is_Some (dom (fst (setText id text s)) !! j) <-> is_Some (dom (fst s) !! j).
Proof.
  destruct (decide (j = id)) as [->|Hne]; [|now rewrite setText_other].
  destruct s as [pg [|]]; cbn [setText fst]; [|reflexivity].
  destruct (dom pg !! id) eqn:E; cbn [fst dom]; [|now rewrite E].
  rewrite lookup_insert_eq. split; intros _; now eexists.
Qed.

Lemma setText_Normal (id text : string) (s : Page * completion) :
  snd (setText id text s) = Normal <->
  snd s = Normal /\ is_Some (dom (fst s) !! id).
Proof.
  destruct s as [pg [|]]; cbn [setText fst snd].
  - destruct (dom pg !! id) eqn:E; cbn [snd].
    + split; [intros _; split; [reflexivity|now eexists]|reflexivity].
    + split; [discriminate|]. intros [_ [x Hx]]. discriminate.
  - split; [discriminate|]. intros [H _]. discriminate.
Qed.

Lemma setText_written (id text : string) (s : Page * completion) :
  snd (setText id text s) = Normal ->
  dom (fst (setText id text s)) !! id = Some text.
Proof.
  destruct s as [pg [|]]; cbn [setText fst snd]; [|discriminate].
  destruct (dom pg !! id); cbn [fst snd dom]; [|discriminate].
  intros _. apply lookup_insert_eq.
Qed.

Lemma write_all_snoc (ws : list (string * string)) (w : string * string)
    (s : Page * completion) :
  write_all (ws ++ [w]) s = setText (fst w) (snd w) (write_all ws s).
Proof. unfold write_all. now rewrite foldl_app. Qed.

Lemma write_all_app (ws1 ws2 : list (string * string)) (s : Page * completion) :
  write_all (ws1 ++ ws2) s = write_all ws2 (write_all ws1 s).
Proof. unfold write_all. now rewrite foldl_app. Qed.

Lemma write_all_plots (ws : list (string * string)) :
  forall s,
  polar_data (fst (write_all ws s)) = polar_data (fst s) /\
  rect_data (fst (write_all ws s)) = rect_data (fst s) /\
  plotInitialized (fst (write_all ws s)) = plotInitialized (fst s).
Proof.
  induction ws as [|w ws IH]; intros s; [now repeat split|].
  change (write_all (w :: ws) s) with (write_all ws (setText (fst w) (snd w) s)).
  destruct (IH (setText (fst w) (snd w) s)) as (A & B & C).
  destruct (setText_plots (fst w) (snd w) s) as (A' & B' & C').
  rewrite A, B, C. now repeat split.
Qed.

Lemma write_all_other (ws : list (string * string)) (j : string) :
  ~ In j (map fst ws) ->
  forall s, dom (fst (write_all ws s)) !! j = dom (fst s) !! j.
Proof.
  induction ws as [|w ws IH]; intros H s; [reflexivity|].
  change (write_all (w :: ws) s) with (write_all ws (setText (fst w) (snd w) s)).
  rewrite IH by (intros C; apply H; now right).
  apply setText_other. intros ->. apply H. now left.
Qed.

Lemma write_all_present (ws : list (string * string)) (j : string) :
  forall s,
  is_Some (dom (fst (write_all ws s)) !! j) <-> is_Some (dom (fst s) !! j).
Proof.
  induction ws as [|w ws IH]; intros s; [reflexivity|].
  change (write_all (w :: ws) s) with (write_all ws (setText (fst w) (snd w) s)).
  rewrite IH. apply setText_present.
Qed.

(** The writes all succeed exactly when every element exists. *)
Lemma write_all_Normal (ws : list (string * string)) (s : Page * completion) :
  snd (write_all ws s) = Normal <->
  snd s = Normal /\ forall id, In id (map fst ws) -> is_Some (dom (fst s) !! id).
Proof.
  induction ws as [|w ws IH] using rev_ind.
  - cbn. split; [intros H; split; [exact H|tauto]|tauto].
  - rewrite write_all_snoc, setText_Normal, IH, write_all_present, map_app.
    cbn [map]. split.
    + intros [[H1 H2] H3]. split; [exact H1|].
      intros id Hid. apply in_app_or in Hid as [Hid|[<-|[]]]; [now apply H2|exact H3].
    + intros [H1 H2]. split; [split; [exact H1|]|].
      * intros id Hid. apply H2, in_or_app. now left.
      * apply H2, in_or_app. right. now left.
Qed.

(** A text stays written when the elements up to its own exist,
    whatever happens after it. *)
Lemma write_all_written (ws1 ws2 : list (string * string)) (w : string * string)
    (pg : Page) :
  List.NoDup (map fst (ws1 ++ w :: ws2)) ->
  (forall id, In id (map fst (ws1 ++ [w])) -> is_Some (dom pg !! id)) ->
  dom (fst (write_all (ws1 ++ w :: ws2) (pg, Normal))) !! fst w = Some (snd w).
Proof.
  intros ND H.
  replace (ws1 ++ w :: ws2) with ((ws1 ++ [w]) ++ ws2) in *
    by (now rewrite <- app_assoc).
  rewrite write_all_app, write_all_other.
  - rewrite write_all_snoc. apply setText_written.
    rewrite <- write_all_snoc. apply write_all_Normal. now split.
  - rewrite !map_app in ND. cbn [map] in ND.
    intros Hin. apply (NoDup_app_disjoint _ _ (fst w) ND Hin).
    apply in_or_app. right. now left.
Qed.

(** The tick, once its loops have returned, is the seven writes
    followed by the update of the plots. *)
Lemma tick_unfold (st : SK_STATE) (pg : Page) (now : Z)
    (visSats : list VisibleObject) (blockSats : Z)
    (visPlanes : list VisibleObject) (blockPlanes : Z) :
  updateMathLoop st now = Some (visSats, blockSats, visPlanes, blockPlanes) ->
  updateMathLoop_tick st pg now
  = Some (match write_all (tick_texts now visSats blockSats visPlanes blockPlanes)
                          (pg, Normal) with
          | (pg2, Normal) => (updatePlotTraces st pg2 visSats visPlanes, Normal)
          | (pg2, Abrupt) => (pg2, Abrupt)
          end).
Proof.
  intros H. unfold updateMathLoop_tick, tick_texts.
  destruct (clockTexts now) as [[utcStr obsText] userText].
  unfold write_all. cbn [foldl fst snd].
  destruct (setText "clock-user" userText
              (setText "clock-obs" obsText (setText "clock-utc" utcStr (pg, Normal))))
    as [p1 [|]] eqn:E1.
  - rewrite H. cbn -[setText updatePlotTraces].
    now destruct (setText "blocked-plane" _ _) as [p2 [|]].
  - reflexivity.
Qed.

Lemma tick_ids (now : Z) (visSats : list VisibleObject) (blockSats : Z)
    (visPlanes : list VisibleObject) (blockPlanes : Z) :
  map fst (tick_texts now visSats blockSats visPlanes blockPlanes) = TICK_IDS.
Proof. unfold tick_texts. now destruct (clockTexts now) as [[? ?] ?]. Qed.

Lemma TICK_IDS_NoDup : List.NoDup TICK_IDS.
Proof.
  unfold TICK_IDS. repeat constructor; cbn; intuition discriminate.
Qed.

(** The plots after an update depend on the plots and the flag
    before. *)
Lemma updatePlotTraces_plots (st : SK_STATE) (pg pg2 : Page)
    (sats ac : list VisibleObject) :
  polar_data pg2 = polar_data pg -> rect_data pg2 = rect_data pg ->
  plotInitialized pg2 = plotInitialized pg ->
  polar_data (updatePlotTraces st pg2 sats ac)
  = polar_data (updatePlotTraces st pg sats ac) /\
  rect_data (updatePlotTraces st pg2 sats ac)
  = rect_data (updatePlotTraces st pg sats ac) /\
  plotInitialized (updatePlotTraces st pg2 sats ac) = plotInitialized pg /\
  dom (updatePlotTraces st pg2 sats ac) = dom pg2.
Proof.
  intros A B C. unfold updatePlotTraces. rewrite C.
  destruct (plotInitialized pg) eqn:E; cbn [negb].
  - destruct (plot_traces sats ac) as [p r].
    cbn [polar_data rect_data plotInitialized dom]. rewrite A, B.
    now repeat split.
  - now repeat split.
Qed.

(** X23. A tick runs to its end exactly when the seven elements it
    writes exist: the three clocks, count-sat, blocked-sat, count-plane
    and blocked-plane.  Then each of them shows its text -- the counts
    are the length of the visible lists and the numbers of blocked
    objects of the two loops -- and the plots are those
    [updatePlotTraces] makes of the two visible lists.  Otherwise the
    tick stops at the first missing element and the plots are not
    touched.  No other element of the page is written. *)
Theorem updateMathLoop_tick_outcome (st : SK_STATE) (pg : Page) (now : Z) :
  Z.of_nat (length (hz_az (horizon st))) <= 2 ^ 31 ->
  exists pg' c visSats blockSats visPlanes blockPlanes,
    updateMathLoop_tick st pg now = Some (pg', c) /\
    updateMathLoop st now = Some (visSats, blockSats, visPlanes, blockPlanes) /\
    (c = Normal <-> forall id, In id TICK_IDS -> is_Some (dom pg !! id)) /\
    (c = Normal ->
     (forall w, In w (tick_texts now visSats blockSats visPlanes blockPlanes) ->
                dom pg' !! fst w = Some (snd w)) /\
     polar_data pg' = polar_data (updatePlotTraces st pg visSats visPlanes) /\
     rect_data pg' = rect_data (updatePlotTraces st pg visSats visPlanes)) /\
    (c = Abrupt ->
     polar_data pg' = polar_data pg /\ rect_data pg' = rect_data pg) /\
    (forall id, ~ In id TICK_IDS -> dom pg' !! id = dom pg !! id) /\
    plotInitialized pg' = plotInitialized pg.
Proof.
  intros Hlen.
  pose proof (updateMathLoop_spec st now Hlen) as Hloops.
  set (vs := omap _ _) in Hloops. set (bs := Z.of_nat _) in Hloops.
  set (vp := map _ _) in Hloops. set (bp := Z.of_nat _) in Hloops.
  pose proof (tick_unfold st pg now vs bs vp bp Hloops) as Htick.
  set (ws := tick_texts now vs bs vp bp) in *.
  pose proof (tick_ids now vs bs vp bp) as Hids. fold ws in Hids.
  assert (Hws : ws = tick_texts now vs bs vp bp) by reflexivity.
  clearbody ws.
  pose proof (write_all_Normal ws (pg, Normal)) as HN. rewrite Hids in HN.
  cbn [fst snd] in HN.
  destruct (write_all_plots ws (pg, Normal)) as (P1 & P2 & P3). cbn [fst] in *.
  assert (HO : forall id, ~ In id TICK_IDS ->
               dom (fst (write_all ws (pg, Normal))) !! id = dom pg !! id).
  { intros id Hid. rewrite write_all_other; [reflexivity|now rewrite Hids]. }
  destruct (write_all ws (pg, Normal)) as [pg2 [|]] eqn:E; cbn [fst snd] in *.
  - destruct (updatePlotTraces_plots st pg pg2 vs vp P1 P2 P3) as (U1 & U2 & U3 & U4).
    exists (updatePlotTraces st pg2 vs vp), Normal, vs, bs, vp, bp.
    split; [exact Htick|]. split; [exact Hloops|].
    assert (Hall : forall id, In id TICK_IDS -> is_Some (dom pg !! id))
      by (now apply HN).
    split; [split; [intros _; exact Hall|reflexivity]|].
    split; [intros _|].
    { split; [|now split]. intros w Hw. rewrite U4. rewrite <- Hws in Hw.
      destruct (in_split _ _ Hw) as (ws1 & ws2 & Ews).
      assert (W : dom (fst (write_all ws (pg, Normal))) !! fst w = Some (snd w)).
      { rewrite Ews. apply write_all_written.
        - rewrite <- Ews, Hids. exact TICK_IDS_NoDup.
        - intros id Hid. apply Hall. rewrite <- Hids, Ews, map_app.
          rewrite map_app in Hid. apply in_app_or in Hid as [Hid|Hid];
            apply in_or_app; [now left|right]. cbn [map] in *.
          destruct Hid as [<-|[]]. now left. }
      now rewrite E in W. }
    split; [discriminate|]. split; [|exact U3].
    intros id Hid. rewrite U4. now apply HO.
  - exists pg2, Abrupt, vs, bs, vp, bp.
    split; [exact Htick|]. split; [exact Hloops|].
    split.
    { split; [discriminate|]. intros Hall.
      assert (C : Abrupt = Normal) by (apply HN; now split). discriminate. }
    split; [discriminate|]. split; [intros _; now split|].
    split; [exact HO|exact P3].
Qed.

(** X24. The startup check does not cover the tick: on a page where
    [runtimeCheck] passes and the element blocked-sat or blocked-plane
    is missing, every tick throws, after it has written the clocks and
    count-sat and before it reaches [updatePlotTraces], so the plots are
    never updated. *)
Theorem runtimeCheck_misses_tick_elements (st : SK_STATE) (pg : Page)
    (now : Z) (id : string) :
  Z.of_nat (length (hz_az (horizon st))) <= 2 ^ 31 ->
  fst (runtimeCheck true true pg) = true ->
  id = "blocked-sat" \/ id = "blocked-plane" ->
  dom pg !! id = None ->
  exists pg' visSats blockSats visPlanes blockPlanes,
    updateMathLoop_tick st pg now = Some (pg', Abrupt) /\
    updateMathLoop st now = Some (visSats, blockSats, visPlanes, blockPlanes) /\
    polar_data pg' = polar_data pg /\ rect_data pg' = rect_data pg /\
    dom pg' !! "count-sat"
    = Some (ToString (Num (num_of_Z (Z.of_nat (length visSats))))).
Proof.
  intros Hlen Hcheck Hid Hnone.
  assert (Hpres : forall j, In j CHECKED_IDS -> is_Some (dom pg !! j)).
  { unfold runtimeCheck in Hcheck.
    destruct (missing_items true true (dom pg)) eqn:E; [|discriminate].
    now apply missing_items_nil in E as (_ & _ & H). }
  pose proof (updateMathLoop_spec st now Hlen) as Hloops.
  set (vs := omap _ _) in Hloops. set (bs := Z.of_nat _) in Hloops.
  set (vp := map _ _) in Hloops. set (bp := Z.of_nat _) in Hloops.
  pose proof (tick_unfold st pg now vs bs vp bp Hloops) as Htick.
  pose proof (tick_ids now vs bs vp bp) as Hids.
  pose proof (write_all_Normal (tick_texts now vs bs vp bp) (pg, Normal)) as HN.
  rewrite Hids in HN. cbn [fst snd] in HN.
  destruct (write_all_plots (tick_texts now vs bs vp bp) (pg, Normal))
    as (P1 & P2 & _). cbn [fst] in *.
  assert (W : dom (fst (write_all (tick_texts now vs bs vp bp) (pg, Normal)))
                !! "count-sat"
              = Some (ToString (Num (num_of_Z (Z.of_nat (length vs)))))).
  { unfold tick_texts in *. destruct (clockTexts now) as [[utcStr obsText] userText].
    apply (write_all_written
             [("clock-utc", utcStr); ("clock-obs", obsText); ("clock-user", userText)]
             _ ("count-sat", _) pg).
    - exact TICK_IDS_NoDup.
    - intros j Hj. apply Hpres. revert Hj. cbn. tauto. }
  destruct (write_all (tick_texts now vs bs vp bp) (pg, Normal)) as [pg2 [|]];
    cbn [fst snd] in *.
  - exfalso. destruct HN as [HN _]. destruct (HN eq_refl) as [_ Hall].
    destruct (Hall id) as [x Hx]; [|congruence].
    destruct Hid as [->| ->]; cbn; tauto.
  - exists pg2, vs, bs, vp, bp. now repeat split.
Qed.

(** ** The tick: what is drawn and what is counted *)

Lemma plot_traces_named (sats ac : list VisibleObject) (g : string) :
  List.filter (named g) (fst (plot_traces sats ac))
  = fst (traces_of g (members g (ac ++ sats))) /\
  List.filter (named g) (snd (plot_traces sats ac))
  = snd (traces_of g (members g (ac ++ sats))).
Proof.
  destruct (allKeys_keys sats ac) as [_ ND].
  assert (Hg : ~ In g (allKeys (groups_of sats ac)) -> members g (ac ++ sats) = []).
  { intros Hn. destruct (members g (ac ++ sats)) as [|o l] eqn:E; [reflexivity|].
    exfalso. apply Hn.
    assert (Ho : In o (members g (ac ++ sats))) by (rewrite E; now left).
    unfold members in Ho. apply filter_In in Ho as [Ho Hd].
    apply String.eqb_eq in Hd. subst g. now apply allKeys_cover. }
  rewrite plot_traces_by_group. cbn [fst snd]. split.
  - apply (filter_named_keys (fun k M => fst (traces_of k M))); try assumption.
    + intros k M. apply traces_of_named.
    + intros k. now rewrite traces_of_nil.
  - apply (filter_named_keys (fun k M => snd (traces_of k M))); try assumption.
    + intros k M. apply traces_of_named.
    + intros k. now rewrite traces_of_nil.
Qed.

Lemma flat_map_filter_split {A B : Type} (F : A -> list B) (P : A -> bool)
    (l : list A) :
  Permutation (flat_map F l)
              (flat_map F (List.filter P l)
               ++ flat_map F (List.filter (fun x => negb (P x)) l)).
Proof.
  induction l as [|x l IH]; [reflexivity|]. cbn [flat_map List.filter].
  destruct (P x); cbn [negb flat_map].
  - rewrite <- app_assoc. now apply Permutation_app_head.
  - rewrite IH. rewrite !app_assoc. apply Permutation_app_tail.
    apply Permutation_app_comm.
Qed.

Lemma sat_entry_group (h : Horizon) (now : Z) (s : satrec) (o : VisibleObject) :
  sat_entry h now s = Some o -> vo_group o = rec_group s.
Proof.
  unfold sat_entry. destruct (sat_look now s) as [[[az el] dist]|]; [|discriminate].
  cbn -[num_gt]. destruct (el >? occlusion h az)%num; [|discriminate].
  now intros [= <-].
Qed.

Lemma plane_entry_group (p : plane) : vo_group (plane_entry p) = "Aircraft".
Proof. unfold plane_entry. now destruct (planeLookAngles p) as [[az el] dist]. Qed.

Lemma members_all (g : string) (objs : list VisibleObject) :
  Forall (fun o => drawn_group o = g) objs -> members g objs = objs.
Proof.
  induction 1 as [|o objs Ho _ IH]; [reflexivity|]. unfold members in *.
  cbn [List.filter]. rewrite Ho, String.eqb_refl. now rewrite IH.
Qed.

Lemma members_none (g : string) (objs : list VisibleObject) :
  Forall (fun o => drawn_group o <> g) objs -> members g objs = [].
Proof.
  induction 1 as [|o objs Ho _ IH]; [reflexivity|]. unfold members in *.
  cbn [List.filter].
  assert (String.eqb (drawn_group o) g = false) as -> by (now apply String.eqb_neq).
  exact IH.
Qed.

(** The lists the two loops hand to the plots, on a catalog that is
    grouped by name: aircraft are in the group Aircraft, satellites in
    one of the five groups of [getGroup]. *)
Lemma visible_groups (st : SK_STATE) (now : Z) :
  Forall grouped_by_name (satRecords st) ->
  Forall (fun o => drawn_group o = "Aircraft")
         (map plane_entry
            (List.filter (plane_visible (horizon st)) (values (planes st)))) /\
  Forall (fun o => In (drawn_group o) ["STARLINK"; "MUOS"; "GPS"; "ONEWEB"; "OTHER"])
         (omap (sat_entry (horizon st) now) (satRecords st)).
Proof.
  intros HG. split.
  - apply List.Forall_forall. intros o Ho. apply in_map_iff in Ho as (p & <- & _).
    unfold drawn_group. now rewrite plane_entry_group.
  - apply List.Forall_forall. intros o Ho.
    apply list_elem_of_In, list_elem_of_omap in Ho as (s & Hs & Hentry).
    apply list_elem_of_In in Hs.
    rewrite List.Forall_forall in HG. destruct (HG s Hs) as [Hgrp _].
    unfold drawn_group. rewrite (sat_entry_group _ _ _ _ Hentry), Hgrp.
    pose proof (getGroup_range (rec_name s)) as R.
    destruct R as [<-|[<-|[<-|[<-|[<-|[]]]]]]; cbn; tauto.
Qed.

(** X25. What a tick draws is what it counts, on a catalog grouped by
    name.  The visible aircraft are the points of the traces named
    Aircraft, in order, and the visible satellites are, up to order, the
    points of all the other traces, on both plots: a satellite is never
    drawn as an aircraft nor an aircraft as a satellite, the number
    shown in count-plane is the number of aircraft glyphs and the number
    in count-sat the number of satellite markers; and every object is in
    one of the six groups with a trace of fixed rank. *)
Theorem tick_draws_what_it_counts (st : SK_STATE) (now : Z) :
  Forall grouped_by_name (satRecords st) ->
  Z.of_nat (length (hz_az (horizon st))) <= 2 ^ 31 ->
  exists visSats blockSats visPlanes blockPlanes,
    updateMathLoop st now = Some (visSats, blockSats, visPlanes, blockPlanes) /\
    (forall o, In o (visPlanes ++ visSats) ->
               In (drawn_group o) (PRIORITY_GROUPS ++ OTHER_GROUPS)) /\
    members "Aircraft" (visPlanes ++ visSats) = visPlanes /\
    flat_map (drawn_points "theta" "r")
             (List.filter (named "Aircraft") (fst (plot_traces visSats visPlanes)))
    = map coordinates visPlanes /\
    flat_map (drawn_points "x" "y")
             (List.filter (named "Aircraft") (snd (plot_traces visSats visPlanes)))
    = map coordinates visPlanes /\
    Permutation
      (flat_map (drawn_points "theta" "r")
                (List.filter (fun t => negb (named "Aircraft" t))
                             (fst (plot_traces visSats visPlanes))))
      (map coordinates visSats) /\
    Permutation
      (flat_map (drawn_points "x" "y")
                (List.filter (fun t => negb (named "Aircraft" t))
                             (snd (plot_traces visSats visPlanes))))
      (map coordinates visSats).
Proof.
  intros HG Hlen.
  pose proof (updateMathLoop_spec st now Hlen) as Hloops.
  destruct (visible_groups st now HG) as [GP GS].
  set (vs := omap _ _) in *. set (bs := Z.of_nat _) in Hloops.
  set (vp := map _ _) in *. set (bp := Z.of_nat _) in Hloops.
  exists vs, bs, vp, bp. split; [exact Hloops|].
  assert (M : members "Aircraft" (vp ++ vs) = vp).
  { rewrite members_app, (members_all _ _ GP), members_none; [apply app_nil_r|].
    eapply Forall_impl; [exact GS|]. intros o Ho E. cbn in Ho. rewrite E in Ho.
    intuition discriminate. }
  destruct (plot_traces_named vs vp "Aircraft") as [N1 N2].
  destruct (traces_of_points "Aircraft" vp) as [T1 T2].
  destruct (drawn_once vs vp) as [D1 D2].
  split.
  { intros o Ho. apply in_app_or in Ho as [Ho|Ho].
    - rewrite List.Forall_forall in GP. rewrite (GP o Ho). cbn. tauto.
    - rewrite List.Forall_forall in GS. specialize (GS o Ho). revert GS.
      cbn. tauto. }
  split; [exact M|].
  rewrite N1, N2, M. split; [exact T1|]. split; [exact T2|].
  split.
  - apply (Permutation_app_inv_l (map coordinates vp)).
    rewrite <- map_app, <- D1, <- T1 at 1.
    rewrite <- M at 1. rewrite <- N1.
    symmetry. apply flat_map_filter_split.
  - apply (Permutation_app_inv_l (map coordinates vp)).
    rewrite <- map_app, <- D2, <- T2 at 1.
    rewrite <- M at 1. rewrite <- N2.
    symmetry. apply flat_map_filter_split.
Qed.

(** ** Startup *)

Lemma cachedFetchJson_frame (net : string -> result jsval)
    (ls ls' : gmap string string) (url key : string) (ttl now : Z) :
  ls !! key = ls' !! key ->
  fst (cachedFetchJson net ls url key ttl now)
  = fst (cachedFetchJson net ls' url key ttl now).
Proof.
  intros H. unfold cachedFetchJson.
  rewrite (cacheRead_frame ls ls' key ttl now H).
  destruct (cacheRead ls' key ttl now); [reflexivity|].
  now destruct (net url).
Qed.

Lemma fetchPlanes_frame (net : string -> result jsval) (st st' : SK_STATE)
    (ls ls' : gmap string string) (t0 now : Z) :
  planes st = planes st' -> ls !! PLANES_KEY = ls' !! PLANES_KEY ->
  planes (fst (fetchPlanes net st ls t0 now))
  = planes (fst (fetchPlanes net st' ls' t0 now)).
Proof.
  intros Hp Hl. rewrite !fetchPlanes_refreshes.
  rewrite (cachedFetchJson_frame net ls ls' _ _ _ _ Hl), Hp. reflexivity.
Qed.

Lemma runtimeCheck_cases (has_Plotly has_satellite : bool) (pg : Page) :
  (fst (runtimeCheck has_Plotly has_satellite pg) = true ->
   snd (runtimeCheck has_Plotly has_satellite pg) = pg) /\
  (fst (runtimeCheck has_Plotly has_satellite pg) = false ->
   is_Some (dom (snd (runtimeCheck has_Plotly has_satellite pg)) !! "skyrfi-banner") /\
   (forall id, id <> "skyrfi-banner" ->
               dom (snd (runtimeCheck has_Plotly has_satellite pg)) !! id
               = dom pg !! id) /\
   polar_data (snd (runtimeCheck has_Plotly has_satellite pg)) = polar_data pg /\
   rect_data (snd (runtimeCheck has_Plotly has_satellite pg)) = rect_data pg /\
   plotInitialized (snd (runtimeCheck has_Plotly has_satellite pg))
   = plotInitialized pg).
Proof.
  unfold runtimeCheck.
  destruct (0 <? length (missing_items has_Plotly has_satellite (dom pg)))%nat;
    cbn [fst snd dom polar_data rect_data plotInitialized].
  - split; [discriminate|]. intros _. unfold showBanner.
    split; [rewrite lookup_insert_eq; now eexists|].
    split; [|now repeat split].
    intros id Hid. now rewrite lookup_insert_ne.
  - split; [reflexivity|discriminate].
Qed.

Lemma fetchTLEs_state_frame (net : string -> result string) (st : SK_STATE)
    (ls : gmap string string) (now : Z) :
  planes (fst (fetchTLEs net st ls now)) = planes st /\
  horizon (fst (fetchTLEs net st ls now)) = horizon st.
Proof.
  destruct (fetchTLEs_effect net ls now) as [o H].
  rewrite (H st ls eq_refl). now destruct o.
Qed.

Lemma fetchHorizon_state_frame (net : string -> result string) (st : SK_STATE)
    (ls : gmap string string) (now1 now2 : Z) :
  planes (fst (fetchHorizon net st ls now1 now2)) = planes st /\
  satRecords (fst (fetchHorizon net st ls now1 now2)) = satRecords st.
Proof.
  destruct (fetchHorizon_effect net ls now1 now2) as [o H].
  rewrite (H st ls eq_refl). now destruct o.
Qed.

Lemma fetchPlanes_state_frame (net : string -> result jsval) (st : SK_STATE)
    (ls : gmap string string) (t0 now : Z) :
  satRecords (fst (fetchPlanes net st ls t0 now)) = satRecords st /\
  horizon (fst (fetchPlanes net st ls t0 now)) = horizon st.
Proof.
  unfold fetchPlanes.
  destruct (cachedFetchJson net ls PLANES_URL PLANES_KEY PLANE_FETCH_MS t0)
    as [[data|] ls']; now split.
Qed.

(** X26. Startup.  When [runtimeCheck] fails, [init] asks nothing of
    the network and leaves the state, the cache and the plots as they
    were; it only shows the banner.  When it passes, each component of
    the state after [init] is what its own fetcher, alone, makes of the
    state and the cache before [init]; the page has its texts unchanged
    and is initialized with the static traces the loaded profile calls
    for: the beam, and the terrain exactly when the profile is not
    empty. *)
Theorem init_outcome (has_Plotly has_satellite : bool)
    (net : string -> result string) (netJson : string -> result jsval)
    (st : SK_STATE) (ls : gmap string string) (pg : Page)
    (t_tle t_h1 t_h2 t_p0 t_p : Z) :
  let out := init has_Plotly has_satellite net netJson st ls pg
                  t_tle t_h1 t_h2 t_p0 t_p in
  let st' := fst (fst out) in
  let pg' := snd out in
  (fst (runtimeCheck has_Plotly has_satellite pg) = false ->
   out = (st, ls, snd (runtimeCheck has_Plotly has_satellite pg)) /\
   polar_data pg' = polar_data pg /\ rect_data pg' = rect_data pg /\
   plotInitialized pg' = plotInitialized pg) /\
  (fst (runtimeCheck has_Plotly has_satellite pg) = true ->
   satRecords st' = satRecords (fst (fetchTLEs net st ls t_tle)) /\
   horizon st' = horizon (fst (fetchHorizon net st ls t_h1 t_h2)) /\
   planes st' = planes (fst (fetchPlanes netJson st ls t_p0 t_p)) /\
   dom pg' = dom pg /\
   plotInitialized pg' = true /\
   polar_data pg'
   = (if (0 <? length (hz_az (horizon st')))%nat
      then [pBeam; pTerrain (horizon st')] else [pBeam]) /\
   rect_data pg'
   = (if (0 <? length (hz_az (horizon st')))%nat
      then [rBeam; rTerrain (horizon st')] else [rBeam]) /\
   length (polar_data pg') = staticCnt st' /\
   length (rect_data pg') = staticCnt st').
Proof.
  intros out st' pg'. subst out st' pg'. unfold init.
  destruct (runtimeCheck_cases has_Plotly has_satellite pg) as (Hpass & Hfail).
  destruct (runtimeCheck has_Plotly has_satellite pg) as [ok pg1] eqn:Echeck.
  cbn [fst snd] in *. destruct ok; cbn [negb].
  - split; [discriminate|]. intros _. specialize (Hpass eq_refl). subst pg1.
    destruct (fetchTLEs_state_frame net st ls t_tle) as [A1 A2].
    pose proof (fetchTLEs_other_keys net st ls t_tle) as K1.
    destruct (fetchTLEs net st ls t_tle) as [st1 ls1] eqn:E1. cbn [fst snd] in *.
    destruct (fetchHorizon_state_frame net st1 ls1 t_h1 t_h2) as [F1 F2].
    pose proof (fetchHorizon_other_keys net st1 ls1 t_h1 t_h2 PLANES_KEY) as K2.
    destruct (fetchHorizon_effect net ls t_h1 t_h2) as [oh Hh].
    assert (Kh : ls1 !! HORIZON_KEY = ls !! HORIZON_KEY)
      by (apply K1; discriminate).
    pose proof (Hh st1 ls1 Kh) as H1.
    pose proof (Hh st ls eq_refl) as H0.
    destruct (fetchHorizon net st1 ls1 t_h1 t_h2) as [st2 ls2] eqn:E2.
    cbn [fst snd] in *.
    assert (P : planes (fst (fetchPlanes netJson st2 ls2 t_p0 t_p))
                = planes (fst (fetchPlanes netJson st ls t_p0 t_p))).
    { apply fetchPlanes_frame; [congruence|].
      rewrite K2 by discriminate. apply K1. discriminate. }
    destruct (fetchPlanes_state_frame netJson st2 ls2 t_p0 t_p) as [Q1 Q2].
    destruct (fetchPlanes netJson st2 ls2 t_p0 t_p) as [st3 ls3].
    cbn [fst snd] in *.
    split; [congruence|].
    split.
    { rewrite Q2, H1, H0. destruct oh; [reflexivity|exact A2]. }
    split; [exact P|].
    unfold initPlots, staticCnt.
    cbn [dom plotInitialized polar_data rect_data]. rewrite Q2.
    destruct (0 <? length (hz_az (horizon st2)))%nat; now repeat split.
  - split; [|discriminate]. intros _. split; [reflexivity|].
    destruct (Hfail eq_refl) as (_ & _ & F1 & F2 & F3). now repeat split.
Qed.

(** ** The horizon loader and the line endings *)

Lemma take_sign_snoc (t : string) (c : ascii) :
  c <> "+"%char -> c <> "-"%char ->
  take_sign (t ++ String c "")
  = (fst (take_sign t), (snd (take_sign t) ++ String c "")%string).
Proof.
  intros Hp Hm. destruct t as [|a t].
  - rewrite ?append_cons, ?append_nil_l. unfold take_sign.
    destruct c as [[] [] [] [] [] [] [] []]; try reflexivity;
      exfalso; (now apply Hp) || (now apply Hm).
  - rewrite ?append_cons, ?append_nil_l. unfold take_sign.
    destruct a as [[] [] [] [] [] [] [] []]; reflexivity.
Qed.

Lemma prefix_snoc (p r : string) (c : ascii) :
  has_char c p = false ->
  String.prefix p (r ++ String c "") = String.prefix p r.
Proof.
  revert r. induction p as [|a p IH]; intros r H.
  - now destruct r.
  - cbn [has_char] in H. apply orb_false_iff in H as [Ha Hp].
    destruct r as [|b r]; rewrite ?append_cons, ?append_nil_l; cbn [String.prefix].
    + destruct (ascii_dec a c) as [->|Hne]; [|reflexivity].
      rewrite Ascii.eqb_refl in Ha. discriminate.
    + destruct (ascii_dec a b); [now apply IH|reflexivity].
Qed.

Lemma take_digits_snoc (r : string) (c : ascii) :
  digit_of c = None ->
  take_digits (r ++ String c "")
  = (fst (take_digits r), (snd (take_digits r) ++ String c "")%string).
Proof.
  intros Hc. induction r as [|a r IH]; rewrite ?append_cons, ?append_nil_l; cbn [take_digits].
  - now rewrite Hc.
  - destruct (digit_of a); [|reflexivity].
    rewrite IH. now destruct (take_digits r).
Qed.

Lemma take_exponent_snoc (s : string) :
  take_exponent (s ++ String CR "") = take_exponent s.
Proof.
  destruct s as [|a s]; [reflexivity|]. rewrite ?append_cons, ?append_nil_l; cbn [take_exponent].
  destruct (Ascii.eqb a "e" || Ascii.eqb a "E"); [|reflexivity].
  rewrite take_sign_snoc by discriminate.
  destruct (take_sign s) as [eneg r1]. cbn [fst snd].
  rewrite take_digits_snoc by reflexivity.
  now destruct (take_digits r1) as [[|d ds] rest].
Qed.

(** A carriage return at the end of a field does not change the number
    [parseFloat] reads. *)
Lemma parseFloat_CR (s : string) :
  parseFloat (s ++ String CR "") = parseFloat s.
Proof.
  unfold parseFloat. rewrite trimStart_snoc_ws by reflexivity.
  destruct (trimStart s) as [|a t] eqn:E; [reflexivity|].
  rewrite take_sign_snoc by discriminate.
  destruct (take_sign (String a t)) as [neg s2]. cbn [fst snd].
  rewrite prefix_snoc by reflexivity.
  destruct (String.prefix "Infinity" s2); [reflexivity|].
  rewrite take_digits_snoc by reflexivity.
  destruct (take_digits s2) as [ip s3]. cbn [fst snd].
  assert (F : match (s3 ++ String CR "")%string with
              | String "." r => take_digits r
              | _ => ([], (s3 ++ String CR "")%string)
              end
              = (fst match s3 with
                     | String "." r => take_digits r
                     | _ => ([], s3)
                     end,
                 (snd match s3 with
                      | String "." r => take_digits r
                      | _ => ([], s3)
                      end ++ String CR "")%string)).
  { destruct s3 as [|b r]; [reflexivity|]. rewrite ?append_cons, ?append_nil_l.
    destruct b as [[] [] [] [] [] [] [] []]; try reflexivity.
    now rewrite take_digits_snoc by reflexivity. }
  rewrite F.
  destruct (match s3 with
            | String "." r => take_digits r
            | _ => ([], s3)
            end) as [fp s4]. cbn [fst snd].
  now rewrite take_exponent_snoc.
Qed.

(** The fields of a line with one more character at its end: the last
    field has the character at its end. *)
Lemma str_split_snoc (sep c : ascii) (s : string) :
  Ascii.eqb c sep = false ->
  exists init last,
    str_split sep s = init ++ [last] /\
    str_split sep (s ++ String c "") = init ++ [(last ++ String c "")%string].
Proof.
  intros Hc. induction s as [|a s (init & last & E1 & E2)].
  - exists [], "". rewrite ?append_cons, ?append_nil_l; cbn [str_split]. now rewrite Hc.
  - rewrite ?append_cons, ?append_nil_l; cbn [str_split]. rewrite E1, E2.
    destruct (Ascii.eqb a sep).
    + exists ("" :: init), last. now split.
    + destruct init as [|w ws]; cbn [app].
      * exists [], (String a last). now split.
      * exists (String a w :: ws), last. now split.
Qed.

(** The sample a row gives, or none. *)
Lemma row_CR (line : string) :
  (let p := str_split "," (line ++ String CR "") in
   if (3 <=? length p)%nat
   then [(parseFloat (nth 1 p ""), parseFloat (nth 2 p ""))]
   else [])
  = (let p := str_split "," line in
     if (3 <=? length p)%nat
     then [(parseFloat (nth 1 p ""), parseFloat (nth 2 p ""))]
     else []).
Proof.
  destruct (str_split_snoc "," CR line eq_refl) as (init & last & E1 & E2).
  cbv zeta. rewrite E1, E2, !length_app. cbn [length].
  destruct (3 <=? length init + 1)%nat eqn:L; [|reflexivity].
  apply Nat.leb_le in L.
  destruct init as [|f0 [|f1 [|f2 init]]]; cbn [length] in L; try lia.
  - cbn [app nth]. now rewrite parseFloat_CR.
  - reflexivity.
Qed.

Lemma has_char_app (c : ascii) (s t : string) :
  has_char c (s ++ t) = has_char c s || has_char c t.
Proof.
  induction s as [|a s IH]; rewrite ?append_cons, ?append_nil_l; cbn [has_char]; [reflexivity|].
  now rewrite IH, orb_assoc.
Qed.

Lemma append_assoc (s t u : string) : ((s ++ t) ++ u = s ++ (t ++ u))%string.
Proof. induction s as [|a s IH]; rewrite ?append_cons, ?append_nil_l; [reflexivity|now rewrite IH]. Qed.

(** The lines of a text in either convention. *)
Lemma str_split_unix (l : string) (lines : list string) :
  Forall (fun l => has_char LF l = false) (l :: lines) ->
  str_split LF (unix_text (l :: lines)) = l :: lines.
Proof.
  revert l. induction lines as [|l2 lines IH]; intros l H.
  - apply Forall_cons in H as [H _]. cbn. now apply str_split_no_sep.
  - apply Forall_cons in H as [H Hrest].
    change (unix_text (l :: l2 :: lines))
      with (l ++ String LF "" ++ unix_text (l2 :: lines))%string.
    rewrite ?append_cons, ?append_nil_l. rewrite (str_split_header l _ H). now rewrite IH.
Qed.

Lemma str_split_dos (l : string) (lines : list string) :
  Forall (fun l => has_char LF l = false) (l :: lines) ->
  str_split LF (dos_text (l :: lines)) = with_CR (l :: lines).
Proof.
  revert l. induction lines as [|l2 lines IH]; intros l H.
  - apply Forall_cons in H as [H _]. cbn. now apply str_split_no_sep.
  - apply Forall_cons in H as [H Hrest].
    change (dos_text (l :: l2 :: lines))
      with (l ++ String CR (String LF "") ++ dos_text (l2 :: lines))%string.
    change (l ++ String CR (String LF "") ++ dos_text (l2 :: lines))%string
      with (l ++ (String CR "" ++ String LF (dos_text (l2 :: lines))))%string.
    rewrite <- append_assoc, str_split_header.
    + rewrite IH by exact Hrest. reflexivity.
    + rewrite has_char_app, H. reflexivity.
Qed.

Lemma rows_with_CR (rows : list string) :
  flat_map
    (fun line =>
       let p := str_split "," line in
       if (3 <=? length p)%nat
       then [(parseFloat (nth 1 p ""), parseFloat (nth 2 p ""))]
       else []) (with_CR rows)
  = flat_map
      (fun line =>
         let p := str_split "," line in
         if (3 <=? length p)%nat
         then [(parseFloat (nth 1 p ""), parseFloat (nth 2 p ""))]
         else []) rows.
Proof.
  set (F := fun line : string => _).
  assert (HF : forall l, F (l ++ String CR "")%string = F l)
    by (intros l; apply row_CR).
  clearbody F.
  destruct rows as [|l rows]; [reflexivity|]. revert l.
  induction rows as [|l2 rows IH]; intros l; [reflexivity|].
  change (with_CR (l :: l2 :: rows))
    with ((l ++ String CR "")%string :: with_CR (l2 :: rows)).
  change (flat_map F ((l ++ String CR "")%string :: with_CR (l2 :: rows)))
    with (F (l ++ String CR "")%string ++ flat_map F (with_CR (l2 :: rows))).
  change (flat_map F (l :: l2 :: rows)) with (F l ++ flat_map F (l2 :: rows)).
  now rewrite (IH l2), HF.
Qed.

(** X27. The terrain table may come with either line ending: the text
    of the same lines joined by carriage return and line feed loads as
    the same profile as the text joined by line feeds alone.  The
    carriage return left at the end of each line by the split on line
    feeds ends up behind the last field, where [parseFloat] ignores it,
    and never changes the number of fields. *)
Theorem parseHorizonCsv_line_endings (st : SK_STATE) (lines : list string) :
  Forall (fun l => has_char LF l = false) lines ->
  kept_samples (dos_text lines) = kept_samples (unix_text lines) /\
  parseHorizonCsv st (dos_text lines) = parseHorizonCsv st (unix_text lines).
Proof.
  intros H.
  assert (K : kept_samples (dos_text lines) = kept_samples (unix_text lines)).
  { destruct lines as [|l lines]; [reflexivity|].
    unfold kept_samples. rewrite (str_split_dos l lines H), (str_split_unix l lines H).
    destruct lines as [|l2 lines]; [reflexivity|].
    change (tl (with_CR (l :: l2 :: lines))) with (with_CR (l2 :: lines)).
    cbn [tl]. apply rows_with_CR. }
  split; [exact K|].
  unfold parseHorizonCsv. f_equal. now rewrite !csv_profile_sorted_kept, K.
Qed.

(** ** The catalog fetch: the cache and the line endings *)

(** What a read finds after a write that the store accepted. *)
Lemma cacheRead_after_write (ls : gmap string string) (key : string)
    (v : jsval) (ttl now now' : Z) :
  storage_fits (<[key := JSON_stringify (envelope now v)]> ls) = true ->
  JSON_stringify (envelope now v) <> "" ->
  JSON_parse (JSON_stringify (envelope now v)) = Ok (envelope now v) ->
  cacheRead (cacheWrite ls key v now) key ttl now'
  = if now' - now <? ttl then Some v else None.
Proof.
  intros Hfits Hne Hrt.
  assert (W : cacheWrite ls key v now
              = <[key := JSON_stringify (envelope now v)]> ls).
  { unfold cacheWrite, setItem. now rewrite Hfits. }
  rewrite W.
  rewrite (cacheRead_entry _ key (JSON_stringify (envelope now v))
             (envelope now v) now ttl now').
  - reflexivity.
  - apply lookup_insert_eq.
  - now apply is_empty_false.
  - exact Hrt.
  - reflexivity.
Qed.

(** X28. The catalog is stable while its text is cached.  After a
    [fetchTLEs] that retrieved a text and cached it, a [fetchTLEs] less
    than three hours later asks nothing of the network and parses the
    cached text again: the state and the cache are exactly as the first
    call left them, whatever the network would answer.  From three hours
    on the network is asked, and when that retrieval fails the state and
    the cache are still as the first call left them. *)
Theorem fetchTLEs_within_ttl (net : string -> result string) (st : SK_STATE)
    (ls : gmap string string) (now : Z) (text : string) :
  cacheRead ls "tles_active" TLE_FETCH_MS now = None ->
  net TLE_URL = Ok text ->
  storage_fits (<["tles_active" := JSON_stringify (envelope now (Str text))]> ls)
  = true ->
  JSON_stringify (envelope now (Str text)) <> "" ->
  JSON_parse (JSON_stringify (envelope now (Str text)))
  = Ok (envelope now (Str text)) ->
  let out := fetchTLEs net st ls now in
  (forall net' now',
     now' - now < TLE_FETCH_MS ->
     fetchTLEs net' (fst out) (snd out) now' = out) /\
  (forall net' now',
     TLE_FETCH_MS <= now' - now -> net' TLE_URL = Throw ->
     fetchTLEs net' (fst out) (snd out) now' = out).
Proof.
  intros Hmiss Hnet Hfits Hne Hrt out.
  assert (E : out = ({| satRecords := fst (tle_loop (str_split LF text) []);
                        planes := planes st; horizon := horizon st |},
                     cacheWrite ls "tles_active" (Str text) now)).
  { subst out. unfold fetchTLEs, cachedFetchText. rewrite Hmiss, Hnet.
    now destruct (tle_loop (str_split LF text) []). }
  pose proof (fun now' => cacheRead_after_write ls "tles_active" (Str text)
                            TLE_FETCH_MS now now' Hfits Hne Hrt) as R.
  rewrite E. cbn [fst snd]. split.
  - intros net' now' Hage. unfold fetchTLEs, cachedFetchText. rewrite R.
    destruct (now' - now <? TLE_FETCH_MS) eqn:C;
      [|apply Z.ltb_ge in C; lia].
    now destruct (tle_loop (str_split LF text) []).
  - intros net' now' Hage Hdown. unfold fetchTLEs, cachedFetchText. rewrite R.
    destruct (now' - now <? TLE_FETCH_MS) eqn:C;
      [apply Z.ltb_lt in C; lia|].
    now rewrite Hdown.
Qed.

Lemma trim_CR (s : string) : trim (s ++ String CR "") = trim s.
Proof.
  unfold trim. rewrite trimStart_snoc_ws by reflexivity.
  destruct (trimStart s) as [|a t]; [reflexivity|].
  now apply trimEnd_snoc_ws.
Qed.

Lemma is_empty_snoc (s : string) (c : ascii) :
  is_empty (s ++ String c "") = false.
Proof. now destruct s. Qed.

(** The parsing loop on lines that keep their carriage return. *)
Lemma tle_loop_with_CR (n : nat) :
  forall lines recs,
  (length lines <= n)%nat ->
  Forall (fun l => is_empty l = false) (removelast lines) ->
  tle_loop (with_CR lines) recs = tle_loop lines recs.
Proof.
  induction n as [|n IH]; intros lines recs Hn H.
  - destruct lines; [reflexivity|cbn in Hn; lia].
  - destruct lines as [|l0 [|l1 [|l2 [|l3 rest]]]]; try reflexivity.
    + (* two lines *)
      cbn [removelast] in H. apply Forall_cons in H as [H0 _].
      change (with_CR [l0; l1]) with [(l0 ++ String CR "")%string; l1].
      cbn [tle_loop]. now rewrite is_empty_snoc, H0.
    + (* three lines *)
      cbn [removelast] in H. apply Forall_cons in H as [H0 _].
      change (with_CR [l0; l1; l2])
        with [(l0 ++ String CR "")%string; (l1 ++ String CR "")%string; l2].
      cbn [tle_loop]. now rewrite is_empty_snoc, H0, !trim_CR.
    + (* more *)
      change (removelast (l0 :: l1 :: l2 :: l3 :: rest))
        with (l0 :: l1 :: l2 :: removelast (l3 :: rest)) in H.
      apply Forall_cons in H as [H0 H]. apply Forall_cons in H as [_ H].
      apply Forall_cons in H as [_ H].
      change (with_CR (l0 :: l1 :: l2 :: l3 :: rest))
        with ((l0 ++ String CR "")%string :: (l1 ++ String CR "")%string
              :: (l2 ++ String CR "")%string :: with_CR (l3 :: rest)).
      cbn [tle_loop]. rewrite is_empty_snoc, H0, !trim_CR.
      cbn [length] in Hn.
      destruct (twoline2satrec (trim l1) (trim l2)); [|reflexivity].
      apply IH; [cbn [length]; lia|exact H].
Qed.

(** X29. The catalog may come with either line ending.  When no line
    before the last is empty, the text of the same lines joined by
    carriage return and line feed gives the catalog the text joined by
    line feeds gives: the carriage return the split leaves at the end of
    a line goes away with [trim], in the names and in the element
    lines. *)
Theorem fetchTLEs_line_endings (net1 net2 : string -> result string)
    (st : SK_STATE) (ls : gmap string string) (now : Z) (lines : list string) :
  Forall (fun l => has_char LF l = false) lines ->
  Forall (fun l => is_empty l = false) (removelast lines) ->
  cacheRead ls "tles_active" TLE_FETCH_MS now = None ->
  net1 TLE_URL = Ok (dos_text lines) ->
  net2 TLE_URL = Ok (unix_text lines) ->
  fst (fetchTLEs net1 st ls now) = fst (fetchTLEs net2 st ls now) /\
  tle_loop (str_split LF (dos_text lines)) []
  = tle_loop (str_split LF (unix_text lines)) [].
Proof.
  intros HLF Hne Hmiss H1 H2.
  assert (L : tle_loop (str_split LF (dos_text lines)) []
              = tle_loop (str_split LF (unix_text lines)) []).
  { destruct lines as [|l lines]; [reflexivity|].
    rewrite (str_split_dos l lines HLF), (str_split_unix l lines HLF).
    now apply (tle_loop_with_CR (length (l :: lines))). }
  split; [|exact L].
  unfold fetchTLEs, cachedFetchText. rewrite Hmiss, H1, H2, L.
  now destruct (tle_loop (str_split LF (unix_text lines)) []).
Qed.

End SkyRfi.

(** * Concrete instances *)

(** An environment to run the model in: a parser of element sets that
    keeps the two lines, a propagator that fails on the handle 0, look
    angles read off the handle or the stored latitude, a storage without
    quota, and a JSON codec that knows a single entry. *)
Definition keep_lines (l1 l2 : string) : result (string * string) := Ok (l1, l2).

Definition no_quota (_ : gmap string string) : bool := true.

Definition one_entry : jsval := envelope 1000 (Str "payload").
Definition one_entry_stringify (_ : jsval) : string := "entry".
Definition one_entry_parse (s : string) : result jsval :=
  if String.eqb s "entry" then Ok one_entry else Throw.

Definition no_coercion_num (_ : jsval) : num := NaN.
Definition no_coercion_str (_ : jsval) : string := "".

Definition el_propagate (id now : Z) : option Z :=
  if id =? 0 then None else Some id.
Definition el_look (pos now : Z) : num * num * num :=
  (num_of_Z 45, num_of_Z pos, num_of_Z 1000).
Definition lat_look (p : plane) : num * num * num :=
  (num_of_Z 45, match p_lat p with Num n => n | _ => NaN end, num_of_Z 100).

Definition sat (id : Z) (name : string) : @satrec Z :=
  {| rec_handle := id; rec_name := name; rec_group := getGroup name |}.

Definition tracked (hex : string) (lat : Z) (t : Z) : plane :=
  {| p_hex := Str hex; p_callsign := Str hex; p_lat := Num (num_of_Z lat);
     p_lon := Num (num_of_Z (-118)); p_alt_ft := Num (num_of_Z 30000);
     p_last_update := t |}.

Definition sky : @SK_STATE Z :=
  {| satRecords := [sat 10 "ISS (ZARYA)"; sat 0 "DECAYED"; sat (-3) "STARLINK-1";
                    sat (-20) "GPS BIIR-2"];
     planes := <["a1b2c3" := tracked "a1b2c3" 5 0]>
                 (<["d4e5f6" := tracked "d4e5f6" 1 0]> ∅);
     horizon := profile flat_profile |}.

Definition empty_sky {H : Type} : @SK_STATE H :=
  {| satRecords := []; planes := ∅; horizon := mkHorizon [] [] |}.

Definition nl : string := String LF "".

Definition terrain_table : string :=
  "bin,az,el" ++ nl ++ "0,90,1.5" ++ nl ++ "1,10,2" ++ nl
  ++ "x,y" ++ nl ++ "2,180,-3,extra" ++ nl.

Definition header_and_garbage : string := "bin,az,el" ++ nl ++ "x,y,z".

Definition other_fields : list (string * jsval) :=
  [("hex", Str "ffffff"); ("flight", Str "UAL123  ");
   ("lat", Num (num_of_Z 37)); ("lon", Num (num_of_Z (-118)));
   ("alt_baro", Num (num_of_Z 31000))].

Definition other_aircraft : jsval := Obj other_fields.

Definition snapshot (recs : list jsval) : jsval := Obj [("ac", Arr recs)].

Definition one_tracked : gmap string plane :=
  {["a1b2c3" := tracked "a1b2c3" 37 0]}.

Definition tracking (pl : gmap string plane) : @SK_STATE Z :=
  {| satRecords := []; planes := pl; horizon := mkHorizon [] [] |}.

Definition feed (data : jsval) (_ : string) : result jsval := Ok data.

Definition on_the_equator : list (string * jsval) :=
  [("hex", Str "a1b2c3"); ("flight", Str "UAL123  ");
   ("lat", Num (num_of_Z 0)); ("lon", Num (num_of_Z (-118)));
   ("alt_baro", Num (num_of_Z 31000))].

Definition garbage_then_good : string :=
  "BAD" ++ nl ++ "x" ++ nl ++ "y" ++ nl
  ++ "GOOD" ++ nl ++ "1 25544U" ++ nl ++ "2 25544".

Definition small_catalog : string :=
  "ISS (ZARYA)" ++ nl ++ "1 25544U" ++ nl ++ "2 25544" ++ nl
  ++ "" ++ nl ++ "x" ++ nl ++ "y" ++ nl
  ++ "STARLINK-1" ++ nl ++ " 1 44713U " ++ nl ++ "2 44713" ++ nl.

Definition old_catalog : @SK_STATE (string * string) :=
  {| satRecords := [ {| rec_handle := ("1 33591U", "2 33591");
                        rec_name := "NOAA 19"; rec_group := "OTHER" |};
                     {| rec_handle := ("1 20580U", "2 20580");
                        rec_name := "HST"; rec_group := "OTHER" |} ];
     planes := ∅; horizon := mkHorizon [] [] |}.

Definition truncated_body : string :=
  "ISS (ZARYA)" ++ nl ++ "1 25544U" ++ nl ++ "2 25544" ++ nl ++ "NOAA 19".

(** * Examples *)

(** A body cut after a name line: the catalog is neither the old one nor
    the whole new one. *)
Example fetchTLEs_truncated_body :
  satRecords (fst (fetchTLEs keep_lines one_entry_parse one_entry_stringify
                     no_quota no_coercion_num (fun _ => Ok truncated_body)
                     old_catalog ∅ 0))
  = [ {| rec_handle := ("1 25544U", "2 25544"); rec_name := "ISS (ZARYA)";
         rec_group := "OTHER" |} ].
Proof. vm_compute. reflexivity. Qed.

Example csv_profile_example :
  csv_profile terrain_table
  = {| hz_az := [num_of_Z 10; num_of_Z 90; num_of_Z 180];
       hz_alt := [num_of_Z 2; Fin (Q2Qc 1.5); num_of_Z (-3)] |}.
Proof. vm_compute. reflexivity. Qed.

Example getHorizonLimit_wraps :
  getHorizonLimit
    (profile [(Qc_of 0, Qc_of 0); (Qc_of 90, Qc_of 9);
              (Qc_of 180, Qc_of 18); (Qc_of 270, Qc_of 27)])
    (num_of_Z (-45))
  = Some (Fin (Q2Qc (27 # 2))).
Proof. vm_compute. reflexivity. Qed.

Example updateMathLoop_example :
  updateMathLoop el_propagate el_look lat_look sky 0
  = Some ([ {| vo_name := Str "ISS (ZARYA)"; vo_az := num_of_Z 45;
               vo_el := num_of_Z 10; vo_dist := num_of_Z 1000;
               vo_group := "OTHER" |} ], 1,
          [ {| vo_name := Str "a1b2c3"; vo_az := num_of_Z 45;
               vo_el := num_of_Z 5; vo_dist := num_of_Z 100;
               vo_group := "Aircraft" |} ], 1).
Proof. vm_compute. reflexivity. Qed.

(** * Witnesses and counterexamples *)


(** C9, amended, at a table out of order with a short row. *)
Lemma parseHorizonCsv_loads_witness :
  Permutation
    (combine (hz_az (horizon (parseHorizonCsv sky terrain_table)))
             (hz_alt (horizon (parseHorizonCsv sky terrain_table))))
    (kept_samples terrain_table) /\
  Sorted (fun a b => num_le a b = true)
         (hz_az (horizon (parseHorizonCsv sky terrain_table))).
Proof.
  assert (H : Forall (fun s => is_NaN (fst s) = false) (kept_samples terrain_table)).
  { set (k := kept_samples terrain_table). vm_compute in k. subst k.
    repeat apply Forall_cons_2; [| | |apply Forall_nil_2]; reflexivity. }
  destruct (parseHorizonCsv_loads sky sky terrain_table)
    as (_ & _ & _ & _ & _ & P & S).
  exact (conj P (S H)).
Defined.

(** C9 as stated fails: a row with three fields that do not parse is
    kept, and the stored azimuth and elevation are [NaN]. *)
Lemma parseHorizonCsv_keeps_unparseable_row :
  horizon (parseHorizonCsv sky header_and_garbage)
  = {| hz_az := [NaN]; hz_alt := [NaN] |}.
Proof. vm_compute. reflexivity. Qed.

(** C4 with the one-entry codec: written at 1000, read at 1000. *)
Lemma cache_round_trip_witness :
  cacheRead one_entry_parse no_coercion_num
    (cacheWrite one_entry_stringify no_quota ∅ "tles_active" (Str "payload") 1000)
    "tles_active" TLE_FETCH_MS 1000
  = Some (Str "payload").
Proof.
  assert (H1 : 0 < TLE_FETCH_MS) by (vm_compute; reflexivity).
  assert (H2 : no_quota (<["tles_active" :=
                 one_entry_stringify (envelope 1000 (Str "payload"))]> ∅) = true)
    by reflexivity.
  assert (H3 : one_entry_stringify (envelope 1000 (Str "payload")) <> "")
    by discriminate.
  assert (H4 : one_entry_parse (one_entry_stringify (envelope 1000 (Str "payload")))
               = Ok (envelope 1000 (Str "payload"))) by reflexivity.
  exact (proj1 (cache_round_trip one_entry_parse one_entry_stringify no_quota
                  no_coercion_num ∅ "tles_active" (Str "payload")
                  TLE_FETCH_MS 1000 H1 H2 H3 H4)).
Defined.

(** C4 as stated fails.  The entry is stamped with the clock reading
    taken when [cachedFetchJson] starts and written once the response
    is there.  With the time to live of the aircraft feed, 1000 ms, and
    a request issued at 1000 whose response arrives at 2000, a read right
    after the write finds the entry and reports it absent. *)
Lemma slow_request_entry_expired :
  let ls := snd (cachedFetchJson one_entry_parse one_entry_stringify no_quota
                   no_coercion_num (fun _ => Ok (Str "payload")) ∅
                   PLANES_URL PLANES_KEY PLANE_FETCH_MS 1000) in
  ls !! PLANES_KEY = Some (one_entry_stringify (envelope 1000 (Str "payload"))) /\
  cacheRead one_entry_parse no_coercion_num ls PLANES_KEY PLANE_FETCH_MS 2000
  = None.
Proof. split; vm_compute; reflexivity. Qed.

(** C5 as stated fails: at [now - last_update = 15000] the aircraft is
    still tracked after the fetch. *)
Lemma grace_boundary_entry_kept :
  planes (fst (fetchPlanes one_entry_parse one_entry_stringify no_quota
                 no_coercion_num no_coercion_str
                 (feed (snapshot [other_aircraft])) (tracking one_tracked)
                 ∅ 14990 15000))
    !! "a1b2c3"
  = Some (tracked "a1b2c3" 37 0).
Proof. vm_compute. reflexivity. Qed.

(** C5, amended, one millisecond later: the aircraft is gone. *)
Lemma fetchPlanes_grace_window_witness :
  planes (fst (fetchPlanes one_entry_parse one_entry_stringify no_quota
                 no_coercion_num no_coercion_str
                 (feed (snapshot [other_aircraft])) (tracking one_tracked)
                 ∅ 14990 15001))
    !! "a1b2c3"
  = None.
Proof.
  assert (H0 : fst (cachedFetchJson one_entry_parse one_entry_stringify no_quota
                      no_coercion_num (feed (snapshot [other_aircraft])) ∅
                      PLANES_URL PLANES_KEY PLANE_FETCH_MS 14990)
               = Ok (snapshot [other_aircraft])) by reflexivity.
  assert (H1 : getProp (snapshot [other_aircraft]) "ac" = Ok (Arr [other_aircraft]))
    by reflexivity.
  assert (H2 : snd (forEach (upsert no_coercion_str 15001) [other_aircraft]
                      (planes (tracking one_tracked), [])) = Normal) by reflexivity.
  assert (H3 : planes (tracking one_tracked) !! "a1b2c3"
               = Some (tracked "a1b2c3" 37 0))
    by (vm_compute; reflexivity).
  assert (H4 : absent_from no_coercion_str "a1b2c3" [other_aircraft])
    by (repeat constructor; intros _; vm_compute; discriminate).
  refine (proj2 (proj2 (fetchPlanes_grace_window one_entry_parse
                          one_entry_stringify no_quota no_coercion_num
                          no_coercion_str (feed (snapshot [other_aircraft]))
                          (tracking one_tracked) ∅ 14990 15001
                          (snapshot [other_aircraft]) (Arr [other_aircraft])
                          [other_aircraft] "a1b2c3" (tracked "a1b2c3" 37 0)
                          H0 H1 (or_introl eq_refl) H2 H3 H4)) _).
  vm_compute. reflexivity.
Defined.

(** C6 as stated fails: latitude 0 and longitude -118 are coordinates of
    a point of the Earth, and the record is not stored. *)
Lemma equator_record_not_tracked :
  planes (fst (fetchPlanes one_entry_parse one_entry_stringify no_quota
                 no_coercion_num no_coercion_str
                 (feed (snapshot [Obj on_the_equator])) (tracking ∅)
                 ∅ 990 1000))
  = ∅.
Proof. vm_compute. reflexivity. Qed.

(** C6, amended, at a record with a padded callsign. *)
Lemma upsert_tracks_record_witness :
  upsert no_coercion_str 1000 other_aircraft (∅, [])
  = ((<["ffffff" := {| p_hex := Str "ffffff"; p_callsign := Str "UAL123";
                       p_lat := Num (num_of_Z 37); p_lon := Num (num_of_Z (-118));
                       p_alt_ft := Num (num_of_Z 31000);
                       p_last_update := 1000 |}]> ∅,
      [Str "ffffff"]), Normal).
Proof.
  assert (H1 : truthy (field other_fields "lat") = true) by reflexivity.
  assert (H2 : truthy (field other_fields "lon") = true) by reflexivity.
  assert (H3 : (exists s, field other_fields "flight" = Str s /\ trim s <> "" /\
                          Str "UAL123" = Str (trim s)) \/
               (truthy (field other_fields "flight") = false /\
                Str "UAL123" = js_or (field other_fields "r")
                                     (field other_fields "hex"))).
  { left. exists "UAL123  ". repeat split. vm_compute. discriminate. }
  assert (H4 : ToPropertyKey no_coercion_str (field other_fields "hex")
               <> "__proto__") by discriminate.
  exact (proj1 (upsert_tracks_record no_coercion_str 1000 other_fields ∅ [])
               H1 H2 (Str "UAL123") H3 H4).
Defined.

(** A record whose [hex] is [__proto__] passes the guard and is counted
    in [validHexes]; no aircraft is tracked for it. *)
Example upsert_proto_record :
  upsert no_coercion_str 1000
    (Obj [("hex", Str "__proto__"); ("flight", Str "UAL123");
          ("lat", Num (num_of_Z 37)); ("lon", Num (num_of_Z (-118)))])
    (∅, [])
  = ((∅, [Str "__proto__"]), Normal).
Proof. reflexivity. Qed.

(** A callsign ending with the no-break space U+00A0, bytes 194 and 160
    of the encoding, is trimmed of it. *)
Example callsign_of_no_break_space :
  callsign_of
    (Obj [("hex", Str "ffffff");
          ("flight", Str (String.append "UAL123"
                            (String (ascii_of_nat 194)
                               (String (ascii_of_nat 160) EmptyString))))])
  = Ok (Str "UAL123").
Proof. vm_compute. reflexivity. Qed.

Example callsign_falls_back :
  callsign_of (Obj [("hex", Str "ffffff"); ("r", Str "N12345")]) = Ok (Str "N12345") /\
  callsign_of (Obj [("hex", Str "ffffff"); ("flight", Str "")]) = Ok (Str "ffffff").
Proof. split; reflexivity. Qed.

(** A [flight] of white space only passes the test and trims to the
    empty callsign. *)
Example callsign_of_blank_flight :
  callsign_of (Obj [("hex", Str "ffffff"); ("flight", Str "        ");
                    ("r", Str "N12345")])
  = Ok (Str "").
Proof. reflexivity. Qed.

(** C10 at the record on the equator. *)
Lemma zero_coordinates_dropped_witness :
  upsert no_coercion_str 1000 (Obj on_the_equator) (∅, []) = ((∅, []), Normal).
Proof.
  assert (H : field on_the_equator "lat" = Num (num_of_Z 0) \/
              field on_the_equator "lon" = Num (num_of_Z 0))
    by (left; reflexivity).
  exact (proj1 (zero_coordinates_dropped no_coercion_str 1000 on_the_equator H)
               (∅, [])).
Defined.

(** C7 and C8 at the state [sky]. *)
Lemma satellites_classified_witness :
  exists visSats blockSats visPlanes blockPlanes,
    updateMathLoop el_propagate el_look lat_look sky 0
    = Some (visSats, blockSats, visPlanes, blockPlanes) /\
    visSats = omap (sat_entry el_propagate el_look (horizon sky) 0) (satRecords sky) /\
    blockSats
    = Z.of_nat (length (List.filter (sat_blocked el_propagate el_look (horizon sky) 0)
                                    (satRecords sky))).
Proof.
  assert (H : Z.of_nat (length (hz_az (horizon sky))) <= 2 ^ 31) by (simpl; lia).
  destruct (satellites_classified el_propagate el_look lat_look sky 0 H)
    as (vs & bs & vp & bp & E & Hv & Hb & _).
  exists vs, bs, vp, bp. exact (conj E (conj Hv Hb)).
Defined.


(** C3 as stated fails: whatever [twoline2satrec] does on the lines
    [x] and [y], the catalog is not the record of the group GOOD alone:
    when it returns, BAD has a record too, and when it throws there is
    no record at all. *)
Lemma malformed_triplet_not_isolated :
  ~ exists (H : Type) (tle : string -> string -> result H),
      map rec_name
        (satRecords (fst (fetchTLEs tle one_entry_parse one_entry_stringify
                            no_quota no_coercion_num
                            (fun _ => Ok garbage_then_good) empty_sky ∅ 0)))
      = ["GOOD"].
Proof.
  intros (H & tle & E). rewrite fetchTLEs_miss in E.
  change (str_split LF garbage_then_good)
    with ["BAD"; "x"; "y"; "GOOD"; "1 25544U"; "2 25544"] in E.
  cbn [tle_loop is_empty] in E.
  change (trim "x") with "x" in E. change (trim "y") with "y" in E.
  destruct (tle "x" "y") as [h|]; [|discriminate E].
  cbn [app] in E.
  destruct (tle (trim "1 25544U") (trim "2 25544")); discriminate E.
Qed.

(** C3, amended, on a catalog with an empty name line. *)
Lemma fetchTLEs_parses_triplets_witness :
  satRecords (fst (fetchTLEs keep_lines one_entry_parse one_entry_stringify
                     no_quota no_coercion_num (fun _ => Ok small_catalog)
                     empty_sky ∅ 0))
  = [ {| rec_handle := ("1 25544U", "2 25544"); rec_name := "ISS (ZARYA)";
         rec_group := "OTHER" |};
      {| rec_handle := ("1 44713U", "2 44713"); rec_name := "STARLINK-1";
         rec_group := "STARLINK" |} ].
Proof.
  assert (H1 : fst (cachedFetchText one_entry_parse one_entry_stringify no_quota
                      no_coercion_num (fun _ => Ok small_catalog) ∅ TLE_URL
                      "tles_active" TLE_FETCH_MS 0)
               = Ok (Str small_catalog)) by reflexivity.
  assert (H2 : Forall (readable keep_lines) (triplets (str_split LF small_catalog))).
  { set (t := triplets (str_split LF small_catalog)). vm_compute in t. subst t.
    repeat apply Forall_cons_2; [| | | |apply Forall_nil_2].
    - right. do 3 eexists. repeat split; reflexivity.
    - left. reflexivity.
    - right. do 3 eexists. repeat split; reflexivity.
    - left. reflexivity. }
  rewrite (proj1 (fetchTLEs_parses_triplets keep_lines one_entry_parse
                    one_entry_stringify no_quota no_coercion_num
                    (fun _ => Ok small_catalog) empty_sky ∅ 0 small_catalog
                    H1 H2)).
  vm_compute. reflexivity.
Defined.

(** * Instances for the further properties *)

(** A profile that rises by a tenth of a degree per degree of azimuth. *)
Definition ramp_profile : list (Qc * Qc) :=
  [(Qc_of 0, Qc_of 0); (Qc_of 90, Qc_of 9);
   (Qc_of 180, Qc_of 18); (Qc_of 270, Qc_of 27)].

Definition rows_one_order : string :=
  "bin,az,el" ++ nl ++ "0,90,1.5" ++ nl ++ "1,10,2".
Definition rows_other_order : string :=
  "bin,az,el" ++ nl ++ "1,10,2" ++ nl ++ "0,90,1.5".

(** A site whose local path answers with an error page, and a network
    that is down. *)
Definition local_error_page (url : string) : result string :=
  if String.eqb url HORIZON_LOCAL then Ok "Not Found" else Throw.
Definition offline {A : Type} (_ : string) : result A := Throw.
Definition remote_only (url : string) : result string :=
  if String.eqb url HORIZON_REMOTE then Ok terrain_table else Throw.

(** Codecs that know a single entry each: a number, and an aircraft
    snapshot retrieved at 500. *)
Definition number_entry_parse (_ : string) : result jsval :=
  Ok (envelope 1000 (Num (num_of_Z 7))).
Definition snapshot_entry_parse (_ : string) : result jsval :=
  Ok (envelope 500 (snapshot [other_aircraft])).

(** A parser of element sets whose record is the length of the first
    line. *)
Definition line_length (l1 l2 : string) : result Z :=
  Ok (Z.of_nat (String.length l1)).

Definition sky_without_horizon : @SK_STATE Z :=
  {| satRecords := satRecords sky; planes := planes sky;
     horizon := mkHorizon [] [] |}.

Definition no_latitude : plane :=
  {| p_hex := Str "a1b2c3"; p_callsign := Str "N1"; p_lat := Str "north";
     p_lon := Num (num_of_Z (-118)); p_alt_ft := Str "ground";
     p_last_update := 0 |}.

Definition tracked_other : plane :=
  {| p_hex := Str "ffffff"; p_callsign := Str "UAL123";
     p_lat := Num (num_of_Z 37); p_lon := Num (num_of_Z (-118));
     p_alt_ft := Num (num_of_Z 31000); p_last_update := 15001 |}.

(** * Witnesses of the further properties *)

Lemma ramp_ascending : Sorted Qclt (map fst ramp_profile).
Proof. repeat constructor; unfold Qclt, Qlt; simpl; lia. Defined.

Lemma ramp_in_range :
  Forall (fun s => (0 <= fst s)%Qc /\ (fst s < Qc_of 360)%Qc) ramp_profile.
Proof.
  unfold ramp_profile.
  repeat apply Forall_cons_2; [| | | |apply Forall_nil_2];
    (split; [unfold Qcle, Qle|unfold Qclt, Qlt]; simpl; lia).
Defined.



(** X4 on an error page. *)
Lemma parseHorizonCsv_no_rows_witness :
  getHorizonLimit (horizon (parseHorizonCsv sky "Not Found")) (num_of_Z 123)
  = Some (num_of_Z (-5)).
Proof.
  exact (proj2 (parseHorizonCsv_no_rows sky "Not Found" (num_of_Z 123)
                  (or_introl eq_refl))).
Defined.

(** X5 on two rows in either order. *)
Lemma csv_profile_row_order_witness :
  csv_profile rows_one_order = csv_profile rows_other_order.
Proof.
  assert (H1 : Permutation (kept_samples rows_one_order)
                           (kept_samples rows_other_order)).
  { set (a := kept_samples rows_one_order). set (b := kept_samples rows_other_order).
    vm_compute in a, b. subst a b. apply perm_swap. }
  assert (H2 : Forall (fun s => is_NaN (fst s) = false) (kept_samples rows_one_order)).
  { set (a := kept_samples rows_one_order). vm_compute in a. subst a.
    repeat apply Forall_cons_2; [| |apply Forall_nil_2]; reflexivity. }
  assert (H3 : List.NoDup (map fst (kept_samples rows_one_order))).
  { set (a := map fst (kept_samples rows_one_order)). vm_compute in a. subst a.
    repeat constructor; simpl; intuition discriminate. }
  exact (csv_profile_row_order rows_one_order rows_other_order H1 H2 H3).
Defined.

(** X6 with an error page at the local path: the remote service is not
    asked and the profile is emptied. *)
Lemma fetchHorizon_local_first_witness :
  fst (fetchHorizon one_entry_parse one_entry_stringify no_quota no_coercion_num
         local_error_page sky ∅ 0 5)
  = parseHorizonCsv sky "Not Found".
Proof.
  assert (H : cacheRead one_entry_parse no_coercion_num ∅ HORIZON_KEY HORIZON_TTL 0
              = Some (Str "Not Found") \/
              (cacheRead one_entry_parse no_coercion_num ∅ HORIZON_KEY HORIZON_TTL 0
               = None /\ local_error_page HORIZON_LOCAL = Ok "Not Found"))
    by (right; split; reflexivity).
  exact (proj1 (fetchHorizon_local_first one_entry_parse one_entry_stringify
                  no_quota no_coercion_num local_error_page sky ∅ 0 5
                  "Not Found" H)).
Defined.

(** X7 with the local copy missing and the remote service up. *)
Lemma fetchHorizon_fallback_witness :
  fetchHorizon one_entry_parse one_entry_stringify no_quota no_coercion_num
    remote_only sky ∅ 0 5
  = (parseHorizonCsv sky terrain_table,
     cacheWrite one_entry_stringify no_quota ∅ HORIZON_KEY (Str terrain_table) 5).
Proof.
  assert (H1 : 0 <= 5) by lia.
  assert (H2 : cacheRead one_entry_parse no_coercion_num ∅ HORIZON_KEY HORIZON_TTL 0
               = None) by reflexivity.
  assert (H3 : remote_only HORIZON_LOCAL = Throw) by reflexivity.
  exact (fetchHorizon_fallback one_entry_parse one_entry_stringify no_quota
           no_coercion_num remote_only sky ∅ 0 5 H1 H2 H3).
Defined.

(** X8 with a number cached under the key of the terrain table. *)
Lemma cached_payload_not_text_witness :
  fetchHorizon number_entry_parse one_entry_stringify no_quota no_coercion_num
    remote_only sky {[HORIZON_KEY := "7"]} 2000 2005
  = (sky, {[HORIZON_KEY := "7"]}).
Proof.
  assert (H0 : forall s, Num (num_of_Z 7) <> Str s) by discriminate.
  assert (H1 : cacheRead number_entry_parse no_coercion_num {[HORIZON_KEY := "7"]}
                 HORIZON_KEY HORIZON_TTL 2000 = Some (Num (num_of_Z 7)))
    by (vm_compute; reflexivity).
  assert (H2 : is_Some (cacheRead number_entry_parse no_coercion_num
                          {[HORIZON_KEY := "7"]} HORIZON_KEY HORIZON_TTL 2005))
    by (eexists; vm_compute; reflexivity).
  exact (proj1 (cached_payload_not_text line_length number_entry_parse
                  one_entry_stringify no_quota no_coercion_num remote_only sky
                  {[HORIZON_KEY := "7"]} 2000 2005 (Num (num_of_Z 7)) H0) H1 H2).
Defined.

(** X11 on a catalog with a name from the STARLINK constellation. *)
Lemma fetchTLEs_grouped_by_name_witness :
  Forall grouped_by_name
    (satRecords (fst (fetchTLEs keep_lines one_entry_parse one_entry_stringify
                        no_quota no_coercion_num (fun _ => Ok small_catalog)
                        empty_sky ∅ 0))).
Proof.
  assert (H : Forall grouped_by_name
                (satRecords (@empty_sky (string * string))))
    by apply Forall_nil_2.
  exact (proj1 (fetchTLEs_grouped_by_name keep_lines one_entry_parse
                  one_entry_stringify no_quota no_coercion_num
                  (fun _ => Ok small_catalog) empty_sky ∅ 0 H)).
Defined.

(** X13 one millisecond after the grace window of the entry tracked
    before: what is left is the aircraft of the snapshot. *)
Lemma fetchPlanes_none_stale_witness :
  planes (fst (fetchPlanes one_entry_parse one_entry_stringify no_quota
                 no_coercion_num no_coercion_str
                 (feed (snapshot [other_aircraft])) (tracking one_tracked)
                 ∅ 14990 15001))
    !! "ffffff" = Some tracked_other /\
  15001 - p_last_update tracked_other <= 15000.
Proof.
  assert (H0 : fst (cachedFetchJson one_entry_parse one_entry_stringify no_quota
                      no_coercion_num (feed (snapshot [other_aircraft])) ∅
                      PLANES_URL PLANES_KEY PLANE_FETCH_MS 14990)
               = Ok (snapshot [other_aircraft])) by reflexivity.
  assert (H1 : completes no_coercion_str 15001 (snapshot [other_aircraft])
                 (planes (tracking one_tracked)) = true) by reflexivity.
  assert (H2 : planes (fst (fetchPlanes one_entry_parse one_entry_stringify no_quota
                 no_coercion_num no_coercion_str
                 (feed (snapshot [other_aircraft])) (tracking one_tracked)
                 ∅ 14990 15001))
                 !! "ffffff" = Some tracked_other)
    by (vm_compute; reflexivity).
  exact (conj H2
           (fetchPlanes_none_stale one_entry_parse one_entry_stringify no_quota
              no_coercion_num no_coercion_str (feed (snapshot [other_aircraft]))
              (tracking one_tracked) ∅ 14990 15001 (snapshot [other_aircraft])
              H0 H1 "ffffff" tracked_other H2)).
Defined.

(** X14 with the network down, long after the last update. *)
Lemma fetchPlanes_failure_keeps_all_witness :
  is_Some (planes (fst (fetchPlanes one_entry_parse one_entry_stringify no_quota
                          no_coercion_num no_coercion_str offline
                          (tracking one_tracked) ∅ 99990 100000))
             !! "a1b2c3").
Proof.
  assert (H : match fst (cachedFetchJson one_entry_parse one_entry_stringify
                           no_quota no_coercion_num offline ∅
                           PLANES_URL PLANES_KEY PLANE_FETCH_MS 99990) with
              | Ok data => completes no_coercion_str 100000 data
                             (planes (tracking one_tracked)) = false
              | Throw => True
              end) by exact I.
  assert (K : is_Some (planes (tracking one_tracked) !! "a1b2c3"))
    by (eexists; vm_compute; reflexivity).
  exact (proj1 (fetchPlanes_failure_keeps_all one_entry_parse one_entry_stringify
                  no_quota no_coercion_num no_coercion_str offline
                  (tracking one_tracked) ∅ 99990 100000 H) "a1b2c3" K).
Defined.

(** X15 with a snapshot retrieved at 500 and read again at 900: the
    cache is left as it is and the aircraft of the snapshot is stamped
    950. *)
Lemma fetchPlanes_cache_hit_witness :
  snd (fetchPlanes snapshot_entry_parse one_entry_stringify no_quota
         no_coercion_num no_coercion_str offline (tracking ∅)
         {[PLANES_KEY := "snapshot"]} 900 950)
  = {[PLANES_KEY := "snapshot"]} /\
  exists e,
    planes (fst (fetchPlanes snapshot_entry_parse one_entry_stringify no_quota
                   no_coercion_num no_coercion_str offline (tracking ∅)
                   {[PLANES_KEY := "snapshot"]} 900 950))
    !! record_key no_coercion_str other_aircraft = Some e /\
    p_last_update e = 950.
Proof.
  assert (H : cacheRead snapshot_entry_parse no_coercion_num
                {[PLANES_KEY := "snapshot"]} PLANES_KEY PLANE_FETCH_MS 900
              = Some (snapshot [other_aircraft]))
    by (vm_compute; reflexivity).
  pose proof (fetchPlanes_cache_hit snapshot_entry_parse
                one_entry_stringify no_quota no_coercion_num
                no_coercion_str offline (tracking ∅)
                {[PLANES_KEY := "snapshot"]} 900 950
                (snapshot [other_aircraft]) H) as (_ & H1 & _ & H2).
  split; [exact H1|].
  apply (H2 [other_aircraft] other_aircraft).
  - reflexivity.
  - reflexivity.
  - now left.
  - reflexivity.
  - discriminate.
Defined.

(** X16 on the state [sky] without its horizon. *)
Lemma updateMathLoop_without_horizon_witness :
  exists visSats blockSats visPlanes blockPlanes,
    updateMathLoop el_propagate el_look lat_look sky_without_horizon 0
    = Some (visSats, blockSats, visPlanes, blockPlanes) /\
    blockPlanes
    = Z.of_nat (size (planes sky_without_horizon)) - Z.of_nat (length visPlanes).
Proof.
  assert (H : hz_az (horizon sky_without_horizon) = []) by reflexivity.
  destruct (updateMathLoop_without_horizon el_propagate el_look lat_look
              sky_without_horizon 0 H)
    as (vs & bs & vp & bp & E & _ & _ & _ & B & _).
  exists vs, bs, vp, bp. exact (conj E B).
Defined.

(** X17 on an aircraft whose latitude is not a number. *)
Lemma updateMathLoop_NaN_elevation_witness :
  classifyPlane lat_look (profile flat_profile) no_latitude ([], 0)
  = Some ([], 1).
Proof.
  assert (H : Z.of_nat (length (hz_az (profile flat_profile))) <= 2 ^ 31)
    by (simpl; lia).
  exact (proj1 (updateMathLoop_NaN_elevation el_propagate el_look lat_look
                  (profile flat_profile) 0 ([], 0) H)
               no_latitude (num_of_Z 45) (num_of_Z 100) eq_refl).
Defined.

(** A page with the nine elements the program uses, one without the
    two elements the startup check does not look at, and the
    environment of the display: labels and clocks that do not depend on
    their argument. *)
Definition page_of (ids : list string) : Page :=
  {| dom := list_to_map (map (fun id => (id, "")) ids);
     polar_data := []; rect_data := []; plotInitialized := false |}.

Definition page_full : Page :=
  page_of ["polar"; "rect"; "clock-utc"; "clock-obs"; "clock-user";
           "count-sat"; "blocked-sat"; "count-plane"; "blocked-plane"].

Definition page_checked : Page := page_of CHECKED_IDS.

Definition one_decimal (_ : num) : string := "0.0".
Definition fixed_clocks (_ : Z) : string * string * string :=
  ("2026-01-01 00:00:00 UTC", "2025-12-31 16:00:00 (UTC-8)",
   "2026-01-01 01:00:00 (UTC+1)").

Definition seen (name : string) (az el : Z) (group : string) : VisibleObject :=
  {| vo_name := Str name; vo_az := num_of_Z az; vo_el := num_of_Z el;
     vo_dist := num_of_Z 1000; vo_group := group |}.

Definition two_satellites : list VisibleObject :=
  [seen "GPS BIIR-2" 200 40 "GPS"; seen "STARLINK-1" 100 60 "STARLINK"].
Definition one_aircraft : list VisibleObject := [seen "UAL123" 45 5 "Aircraft"].

(** X18 on the page [initPlots] makes for the state [sky]. *)
Lemma updatePlotTraces_draws_each_once_witness :
  Permutation
    (flat_map (drawn_points "theta" "r")
       (skipn (staticCnt sky)
          (polar_data (updatePlotTraces no_coercion_str one_decimal sky
                         (initPlots sky page_full) two_satellites one_aircraft))))
    (map coordinates (one_aircraft ++ two_satellites)).
Proof.
  assert (H1 : plotInitialized (initPlots sky page_full) = true) by reflexivity.
  assert (H2 : (staticCnt sky <= length (polar_data (initPlots sky page_full)))%nat)
    by (vm_compute; lia).
  assert (H3 : (staticCnt sky <= length (rect_data (initPlots sky page_full)))%nat)
    by (vm_compute; lia).
  exact (proj1 (updatePlotTraces_draws_each_once line_length one_entry_parse
                  no_coercion_str one_decimal sky (initPlots sky page_full)
                  two_satellites one_aircraft H1 H2 H3)).
Defined.

(** X20 on a GPS satellite handed over before a STARLINK one. *)
Lemma plot_traces_order_witness :
  map trace_name (fst (plot_traces no_coercion_str one_decimal
                         two_satellites one_aircraft))
  = [Str "Aircraft"; Str "Aircraft"; Str "STARLINK"; Str "GPS"].
Proof.
  assert (H : forall o, In o (one_aircraft ++ two_satellites) ->
                        In (drawn_group o) (PRIORITY_GROUPS ++ OTHER_GROUPS)).
  { intros o [<-|[<-|[<-|[]]]]; vm_compute; tauto. }
  rewrite (proj1 (plot_traces_order (@line_length) one_entry_parse no_coercion_str
                    one_decimal two_satellites one_aircraft H)).
  vm_compute. reflexivity.
Defined.

(** X21 on two ticks after [initPlots]. *)
Lemma updatePlotTraces_replaces_witness :
  updatePlotTraces no_coercion_str one_decimal sky
    (updatePlotTraces no_coercion_str one_decimal sky (initPlots sky page_full)
       two_satellites one_aircraft)
    [] one_aircraft
  = updatePlotTraces no_coercion_str one_decimal sky (initPlots sky page_full)
      [] one_aircraft.
Proof.
  assert (H1 : plotInitialized (initPlots sky page_full) = true) by reflexivity.
  assert (H2 : (staticCnt sky <= length (polar_data (initPlots sky page_full)))%nat)
    by (vm_compute; lia).
  assert (H3 : (staticCnt sky <= length (rect_data (initPlots sky page_full)))%nat)
    by (vm_compute; lia).
  exact (proj1 (updatePlotTraces_replaces no_coercion_str one_decimal sky
                  (initPlots sky page_full) two_satellites one_aircraft
                  [] one_aircraft H1 H2 H3)).
Defined.

(** X23 on the full page: the tick completes. *)
Lemma updateMathLoop_tick_outcome_witness :
  exists pg' c,
    updateMathLoop_tick el_propagate el_look lat_look no_coercion_str one_decimal
      fixed_clocks sky page_full 0 = Some (pg', c) /\
    (c = Normal <-> forall id, In id TICK_IDS -> is_Some (dom page_full !! id)).
Proof.
  assert (H : Z.of_nat (length (hz_az (horizon sky))) <= 2 ^ 31) by (simpl; lia).
  destruct (updateMathLoop_tick_outcome line_length el_propagate el_look lat_look
              one_entry_parse no_coercion_str one_decimal fixed_clocks
              sky page_full 0 H)
    as (pg' & c & vs & bs & vp & bp & E & _ & C & _).
  exists pg', c. exact (conj E C).
Defined.

(** X24 on the page with the seven checked elements only. *)
Lemma runtimeCheck_misses_tick_elements_witness :
  exists pg' visSats blockSats visPlanes blockPlanes,
    updateMathLoop_tick el_propagate el_look lat_look no_coercion_str one_decimal
      fixed_clocks sky page_checked 0 = Some (pg', Abrupt) /\
    updateMathLoop el_propagate el_look lat_look sky 0
    = Some (visSats, blockSats, visPlanes, blockPlanes) /\
    polar_data pg' = polar_data page_checked.
Proof.
  assert (H1 : Z.of_nat (length (hz_az (horizon sky))) <= 2 ^ 31) by (simpl; lia).
  assert (H2 : fst (runtimeCheck true true page_checked) = true)
    by (vm_compute; reflexivity).
  assert (H3 : "blocked-sat" = "blocked-sat" \/ "blocked-sat" = "blocked-plane")
    by (left; reflexivity).
  assert (H4 : dom page_checked !! "blocked-sat" = None)
    by (vm_compute; reflexivity).
  destruct (runtimeCheck_misses_tick_elements line_length el_propagate el_look
              lat_look one_entry_parse no_coercion_str one_decimal fixed_clocks
              sky page_checked 0 "blocked-sat" H1 H2 H3 H4)
    as (pg' & vs & bs & vp & bp & E & L & P & _).
  exists pg', vs, bs, vp, bp. exact (conj E (conj L P)).
Defined.

(** X25 on the state [sky]. *)
Lemma tick_draws_what_it_counts_witness :
  exists visSats blockSats visPlanes blockPlanes,
    updateMathLoop el_propagate el_look lat_look sky 0
    = Some (visSats, blockSats, visPlanes, blockPlanes) /\
    members "Aircraft" (visPlanes ++ visSats) = visPlanes.
Proof.
  assert (H1 : Forall grouped_by_name (satRecords sky)).
  { unfold sky. cbn [satRecords].
    repeat apply Forall_cons_2; [| | | |apply Forall_nil_2]; split; reflexivity. }
  assert (H2 : Z.of_nat (length (hz_az (horizon sky))) <= 2 ^ 31) by (simpl; lia).
  destruct (tick_draws_what_it_counts line_length el_propagate el_look lat_look
              one_entry_parse no_coercion_str one_decimal fixed_clocks sky 0 H1 H2)
    as (vs & bs & vp & bp & E & _ & M & _).
  exists vs, bs, vp, bp. exact (conj E M).
Defined.

(** * Examples of the page *)

(** A tick on the full page, before [initPlots]: the four counts are
    written, the plots are left alone. *)
Example updateMathLoop_tick_example :
  exists pg',
    updateMathLoop_tick el_propagate el_look lat_look no_coercion_str one_decimal
      fixed_clocks sky page_full 0 = Some (pg', Normal) /\
    dom pg' !! "clock-utc" = Some "2026-01-01 00:00:00 UTC" /\
    polar_data pg' = [].
Proof. eexists. split; [vm_compute; reflexivity|]. split; reflexivity. Qed.

(** The startup check on a page without the plot elements. *)
Example runtimeCheck_example :
  dom (snd (runtimeCheck true false
              (page_of ["clock-utc"; "clock-obs"; "clock-user"; "count-sat";
                        "count-plane"])))
    !! "skyrfi-banner"
  = Some "Startup check failed: satellite.js, missing DOM #polar, missing DOM #rect".
Proof. vm_compute. reflexivity. Qed.

(** A short terrain table and a catalog of two element sets, as lists of
    lines. *)
Definition terrain_lines : list string :=
  ["bin,az,el"; "0,90,1.5"; "1,10,2"].

Definition catalog_lines : list string :=
  ["ISS (ZARYA)"; "1 25544U"; "2 25544"; "STARLINK-1"; "1 44713U"; "2 44713"; ""].

(** X27 with a table of two rows. *)
Lemma parseHorizonCsv_line_endings_witness :
  parseHorizonCsv sky (dos_text terrain_lines)
  = parseHorizonCsv sky (unix_text terrain_lines).
Proof.
  assert (H : Forall (fun l => has_char LF l = false) terrain_lines)
    by (repeat constructor).
  exact (proj2 (parseHorizonCsv_line_endings sky terrain_lines H)).
Defined.

(** X28 with the one-entry codec: a catalog cached at 1000 is read again
    at 2000 with the network down. *)
Lemma fetchTLEs_within_ttl_witness :
  let out := fetchTLEs line_length one_entry_parse one_entry_stringify no_quota
               no_coercion_num (fun _ => Ok "payload") sky ∅ 1000 in
  fetchTLEs line_length one_entry_parse one_entry_stringify no_quota
    no_coercion_num offline (fst out) (snd out) 2000 = out.
Proof.
  assert (H1 : cacheRead one_entry_parse no_coercion_num ∅ "tles_active"
                 TLE_FETCH_MS 1000 = None) by reflexivity.
  assert (H2 : (fun _ : string => Ok "payload") TLE_URL = Ok "payload")
    by reflexivity.
  assert (H3 : no_quota (<["tles_active" :=
                 one_entry_stringify (envelope 1000 (Str "payload"))]> ∅) = true)
    by reflexivity.
  assert (H4 : one_entry_stringify (envelope 1000 (Str "payload")) <> "")
    by discriminate.
  assert (H5 : one_entry_parse (one_entry_stringify (envelope 1000 (Str "payload")))
               = Ok (envelope 1000 (Str "payload"))) by reflexivity.
  assert (H6 : 2000 - 1000 < TLE_FETCH_MS) by (vm_compute; reflexivity).
  exact (proj1 (fetchTLEs_within_ttl line_length one_entry_parse
                  one_entry_stringify no_quota no_coercion_num
                  (fun _ => Ok "payload") sky ∅ 1000 "payload"
                  H1 H2 H3 H4 H5) offline 2000 H6).
Defined.

(** X29 with a catalog of two element sets. *)
Lemma fetchTLEs_line_endings_witness :
  fst (fetchTLEs line_length one_entry_parse one_entry_stringify no_quota
         no_coercion_num (fun _ => Ok (dos_text catalog_lines)) sky ∅ 0)
  = fst (fetchTLEs line_length one_entry_parse one_entry_stringify no_quota
           no_coercion_num (fun _ => Ok (unix_text catalog_lines)) sky ∅ 0).
Proof.
  assert (H1 : Forall (fun l => has_char LF l = false) catalog_lines)
    by (repeat constructor).
  assert (H2 : Forall (fun l => is_empty l = false) (removelast catalog_lines))
    by (repeat constructor).
  assert (H3 : cacheRead one_entry_parse no_coercion_num ∅ "tles_active"
                 TLE_FETCH_MS 0 = None) by reflexivity.
  exact (proj1 (fetchTLEs_line_endings line_length one_entry_parse
                  one_entry_stringify no_quota no_coercion_num
                  (fun _ => Ok (dos_text catalog_lines))
                  (fun _ => Ok (unix_text catalog_lines)) sky ∅ 0 catalog_lines
                  H1 H2 H3 eq_refl eq_refl)).
Defined.

(** The two texts of the catalog differ, and both give the two records. *)
Example fetchTLEs_line_endings_example :
  dos_text catalog_lines <> unix_text catalog_lines /\
  map rec_name
    (satRecords (fst (fetchTLEs line_length one_entry_parse one_entry_stringify
                        no_quota no_coercion_num
                        (fun _ => Ok (dos_text catalog_lines)) sky ∅ 0)))
  = ["ISS (ZARYA)"; "STARLINK-1"].
Proof. split; [discriminate|vm_compute; reflexivity]. Qed.

(** X30 on an empty table of aircraft and a feed whose only record has
    the hex [__proto__]. *)
Definition proto_aircraft : jsval :=
  Obj [("hex", Str "__proto__"); ("flight", Str "UAL123");
       ("lat", Num (num_of_Z 37)); ("lon", Num (num_of_Z (-118)))].

Lemma fetchPlanes_never_tracks_proto_witness :
  planes (fst (fetchPlanes one_entry_parse one_entry_stringify no_quota
                 no_coercion_num no_coercion_str
                 (feed (snapshot [proto_aircraft])) (tracking ∅) ∅ 990 1000))
  !! "__proto__" = None.
Proof.
  assert (H : planes (tracking ∅) !! "__proto__" = None) by reflexivity.
  exact (proj1 (fetchPlanes_never_tracks_proto one_entry_parse
                  one_entry_stringify no_quota no_coercion_num no_coercion_str
                  (feed (snapshot [proto_aircraft])) (tracking ∅) ∅ 990 1000 H)).
Defined.

(** The refresh on that feed completes and tracks nothing. *)
Example proto_record_not_tracked :
  planes (fst (fetchPlanes one_entry_parse one_entry_stringify no_quota
                 no_coercion_num no_coercion_str
                 (feed (snapshot [proto_aircraft])) (tracking ∅) ∅ 990 1000))
  = ∅.
Proof. vm_compute. reflexivity. Qed.
